(** * Sound-localisation servo controller: FIT interrupt handler, steering
      policy and PWM timer driver

    Shallow embedding of [finalproject.c] and [pwm_tmrctr.c].  The target is a
    MicroBlaze (ILP32): [int], [long] and [u32] are 32 bits wide, [float] is
    IEEE-754 binary32 and [double] is binary64, evaluated in the type of the
    operands after the usual arithmetic conversions, round-to-nearest-even. *)

From Stdlib Require Import ZArith List Bool Lia.
From Stdlib Require Import Floats.SpecFloat.
From Stdlib Require Import Reals Lra.
Import ListNotations.
Local Open Scope Z_scope.

(** ** Machine integers *)

(** A value reduced to an unsigned 32-bit object ([u32], [unsigned int],
    [unsigned long]). *)
Definition u32 (z : Z) : Z := z mod 2 ^ 32.

(** A value reduced to a signed 32-bit object ([int], [long]), two's
    complement. *)
Definition s32 (z : Z) : Z := (z + 2 ^ 31) mod 2 ^ 32 - 2 ^ 31.

Definition is_u32 (z : Z) : Prop := 0 <= z < 2 ^ 32.
Definition is_s32 (z : Z) : Prop := - 2 ^ 31 <= z < 2 ^ 31.

(** ** finalproject.c: constants *)

Definition FIT_CLOCK_FREQ_HZ : Z := 40000.
Definition FIT_COUNT_1MSEC : Z := 40.
Definition SERVO_NEUTRAL_FREQ : Z := 50.
Definition SERVO_NEUTRAL_DUTY : Z := 7.

(** ** finalproject.c: the variables the interrupt handler touches

    [clkfit], [timestamp] and [phase_diff] are globals, [ts_interval] is the
    handler's static local, [gpio_out] is the last value written to channel 2
    of GPIO 0 by [XGpio_DiscreteWrite]. *)
Record FitState : Type := mkFit {
  clkfit      : Z;   (* volatile unsigned int  *)
  timestamp   : Z;   (* volatile unsigned long *)
  ts_interval : Z;   (* static int             *)
  phase_diff  : Z;   (* int                    *)
  gpio_out    : Z
}.

(** State at reset: zero-initialised globals, [ts_interval = 0],
    [phase_diff = 0]. *)
Definition fit_reset : FitState := mkFit 0 0 0 0 0.

Definition set_phase_diff (s : FitState) (v : Z) : FitState :=
  mkFit (clkfit s) (timestamp s) (ts_interval s) v (gpio_out s).

(** The part of [FIT_Handler] before the comparison of the two counters:
    toggle the FIT clock, write it out, advance the timestamp divider. *)
Definition FIT_tick (s : FitState) : FitState :=
  let clk := Z.lxor (clkfit s) 1 in
  let ts := s32 (ts_interval s + 1) in
  if ts >? FIT_COUNT_1MSEC
  then mkFit clk (u32 (timestamp s + 1)) 1 (phase_diff s) clk
  else mkFit clk (timestamp s) ts (phase_diff s) clk.

(** [FIT_Handler]: [time1_count] and [time2_count] are the two values
    [XGpio_DiscreteRead] returns for channels 1 and 2 of GPIO 1. *)
Definition FIT_Handler (s : FitState) (time1_count time2_count : Z) : FitState :=
  let s1 := FIT_tick s in
  if time1_count >? time2_count then
    if u32 (time1_count - time2_count) >? 25000 then s1            (* return *)
    else
      let direction := 1 in
      let diff := u32 (time1_count - time2_count) in
      set_phase_diff s1 (s32 (s32 diff * direction))
  else if time2_count >? time1_count then
    if u32 (time2_count - time1_count) >? 25000 then s1            (* return *)
    else
      let direction := -1 in
      let diff := u32 (time2_count - time1_count) in
      set_phase_diff s1 (s32 (s32 diff * direction))
  else s1.

(** A sequence of interrupt firings, one pair of counter readings each. *)
Definition FIT_run (s : FitState) (readings : list (Z * Z)) : FitState :=
  fold_left (fun st r => FIT_Handler st (fst r) (snd r)) readings s.

(** ** finalproject.c: the steering policy in the main loop

    [pwm_duty = phase_diff * 4 / 25000 + SERVO_NEUTRAL_DUTY] on [int]:
    [/] truncates toward zero ([Z.quot]); the product and the sum are reduced
    to 32 bits. *)
Definition steer_duty (pd : Z) : Z :=
  s32 (Z.quot (s32 (pd * 4)) 25000 + SERVO_NEUTRAL_DUTY).

(** The policy as the specification words it: the same expression, clamped to
    the duty range 0..100 the PWM driver accepts. *)
Definition clamp (lo hi x : Z) : Z := Z.max lo (Z.min hi x).
Definition spec_steer_duty (pd : Z) : Z :=
  clamp 0 100 (Z.quot (pd * 4) 25000 + SERVO_NEUTRAL_DUTY).

(** ** IEEE-754 arithmetic of the target

    [float] is binary32 and [double] binary64, both carried by [spec_float];
    every operation rounds to nearest, ties to even, in the format named by
    its module. *)
Definition float : Type := spec_float.
Definition double : Type := spec_float.

(** Conversion of a floating value to the format [(prec, emax)]. *)
Definition reround (prec emax : Z) (x : spec_float) : spec_float :=
  match x with
  | S754_finite s m e => binary_round prec emax s m e
  | _ => x
  end.

Module F32.
Definition prec : Z := 24.
Definition emax : Z := 128.
Definition of_Z (z : Z) : float := binary_normalize prec emax z 0 false.
Definition of_double (x : double) : float := reround prec emax x.
Definition add : float -> float -> float := SFadd prec emax.
Definition sub : float -> float -> float := SFsub prec emax.
Definition mul : float -> float -> float := SFmul prec emax.
Definition div : float -> float -> float := SFdiv prec emax.
End F32.

Module F64.
Definition prec : Z := 53.
Definition emax : Z := 1024.
Definition of_Z (z : Z) : double := binary_normalize prec emax z 0 false.
Definition of_float (x : float) : double := reround prec emax x.
Definition add : double -> double -> double := SFadd prec emax.
Definition sub : double -> double -> double := SFsub prec emax.
Definition mul : double -> double -> double := SFmul prec emax.
Definition div : double -> double -> double := SFdiv prec emax.
End F64.

(** [a < b] and [a > b] on floating values; false when either is a NaN. *)
Definition flt (a b : spec_float) : bool := SFltb a b.
Definition fgt (a b : spec_float) : bool := SFltb b a.

(** Neither a zero nor a finite number: the value of a division by zero. *)
Definition nan_or_inf (x : spec_float) : bool :=
  match x with
  | S754_nan | S754_infinity _ => true
  | _ => false
  end.

(** Integral part of a finite value, truncated toward zero. *)
Definition Ztrunc_float (x : spec_float) : option Z :=
  match x with
  | S754_zero _ => Some 0
  | S754_finite s m e =>
      let a := match e with
               | Zneg p => Z.shiftr (Zpos m) (Zpos p)
               | _ => Z.shiftl (Zpos m) e
               end in
      Some (if s then - a else a)
  | _ => None
  end.

(** Nearest integer of a finite value, halfway cases away from zero. *)
Definition Zround_away (x : spec_float) : option Z :=
  match x with
  | S754_zero _ => Some 0
  | S754_finite s m e =>
      let a := match e with
               | Zneg p => Z.shiftr (Zpos m + Z.shiftl 1 (Zpos p - 1)) (Zpos p)
               | _ => Z.shiftl (Zpos m) e
               end in
      Some (if s then - a else a)
  | _ => None
  end.

Definition in_u32 (z : Z) : bool := (0 <=? z) && (z <? 2 ^ 32).
Definition in_s32 (z : Z) : bool := (- 2 ^ 31 <=? z) && (z <? 2 ^ 31).

(** The conversion [(u32) x] when C defines it: the truncated value fits. *)
Definition float_to_u32_defined (x : float) : option Z :=
  match Ztrunc_float x with
  | Some z => if in_u32 z then Some z else None
  | None => None
  end.

(** [lroundf x] when C defines it: the rounded value fits a [long]. *)
Definition lroundf_defined (x : float) : option Z :=
  match Zround_away x with
  | Some z => if in_s32 z then Some z else None
  | None => None
  end.

Section Conversions.
(** For a NaN, an infinity or a value out of range C leaves the result of a
    float-to-integer conversion unspecified (Annex F.4, 7.12.9.7); the two
    functions below stand for what the target delivers then. *)
Variable fixuns_unspecified : float -> Z.
Variable lround_unspecified : float -> Z.

Definition float_to_u32 (x : float) : Z :=
  match float_to_u32_defined x with
  | Some z => z
  | None => u32 (fixuns_unspecified x)
  end.

Definition lroundf (x : float) : Z :=
  match lroundf_defined x with
  | Some z => z
  | None => s32 (lround_unspecified x)
  end.
End Conversions.

(** ** The floating formats on the real line

    Finite floating values are given their real value, so that the rounding
    error of the driver's arithmetic can be bounded for every clock and
    frequency rather than computed case by case. *)

(** [2^e]. *)
Definition bpow (e : Z) : R := powerRZ 2 e.

(** The real value of a finite number; 0 for zeros, infinities and NaN. *)
Definition B2R (x : spec_float) : R :=
  match x with
  | S754_finite s m e => (if s then -1 else 1) * (IZR (Zpos m) * bpow e)
  | _ => 0
  end.

(** A positive number whose mantissa has exactly [prec] digits. *)
Definition pnorm (prec : Z) (x : spec_float) : Prop :=
  match x with
  | S754_finite false m _ => (2 ^ (prec - 1) <= Zpos m < 2 ^ prec)%Z
  | _ => False
  end.

(** A value that is not positive: what a subtraction with a result below
    zero, or a NaN, looks like. *)
Definition not_positive (x : spec_float) : Prop :=
  match x with
  | S754_zero _ | S754_infinity true | S754_finite true _ _ | S754_nan => True
  | _ => False
  end.

Local Open Scope R_scope.

(** [x] is [X] up to the factor [r], in both directions. *)
Definition within (r X x : R) : Prop := 1 <= r /\ 0 < X /\ X <= r * x /\ x <= r * X.

(** Far from overflow and underflow in both formats. *)
Definition inrange (X : R) : Prop := bpow (-100) <= X <= bpow 100.

(** [x] is a positive normal number of precision [prec] whose value is the
    real [X] up to the factor [r]. *)
Definition goodf (prec : Z) (r X : R) (x : spec_float) : Prop :=
  pnorm prec x /\ within r X (B2R x).

(** The factor one rounding contributes: twice the unit in the last place. *)
Definition rho (prec : Z) : R := 1 + 2 * bpow (1 - prec).

(** Magnitudes: closed under products and quotients. *)
Definition mag (k : Z) (X : R) : Prop := bpow (- k) <= X <= bpow k.

(** Factors counted in units of 2.5e-7, a little more than one binary32
    rounding. *)
Definition tick (k : R) : R := 1 + k * / 4000000.

Local Close Scope R_scope.

(** ** Status codes and constants of the Xilinx headers

    [xstatus.h], [xil_types.h], [xtmrctr_l.h] and [xparameters.h] are included
    by the sources but are not among them. *)

(** Modelled from the spec: the status codes of xstatus.h the driver returns
    or passes on, kept symbolic. *)
Inductive XStatus : Type :=
  | XST_SUCCESS
  | XST_FAILURE
  | XST_DEVICE_NOT_FOUND
  | XST_DEVICE_IS_STARTED
  | XST_INVALID_PARAM.

(** Modelled from the spec: the component-state marks of xil_types.h. *)
Definition XIL_COMPONENT_IS_READY : Z := 0x11111111.
Definition XIL_COMPONENT_IS_STARTED : Z := 0x22222222.

(** Modelled from the spec: the bit masks of the control/status register in
    xtmrctr_l.h (PWM enable, auto-reload, down-count, interrupt enable and
    run/enable among them, as section 6 lists). *)
Definition XTC_CSR_ENABLE_ALL_MASK   : Z := 0x400.
Definition XTC_CSR_ENABLE_PWM_MASK   : Z := 0x200.
Definition XTC_CSR_INT_OCCURED_MASK  : Z := 0x100.
Definition XTC_CSR_ENABLE_TMR_MASK   : Z := 0x080.
Definition XTC_CSR_ENABLE_INT_MASK   : Z := 0x040.
Definition XTC_CSR_LOAD_MASK         : Z := 0x020.
Definition XTC_CSR_AUTO_RELOAD_MASK  : Z := 0x010.
Definition XTC_CSR_EXT_GENERATE_MASK : Z := 0x004.
Definition XTC_CSR_DOWN_COUNT_MASK   : Z := 0x002.

(** Modelled from the spec: the board parameters of xparameters.h; the AXI
    clock is the 100 MHz finalproject.c names for the processor clock. *)
Definition XPAR_TMRCTR_0_DEVICE_ID : Z := 0.
Definition XPAR_TMRCTR_0_BASEADDR : Z := 0x41C00000.
Definition AXI_CLOCK_FREQ_HZ : Z := 100000000.

(** ** pwm_tmrctr.h *)
Definition PWM_TIMER_WIDTH : Z := 32.
Definition PWM_MAXCNT : double := F64.of_Z 4294967295.

Inductive TmrCtrNumber : Type :=
  | PWM_PERIOD_TIMER    (* 0 *)
  | PWM_DUTY_TIMER.     (* 1 *)

(** ** The timer/counter peripheral behind the low-level interface *)

Inductive TmrCtrReg : Type :=
  | XTC_TCSR_OFFSET     (* control/status register *)
  | XTC_TLR_OFFSET.     (* load register *)

(** One access of the driver to a register of the peripheral. *)
Inductive BusAccess : Type :=
  | BusRead  (n : TmrCtrNumber) (r : TmrCtrReg)
  | BusWrite (n : TmrCtrNumber) (r : TmrCtrReg) (v : Z).

(** The two control/status registers, the two load registers, and the record
    of the accesses made so far (oldest first). *)
Record TmrCtrHw : Type := mkHw {
  TCSR0 : Z;
  TCSR1 : Z;
  TLR0  : Z;
  TLR1  : Z;
  bus   : list BusAccess
}.

(** Modelled from the spec: [XTmrCtr_ReadReg] of xtmrctr_l.h, which is not
    among the sources; section 6 of the specification names the capability
    ([read_load], [read_control]).  A read returns the register and is
    recorded. *)
Definition XTmrCtr_ReadReg (h : TmrCtrHw) (n : TmrCtrNumber) (r : TmrCtrReg)
  : Z * TmrCtrHw :=
  let v := match r, n with
           | XTC_TCSR_OFFSET, PWM_PERIOD_TIMER => TCSR0 h
           | XTC_TCSR_OFFSET, PWM_DUTY_TIMER => TCSR1 h
           | XTC_TLR_OFFSET, PWM_PERIOD_TIMER => TLR0 h
           | XTC_TLR_OFFSET, PWM_DUTY_TIMER => TLR1 h
           end in
  (v, mkHw (TCSR0 h) (TCSR1 h) (TLR0 h) (TLR1 h) (bus h ++ [BusRead n r])).

(** Modelled from the spec: [XTmrCtr_WriteReg] of xtmrctr_l.h, which is not
    among the sources; section 6 of the specification names the capability
    ([write_load], [write_control]).  A load register keeps the value
    written.  A control/status register keeps the bits written, except that
    the enable-all bit is a command: written as 1 it sets the enable bit of
    both timers (it is shadowed in both registers, as [PWM_Start] notes). *)
Definition XTmrCtr_WriteReg (h : TmrCtrHw) (n : TmrCtrNumber) (r : TmrCtrReg)
  (v : Z) : TmrCtrHw :=
  let log := bus h ++ [BusWrite n r (u32 v)] in
  match r with
  | XTC_TLR_OFFSET =>
      match n with
      | PWM_PERIOD_TIMER => mkHw (TCSR0 h) (TCSR1 h) (u32 v) (TLR1 h) log
      | PWM_DUTY_TIMER => mkHw (TCSR0 h) (TCSR1 h) (TLR0 h) (u32 v) log
      end
  | XTC_TCSR_OFFSET =>
      let kept := Z.ldiff (u32 v) XTC_CSR_ENABLE_ALL_MASK in
      let all := Z.testbit v 10 in
      let mine := if all then Z.lor kept XTC_CSR_ENABLE_TMR_MASK else kept in
      let other x := if all then Z.lor x XTC_CSR_ENABLE_TMR_MASK else x in
      match n with
      | PWM_PERIOD_TIMER => mkHw mine (other (TCSR1 h)) (TLR0 h) (TLR1 h) log
      | PWM_DUTY_TIMER => mkHw (other (TCSR0 h)) mine (TLR0 h) (TLR1 h) log
      end
  end.

(** Modelled from the spec: the register macros of xtmrctr_l.h the driver
    uses ([write_control], [read_control], [write_load], [read_load] in
    section 6), over the two accessors. *)
Definition XTmrCtr_SetControlStatusReg (h : TmrCtrHw) (n : TmrCtrNumber) (v : Z)
  : TmrCtrHw := XTmrCtr_WriteReg h n XTC_TCSR_OFFSET v.

Definition XTmrCtr_GetControlStatusReg (h : TmrCtrHw) (n : TmrCtrNumber)
  : Z * TmrCtrHw := XTmrCtr_ReadReg h n XTC_TCSR_OFFSET.

Definition XTmrCtr_SetLoadReg (h : TmrCtrHw) (n : TmrCtrNumber) (v : Z)
  : TmrCtrHw := XTmrCtr_WriteReg h n XTC_TLR_OFFSET v.

Definition XTmrCtr_GetLoadReg (h : TmrCtrHw) (n : TmrCtrNumber)
  : Z * TmrCtrHw := XTmrCtr_ReadReg h n XTC_TLR_OFFSET.

(** Modelled from the spec: [XTmrCtr_LoadTimerCounterReg] of xtmrctr_l.h
    ([set_reset] in section 6): sets the load bit of the control/status
    register. *)
Definition XTmrCtr_LoadTimerCounterReg (h : TmrCtrHw) (n : TmrCtrNumber)
  : TmrCtrHw :=
  let '(c, h1) := XTmrCtr_ReadReg h n XTC_TCSR_OFFSET in
  XTmrCtr_WriteReg h1 n XTC_TCSR_OFFSET (Z.lor c XTC_CSR_LOAD_MASK).

(** Modelled from the spec: [XTmrCtr_Disable] of xtmrctr_l.h ([disable] in
    section 6): clears the enable bit of the timer's control/status
    register. *)
Definition XTmrCtr_Disable (h : TmrCtrHw) (n : TmrCtrNumber) : TmrCtrHw :=
  let '(c, h1) := XTmrCtr_ReadReg h n XTC_TCSR_OFFSET in
  XTmrCtr_WriteReg h1 n XTC_TCSR_OFFSET (Z.ldiff c XTC_CSR_ENABLE_TMR_MASK).

(** A timer counts when the enable bit of its control/status register is
    set. *)
Definition timer_enabled (h : TmrCtrHw) (n : TmrCtrNumber) : bool :=
  match n with
  | PWM_PERIOD_TIMER => Z.testbit (TCSR0 h) 7
  | PWM_DUTY_TIMER => Z.testbit (TCSR1 h) 7
  end.

(** ** The driver instance and the state the PWM functions work on *)

(** The fields of the Xilinx [XTmrCtr] structure that matter here. *)
Record XTmrCtr : Type := mkInst {
  BaseAddress : Z;
  IsReady : Z;
  IsStartedTmrCtr0 : Z;
  IsStartedTmrCtr1 : Z
}.

(** [*InstancePtr], the peripheral it drives, and the file-scope variable
    [clock_frequency] of pwm_tmrctr.c. *)
Record PwmState : Type := mkPwm {
  Instance : XTmrCtr;
  hw : TmrCtrHw;
  clock_frequency : float
}.

(** Before [PWM_Initialize]: a zeroed instance, the peripheral out of reset,
    [clock_frequency] zero-initialised. *)
Definition pwm_reset : PwmState :=
  mkPwm (mkInst 0 0 0 0) (mkHw 0 0 0 0 []) (S754_zero false).

Definition with_hw (s : PwmState) (h : TmrCtrHw) : PwmState :=
  mkPwm (Instance s) h (clock_frequency s).

Definition is_ready (s : PwmState) : bool :=
  IsReady (Instance s) =? XIL_COMPONENT_IS_READY.

(** Modelled from the spec: [XTmrCtr_Initialize] of the Xilinx driver, which
    is not among the sources.  As [PWM_Initialize] documents it: it fails
    with [XST_DEVICE_NOT_FOUND] for an unknown device id and with
    [XST_DEVICE_IS_STARTED] for a started device; otherwise it marks the
    instance ready and clears both timers' load and control registers. *)
Definition XTmrCtr_Initialize (s : PwmState) (DeviceId : Z) : XStatus * PwmState :=
  if negb (DeviceId =? XPAR_TMRCTR_0_DEVICE_ID) then (XST_DEVICE_NOT_FOUND, s)
  else if (IsStartedTmrCtr0 (Instance s) =? XIL_COMPONENT_IS_STARTED)
          || (IsStartedTmrCtr1 (Instance s) =? XIL_COMPONENT_IS_STARTED)
  then (XST_DEVICE_IS_STARTED, s)
  else
    let clear h n :=
      let h := XTmrCtr_WriteReg h n XTC_TLR_OFFSET 0 in
      let h := XTmrCtr_WriteReg h n XTC_TCSR_OFFSET
                 (Z.lor XTC_CSR_INT_OCCURED_MASK XTC_CSR_LOAD_MASK) in
      XTmrCtr_WriteReg h n XTC_TCSR_OFFSET 0 in
    (XST_SUCCESS,
     mkPwm (mkInst XPAR_TMRCTR_0_BASEADDR XIL_COMPONENT_IS_READY 0 0)
           (clear (clear (hw s) PWM_PERIOD_TIMER) PWM_DUTY_TIMER)
           (clock_frequency s)).

(** ** pwm_tmrctr.c *)

Definition PWM_Initialize (s : PwmState) (DeviceId : Z) (EnableInterrupts : bool)
  (clkfreq : Z) : XStatus * PwmState :=
  let '(StatusReg, s) := XTmrCtr_Initialize s DeviceId in
  match StatusReg with
  | XST_SUCCESS =>
      let ctlbits :=
        if EnableInterrupts
        then Z.lor (Z.lor (Z.lor (Z.lor XTC_CSR_ENABLE_PWM_MASK
                 XTC_CSR_EXT_GENERATE_MASK) XTC_CSR_AUTO_RELOAD_MASK)
                 XTC_CSR_DOWN_COUNT_MASK) XTC_CSR_ENABLE_INT_MASK
        else Z.lor (Z.lor (Z.lor XTC_CSR_ENABLE_PWM_MASK
                 XTC_CSR_EXT_GENERATE_MASK) XTC_CSR_AUTO_RELOAD_MASK)
                 XTC_CSR_DOWN_COUNT_MASK in
      let h := XTmrCtr_SetControlStatusReg (hw s) PWM_PERIOD_TIMER ctlbits in
      let h := XTmrCtr_SetControlStatusReg h PWM_DUTY_TIMER ctlbits in
      (XST_SUCCESS, mkPwm (Instance s) h (F32.of_Z clkfreq))
  | failed => (failed, s)
  end.

Definition PWM_Start (s : PwmState) : XStatus * PwmState :=
  if negb (is_ready s) then (XST_FAILURE, s)
  else
    let h := XTmrCtr_LoadTimerCounterReg (hw s) PWM_PERIOD_TIMER in
    let '(c, h) := XTmrCtr_GetControlStatusReg h PWM_PERIOD_TIMER in
    let ctlbits := Z.land c 0xFFFFFFDF in
    let h := XTmrCtr_SetControlStatusReg h PWM_PERIOD_TIMER ctlbits in
    let h := XTmrCtr_LoadTimerCounterReg h PWM_DUTY_TIMER in
    let '(c, h) := XTmrCtr_GetControlStatusReg h PWM_PERIOD_TIMER in
    let ctlbits := Z.land c 0xFFFFFFDF in
    let h := XTmrCtr_SetControlStatusReg h PWM_DUTY_TIMER ctlbits in
    let '(c, h) := XTmrCtr_GetControlStatusReg h PWM_PERIOD_TIMER in
    let ctlbits := Z.lor c XTC_CSR_ENABLE_ALL_MASK in
    let h := XTmrCtr_SetControlStatusReg h PWM_PERIOD_TIMER ctlbits in
    (XST_SUCCESS, with_hw s h).

Definition PWM_Stop (s : PwmState) : XStatus * PwmState :=
  if negb (is_ready s) then (XST_FAILURE, s)
  else
    let h := XTmrCtr_Disable (hw s) PWM_PERIOD_TIMER in
    let h := XTmrCtr_Disable h PWM_DUTY_TIMER in
    (XST_SUCCESS, with_hw s h).

(** [timer_clock_period = 1.0 / clock_frequency]: a [double] quotient stored
    in a [float]. *)
Definition timer_clock_period (clk : float) : float :=
  F32.of_double (F64.div (F64.of_Z 1) (F64.of_float clk)).

(** The values [PWM_SetParams] computes before it checks its parameters. *)
Definition SetParams_pwm_period (freq : Z) : float :=
  F32.of_double (F64.div (F64.of_Z 1) (F64.of_Z freq)).

Definition SetParams_tlr0 (clk : float) (freq : Z) : float :=
  F32.sub (F32.div (SetParams_pwm_period freq) (timer_clock_period clk))
          (F32.of_Z 2).

Definition SetParams_pwm_dc (dutyfactor : Z) : float :=
  F32.of_double (F64.div (F64.of_Z dutyfactor) (F64.of_Z 100)).

(** [tlr1] as first computed, before the test [tlr1 < 0]. *)
Definition SetParams_tlr1_raw (clk : float) (freq dutyfactor : Z) : float :=
  F32.sub (F32.div (F32.mul (SetParams_pwm_period freq)
                            (SetParams_pwm_dc dutyfactor))
                   (timer_clock_period clk))
          (F32.of_Z 2).

(** [tlr1] after [if (tlr1 < 0) tlr1 = 0.0;]. *)
Definition SetParams_tlr1 (clk : float) (freq dutyfactor : Z) : float :=
  let tlr1 := SetParams_tlr1_raw clk freq dutyfactor in
  if flt tlr1 (F32.of_Z 0) then F32.of_double (S754_zero false) else tlr1.

(** The values [PWM_GetParams] computes from the two load registers. *)
Definition GetParams_pwm_period (clk tlr0 : float) : float :=
  F32.mul (F32.add tlr0 (F32.of_Z 2)) (timer_clock_period clk).

Definition GetParams_pwm_dc (tlr0 tlr1 : float) : float := F32.div tlr1 tlr0.

(** The argument of [lroundf] in [*freq = lroundf(1.00 / pwm_period)]. *)
Definition GetParams_freq_arg (clk tlr0 : float) : float :=
  F32.of_double (F64.div (F64.of_Z 1) (F64.of_float (GetParams_pwm_period clk tlr0))).

(** The argument of [lroundf] in [*dutyfactor = lroundf(pwm_dc * 100.00)]. *)
Definition GetParams_duty_arg (tlr0 tlr1 : float) : float :=
  F32.of_double (F64.mul (F64.of_float (GetParams_pwm_dc tlr0 tlr1)) (F64.of_Z 100)).

(** The variables of [main] and the driver instance it owns. *)
Record MainState : Type := mkMain {
  pwm_freq : Z;
  pwm_duty : Z;
  new_perduty : bool;
  old_phase_diff : Z;
  PWMTimerInst : PwmState
}.

(** ** finalproject.c: one pass of the main loop

    [phase_diff] is a plain [int], not [volatile], and the interrupt handler
    that writes it is enabled while the loop runs.  One pass reads it up to
    three times: in the test [phase_diff != old_phase_diff] (line 176), in
    the duty expression (line 181) and in the copy to [old_phase_diff]
    (line 184).  [PhaseReads] holds the three values read; a compiler that
    keeps the first value in a register gives three equal values, and an
    interrupt between two loads gives different ones. *)
Record PhaseReads : Type := mkReads {
  pd_test : Z;
  pd_duty : Z;
  pd_old : Z
}.

Section Driver.
Variable fixuns_unspecified : float -> Z.
Variable lround_unspecified : float -> Z.

Definition PWM_SetParams (s : PwmState) (freq dutyfactor : Z)
  : XStatus * PwmState :=
  if negb (is_ready s) then (XST_FAILURE, s)
  else
    let tlr0 := SetParams_tlr0 (clock_frequency s) freq in
    let tlr1 := SetParams_tlr1 (clock_frequency s) freq dutyfactor in
    if dutyfactor >? 100 then (XST_INVALID_PARAM, s)
    else if fgt (F64.of_float tlr0) PWM_MAXCNT
            || fgt (F64.of_float tlr1) PWM_MAXCNT
    then (XST_INVALID_PARAM, s)
    else
      let '(_, s1) := PWM_Stop s in
      let h := XTmrCtr_SetLoadReg (hw s1) PWM_PERIOD_TIMER
                 (float_to_u32 fixuns_unspecified tlr0) in
      let h := XTmrCtr_SetLoadReg h PWM_DUTY_TIMER
                 (float_to_u32 fixuns_unspecified tlr1) in
      (XST_SUCCESS, with_hw s1 h).

(** The third component holds [( *freq, *dutyfactor )] when the function
    stores through its two pointers. *)
Definition PWM_GetParams (s : PwmState) : XStatus * PwmState * option (Z * Z) :=
  if negb (is_ready s) then (XST_FAILURE, s, None)
  else
    let '(_, s1) := PWM_Stop s in
    let '(tlr, h) := XTmrCtr_GetLoadReg (hw s1) PWM_PERIOD_TIMER in
    let tlr0 := F32.of_Z tlr in
    let '(tlr, h) := XTmrCtr_GetLoadReg h PWM_DUTY_TIMER in
    let tlr1 := F32.of_Z tlr in
    let freq :=
      u32 (lroundf lround_unspecified (GetParams_freq_arg (clock_frequency s1) tlr0)) in
    let dutyfactor :=
      u32 (lroundf lround_unspecified (GetParams_duty_arg tlr0 tlr1)) in
    (XST_SUCCESS, with_hw s1 h, Some (freq, dutyfactor)).

(** One pass over the values read; [delay_msecs] and the console output
    leave the modelled state alone. *)
Definition main_loop_body (m : MainState) (r : PhaseReads) : MainState :=
  if negb (pd_test r =? old_phase_diff m) then
    let duty := steer_duty (pd_duty r) in
    let '(_, d) := PWM_SetParams (PWMTimerInst m) (u32 (pwm_freq m)) (u32 duty) in
    let '(_, d) := PWM_Start d in
    mkMain (pwm_freq m) duty false (pd_old r) d
  else mkMain (pwm_freq m) (pwm_duty m) false (old_phase_diff m) (PWMTimerInst m).
End Driver.

(** The driver is stopped: initialised, and neither timer enabled. *)
Definition Stopped (s : PwmState) : Prop :=
  is_ready s = true /\
  timer_enabled (hw s) PWM_PERIOD_TIMER = false /\
  timer_enabled (hw s) PWM_DUTY_TIMER = false.

(** The driver is running: initialised, and both timers enabled. *)
Definition Running (s : PwmState) : Prop :=
  is_ready s = true /\
  timer_enabled (hw s) PWM_PERIOD_TIMER = true /\
  timer_enabled (hw s) PWM_DUTY_TIMER = true.

(** One possible target: an unspecified conversion delivers 0. *)
Definition unspecified_zero : float -> Z := fun _ => 0.

(** The driver as [do_init] leaves it: [PWM_Initialize] with the AXI clock,
    interrupts off. *)
Definition pwm_initialized : PwmState :=
  snd (PWM_Initialize pwm_reset XPAR_TMRCTR_0_DEVICE_ID false AXI_CLOCK_FREQ_HZ).

(** The driver as [main] enters its loop: [PWM_SetParams] with the neutral
    servo setting, then [PWM_Start]. *)
Definition pwm_started : PwmState :=
  snd (PWM_Start (snd (PWM_SetParams unspecified_zero pwm_initialized
                         SERVO_NEUTRAL_FREQ SERVO_NEUTRAL_DUTY))).

(** Set the parameters, then read them back: what [PWM_GetParams] stores
    after an accepted [PWM_SetParams]. *)
Definition set_then_get (fu lu : float -> Z) (s : PwmState) (freq dutyfactor : Z)
  : option (Z * Z) :=
  match PWM_SetParams fu s freq dutyfactor with
  | (XST_SUCCESS, s1) => snd (PWM_GetParams lu s1)
  | _ => None
  end.

Definition within_one (a b : Z) : bool := Z.abs (a - b) <=? 1.

(** The two parameter checks of [PWM_SetParams], taken together. *)
Definition SetParams_rejects (clk : float) (freq dutyfactor : Z) : bool :=
  (dutyfactor >? 100)
  || fgt (F64.of_float (SetParams_tlr0 clk freq)) PWM_MAXCNT
  || fgt (F64.of_float (SetParams_tlr1 clk freq dutyfactor)) PWM_MAXCNT.

(** The load registers [PWM_SetParams] computes, taken on their own: [None]
    when it returns [XST_INVALID_PARAM]. *)
Definition compute_load_registers (fu : float -> Z) (clk : float)
  (freq dutyfactor : Z) : option (Z * Z) :=
  if SetParams_rejects clk freq dutyfactor then None
  else Some (float_to_u32 fu (SetParams_tlr0 clk freq),
             float_to_u32 fu (SetParams_tlr1 clk freq dutyfactor)).

(** The frequency and duty cycle [PWM_GetParams] computes from the contents
    of the two load registers. *)
Definition decode_load_registers (lu : float -> Z) (clk : float) (r0 r1 : Z)
  : Z * Z :=
  (u32 (lroundf lu (GetParams_freq_arg clk (F32.of_Z r0))),
   u32 (lroundf lu (GetParams_duty_arg (F32.of_Z r0) (F32.of_Z r1)))).

Definition roundtrip (fu lu : float -> Z) (clk : float) (freq dutyfactor : Z)
  : option (Z * Z) :=
  match compute_load_registers fu clk freq dutyfactor with
  | Some (r0, r1) => Some (decode_load_registers lu clk r0 r1)
  | None => None
  end.

Definition roundtrip_within_one (fu lu : float -> Z) (clk : float)
  (freq dutyfactor : Z) : bool :=
  match roundtrip fu lu clk freq dutyfactor with
  | Some (f, d) => within_one f freq && within_one d dutyfactor
  | None => false
  end.

(** [lo; lo + 1; ...; lo + n - 1]. *)
Definition Z_range (lo : Z) (n : nat) : list Z :=
  map (fun i => lo + Z.of_nat i) (seq 0 n).

(** The enable-all bit is a command and is never kept in a control/status
    register. *)
Definition csr_wf (h : TmrCtrHw) : Prop :=
  Z.testbit (TCSR0 h) 10 = false /\ Z.testbit (TCSR1 h) 10 = false.

(** The peripheral after the two [XTmrCtr_Disable] calls of [PWM_Stop]. *)
Definition stopped_hw (h : TmrCtrHw) : TmrCtrHw :=
  XTmrCtr_Disable (XTmrCtr_Disable h PWM_PERIOD_TIMER) PWM_DUTY_TIMER.

(** The states the driver functions can bring about from reset. *)
Inductive pwm_reachable : PwmState -> Prop :=
  | reach_reset : pwm_reachable pwm_reset
  | reach_Initialize s id en clk :
      pwm_reachable s -> pwm_reachable (snd (PWM_Initialize s id en clk))
  | reach_Start s : pwm_reachable s -> pwm_reachable (snd (PWM_Start s))
  | reach_Stop s : pwm_reachable s -> pwm_reachable (snd (PWM_Stop s))
  | reach_SetParams fu s freq dutyfactor :
      pwm_reachable s -> pwm_reachable (snd (PWM_SetParams fu s freq dutyfactor))
  | reach_GetParams lu s :
      pwm_reachable s -> pwm_reachable (snd (fst (PWM_GetParams lu s))).

(** Counter readings as the 32-bit GPIO inputs deliver them. *)
Definition u32_readings (l : list (Z * Z)) : Prop :=
  Forall (fun r => is_u32 (fst r) /\ is_u32 (snd r)) l.

(** The driver with the clock set to the largest [u32] value. *)
Definition pwm_initialized_max_clock : PwmState :=
  snd (PWM_Initialize pwm_reset XPAR_TMRCTR_0_DEVICE_ID false 4294967295).

(** ** Further definitions: the rest of the two files *)

(** A pair of readings [FIT_Handler] accepts: different, and at most 25000
    apart. *)
Definition sample_valid (a b : Z) : bool :=
  negb (a =? b) && (Z.abs (a - b) <=? 25000).

(** What the interrupt keeps apart from the phase estimate. *)
Definition timebase (s : FitState) : Z * Z * Z :=
  (clkfit s, timestamp s, ts_interval s).

(** The loop [while (timestamp != target) {}] of [delay_msecs].  Only
    [FIT_Handler] changes [timestamp], and the loop tests it at least once
    between two firings (the function's own note): it leaves when the test
    succeeds, with the firings not yet consumed, and is still spinning,
    [None], when the firings given run out first. *)
Fixpoint delay_spin (target : Z) (s : FitState) (firings : list (Z * Z))
  : option (FitState * list (Z * Z)) :=
  if timestamp s =? target then Some (s, firings)
  else match firings with
       | [] => None
       | r :: rest => delay_spin target (FIT_Handler s (fst r) (snd r)) rest
       end.

(** [delay_msecs]: [target = timestamp + msecs] in [unsigned long]. *)
Definition delay_msecs (s : FitState) (msecs : Z) (firings : list (Z * Z))
  : option (FitState * list (Z * Z)) :=
  if msecs =? 0 then Some (s, firings)
  else delay_spin (u32 (timestamp s + msecs)) s firings.

(** A control/status register after [XTmrCtr_Disable]. *)
Definition stop_csr (c : Z) : Z :=
  Z.ldiff (u32 (Z.ldiff c XTC_CSR_ENABLE_TMR_MASK)) XTC_CSR_ENABLE_ALL_MASK.

(** Both control/status registers after [PWM_Start], from the period timer's
    register [c] before it. *)
Definition start_csr (c : Z) : Z :=
  Z.lor (Z.ldiff (u32 (Z.land (Z.lor c XTC_CSR_LOAD_MASK) 0xFFFFFFDF))
                 XTC_CSR_ENABLE_ALL_MASK)
        XTC_CSR_ENABLE_TMR_MASK.

(** The control bits [PWM_Initialize] writes to both timers. *)
Definition PWM_ctlbits (EnableInterrupts : bool) : Z :=
  let pwm := Z.lor (Z.lor (Z.lor XTC_CSR_ENABLE_PWM_MASK XTC_CSR_EXT_GENERATE_MASK)
                          XTC_CSR_AUTO_RELOAD_MASK) XTC_CSR_DOWN_COUNT_MASK in
  if EnableInterrupts then Z.lor pwm XTC_CSR_ENABLE_INT_MASK else pwm.

(** A state fit for the next call: initialised, enable-all not latched. *)
Definition usable (s : PwmState) : Prop := is_ready s = true /\ csr_wf (hw s).

(** The status each initialiser outside the two files returns to [do_init];
    their effects on the other peripherals are not part of the state. *)
Record Platform : Type := mkPlatform {
  NX4IO_initialize : XStatus;
  PMDIO_initialize : XStatus;
  XGpio_Initialize_0 : XStatus;     (* GPIOInst *)
  XGpio_Initialize_1 : XStatus;     (* GPIO_1_Inst *)
  XIntc_Initialize : XStatus;
  XIntc_Connect : XStatus;
  XIntc_Start : XStatus
}.

(** [status == XST_SUCCESS]. *)
Definition succeeded (st : XStatus) : bool :=
  match st with XST_SUCCESS => true | _ => false end.

(** [do_init]: each step is tried only when the ones before it succeeded. *)
Definition do_init (p : Platform) (s : PwmState) : XStatus * PwmState :=
  if negb (succeeded (NX4IO_initialize p)) then (XST_FAILURE, s)
  else if negb (succeeded (PMDIO_initialize p)) then (XST_FAILURE, s)
  else if negb (succeeded (XGpio_Initialize_0 p)) then (XST_FAILURE, s)
  else if negb (succeeded (XGpio_Initialize_1 p)) then (XST_FAILURE, s)
  else
    let '(status, s) :=
      PWM_Initialize s XPAR_TMRCTR_0_DEVICE_ID false AXI_CLOCK_FREQ_HZ in
    if negb (succeeded status) then (XST_FAILURE, s)
    else if negb (succeeded (XIntc_Initialize p)) then (XST_FAILURE, s)
    else if negb (succeeded (XIntc_Connect p)) then (XST_FAILURE, s)
    else if negb (succeeded (XIntc_Start p)) then (XST_FAILURE, s)
    else (XST_SUCCESS, s).


(** Every initialiser outside the two files succeeds. *)
Definition platform_ok (p : Platform) : bool :=
  succeeded (NX4IO_initialize p) && succeeded (PMDIO_initialize p)
  && succeeded (XGpio_Initialize_0 p) && succeeded (XGpio_Initialize_1 p)
  && succeeded (XIntc_Initialize p) && succeeded (XIntc_Connect p)
  && succeeded (XIntc_Start p).

(** The four initialisers [do_init] calls before [PWM_Initialize] succeed. *)
Definition before_timer_ok (p : Platform) : bool :=
  succeeded (NX4IO_initialize p) && succeeded (PMDIO_initialize p)
  && succeeded (XGpio_Initialize_0 p) && succeeded (XGpio_Initialize_1 p).

(** [main] as it enters its loop. *)
Definition main_init : MainState :=
  mkMain SERVO_NEUTRAL_FREQ SERVO_NEUTRAL_DUTY false 0 pwm_started.




Definition single_read (pd : Z) : PhaseReads := mkReads pd pd pd.



Definition platform_no_pmod : Platform :=
  mkPlatform XST_SUCCESS XST_DEVICE_NOT_FOUND XST_SUCCESS XST_SUCCESS
             XST_SUCCESS XST_SUCCESS XST_SUCCESS.

(** * Properties *)

(** ** Machine integers *)

(** Goals about [/], [mod] and [Z.quot] by a constant. *)
Ltac euclid := Z.to_euclidean_division_equations; lia.

Lemma u32_small z : 0 <= z < 2 ^ 32 -> u32 z = z.
Proof. intros H. unfold u32. apply Z.mod_small. exact H. Qed.

Lemma s32_small z : - 2 ^ 31 <= z < 2 ^ 31 -> s32 z = z.
Proof. intros H. unfold s32. rewrite Z.mod_small; lia. Qed.

Lemma testbit_u32 z n : 0 <= n < 32 -> Z.testbit (u32 z) n = Z.testbit z n.
Proof. intros H. unfold u32. apply Z.mod_pow2_bits_low. lia. Qed.

(** ** The phase estimator *)

Lemma phase_diff_FIT_tick s : phase_diff (FIT_tick s) = phase_diff s.
Proof. unfold FIT_tick. destruct (_ >? _); reflexivity. Qed.

(** What one firing does to [phase_diff], as a decision table. *)
Lemma FIT_Handler_cases s a b :
  is_u32 a -> is_u32 b ->
  phase_diff (FIT_Handler s a b) =
    if (b <? a) && (a - b <=? 25000) then a - b
    else if (a <? b) && (b - a <=? 25000) then - (b - a)
    else phase_diff s.
Proof.
  unfold is_u32. intros Ha Hb. unfold FIT_Handler.
  destruct (Z.gtb_spec a b) as [Hab | Hab].
  - rewrite (u32_small (a - b)) by lia.
    replace (b <? a) with true by (symmetry; apply Z.ltb_lt; lia).
    destruct (Z.gtb_spec (a - b) 25000) as [Hw | Hw]; cbn [andb].
    + replace (a - b <=? 25000) with false by (symmetry; apply Z.leb_gt; lia).
      replace (a <? b) with false by (symmetry; apply Z.ltb_ge; lia).
      cbn [andb]. apply phase_diff_FIT_tick.
    + replace (a - b <=? 25000) with true by (symmetry; apply Z.leb_le; lia).
      cbn [set_phase_diff phase_diff].
      rewrite (s32_small (a - b)) by lia. rewrite Z.mul_1_r. apply s32_small. lia.
  - replace (b <? a) with false by (symmetry; apply Z.ltb_ge; lia).
    cbn [andb].
    destruct (Z.gtb_spec b a) as [Hba | Hba].
    + rewrite (u32_small (b - a)) by lia.
      replace (a <? b) with true by (symmetry; apply Z.ltb_lt; lia).
      destruct (Z.gtb_spec (b - a) 25000) as [Hw | Hw]; cbn [andb].
      * replace (b - a <=? 25000) with false by (symmetry; apply Z.leb_gt; lia).
        apply phase_diff_FIT_tick.
      * replace (b - a <=? 25000) with true by (symmetry; apply Z.leb_le; lia).
        cbn [set_phase_diff phase_diff].
        rewrite (s32_small (b - a)) by lia.
        replace ((b - a) * -1) with (- (b - a)) by lia. apply s32_small. lia.
    + replace (a <? b) with false by (symmetry; apply Z.ltb_ge; lia).
      cbn [andb]. apply phase_diff_FIT_tick.
Qed.

(** C1: for every prior state and every pair of 32-bit counter readings, one
    run of [FIT_Handler] sets [phase_diff] to [+(a - b)] when [a > b] and
    [a - b <= 25000], to [-(b - a)] when [b > a] and [b - a <= 25000], and
    leaves it as it was when the readings are more than 25000 apart or equal;
    (10000, 9000) gives 1000, (5000, 9000) gives -4000 and (40000, 1000)
    leaves it unchanged. *)
Theorem FIT_Handler_phase_estimate (s : FitState) (count_a count_b : Z) :
  is_u32 count_a -> is_u32 count_b ->
  (count_a > count_b -> count_a - count_b <= 25000 ->
     phase_diff (FIT_Handler s count_a count_b) = count_a - count_b) /\
  (count_b > count_a -> count_b - count_a <= 25000 ->
     phase_diff (FIT_Handler s count_a count_b) = - (count_b - count_a)) /\
  (Z.abs (count_a - count_b) > 25000 \/ count_a = count_b ->
     phase_diff (FIT_Handler s count_a count_b) = phase_diff s) /\
  phase_diff (FIT_Handler s 10000 9000) = 1000 /\
  phase_diff (FIT_Handler s 5000 9000) = - 4000 /\
  phase_diff (FIT_Handler s 40000 1000) = phase_diff s.
Proof.
  intros Ha Hb. rewrite (FIT_Handler_cases s count_a count_b Ha Hb).
  split; [| split; [| split; [| split; [| split]]]].
  - intros H1 H2.
    replace (count_b <? count_a) with true by (symmetry; apply Z.ltb_lt; lia).
    replace (count_a - count_b <=? 25000) with true by (symmetry; apply Z.leb_le; lia).
    reflexivity.
  - intros H1 H2.
    replace (count_b <? count_a) with false by (symmetry; apply Z.ltb_ge; lia).
    replace (count_a <? count_b) with true by (symmetry; apply Z.ltb_lt; lia).
    replace (count_b - count_a <=? 25000) with true by (symmetry; apply Z.leb_le; lia).
    reflexivity.
  - intros H.
    destruct (Z.ltb_spec count_b count_a); destruct (Z.leb_spec (count_a - count_b) 25000);
      destruct (Z.ltb_spec count_a count_b); destruct (Z.leb_spec (count_b - count_a) 25000);
      cbn [andb]; try reflexivity; lia.
  - rewrite FIT_Handler_cases by (unfold is_u32; lia). reflexivity.
  - rewrite FIT_Handler_cases by (unfold is_u32; lia). reflexivity.
  - rewrite FIT_Handler_cases by (unfold is_u32; lia). reflexivity.
Qed.

Lemma FIT_Handler_phase_estimate_witness :
  is_u32 5000 /\ is_u32 9000 /\
  phase_diff (FIT_Handler (mkFit 1 17 40 1000 1) 5000 9000) = - (9000 - 5000).
Proof.
  assert (Ha : is_u32 5000) by (unfold is_u32; lia).
  assert (Hb : is_u32 9000) by (unfold is_u32; lia).
  split; [exact Ha |]. split; [exact Hb |].
  apply (FIT_Handler_phase_estimate (mkFit 1 17 40 1000 1) 5000 9000 Ha Hb); lia.
Defined.

Lemma FIT_run_snoc s l r :
  FIT_run s (l ++ [r]) = FIT_Handler (FIT_run s l) (fst r) (snd r).
Proof. unfold FIT_run. rewrite fold_left_app. reflexivity. Qed.

(** One firing keeps the estimate or writes one within the window. *)
Lemma FIT_Handler_step s a b :
  is_u32 a -> is_u32 b ->
  phase_diff (FIT_Handler s a b) = phase_diff s \/
  Z.abs (phase_diff (FIT_Handler s a b)) <= 25000.
Proof.
  intros Ha Hb. rewrite FIT_Handler_cases by assumption.
  destruct (Z.ltb_spec b a); destruct (Z.leb_spec (a - b) 25000);
    destruct (Z.ltb_spec a b); destruct (Z.leb_spec (b - a) 25000);
    cbn [andb]; auto; right; lia.
Qed.

Lemma FIT_run_bounded s l :
  Z.abs (phase_diff s) <= 25000 -> u32_readings l ->
  Z.abs (phase_diff (FIT_run s l)) <= 25000.
Proof.
  intros Hs Hl. revert s Hs. induction Hl as [| r l [Ha Hb] _ IH]; intros s Hs.
  - exact Hs.
  - cbn [FIT_run fold_left]. apply IH.
    destruct (FIT_Handler_step s (fst r) (snd r) Ha Hb) as [E | E];
      [rewrite E |]; assumption.
Qed.

(** C5: [phase_diff] starts at 0; after any sequence of firings its magnitude
    is at most 25000, and one more firing either leaves it unchanged or
    writes a value of magnitude at most 25000. *)
Theorem phase_diff_invariant (readings : list (Z * Z)) (count_a count_b : Z) :
  u32_readings readings -> is_u32 count_a -> is_u32 count_b ->
  let s := FIT_run fit_reset readings in
  let s' := FIT_Handler s count_a count_b in
  phase_diff fit_reset = 0 /\
  Z.abs (phase_diff s) <= 25000 /\
  (phase_diff s' = phase_diff s \/ Z.abs (phase_diff s') <= 25000) /\
  Z.abs (phase_diff s') <= 25000.
Proof.
  intros Hl Ha Hb s s'.
  assert (Hs : Z.abs (phase_diff s) <= 25000).
  { apply FIT_run_bounded; [cbn; lia | exact Hl]. }
  split; [reflexivity |]. split; [exact Hs |].
  pose proof (FIT_Handler_step s count_a count_b Ha Hb) as St.
  split; [exact St |]. fold s' in St.
  destruct St as [E | E]; [rewrite E |]; assumption.
Qed.

Lemma phase_diff_invariant_witness :
  Z.abs (phase_diff (FIT_Handler
           (FIT_run fit_reset [(10000, 9000); (4294967295, 0)]) 5000 9000)) <= 25000.
Proof.
  assert (Hl : u32_readings [(10000, 9000); (4294967295, 0)]).
  { repeat constructor; cbn; lia. }
  assert (Ha : is_u32 5000) by (unfold is_u32; lia).
  assert (Hb : is_u32 9000) by (unfold is_u32; lia).
  apply (phase_diff_invariant [(10000, 9000); (4294967295, 0)] 5000 9000 Hl Ha Hb).
Defined.

(** ** The millisecond timestamp *)

Lemma FIT_Handler_divider s a b :
  ts_interval (FIT_Handler s a b) = ts_interval (FIT_tick s) /\
  timestamp (FIT_Handler s a b) = timestamp (FIT_tick s).
Proof.
  unfold FIT_Handler.
  destruct (a >? b); [destruct (_ >? 25000) |
    destruct (b >? a); [destruct (_ >? 25000) |]]; split; reflexivity.
Qed.

(** After [n >= 1] firings from reset the divider stands at
    [(n - 1) mod 40 + 1] and the timestamp at [(n - 1) / 40]. *)
Lemma FIT_divider_after (l : list (Z * Z)) :
  l <> [] ->
  let n := Z.of_nat (length l) in
  ts_interval (FIT_run fit_reset l) = (n - 1) mod 40 + 1 /\
  timestamp (FIT_run fit_reset l) = u32 ((n - 1) / 40).
Proof.
  induction l as [| r l IH] using rev_ind; [congruence |]. intros _.
  rewrite FIT_run_snoc, length_app. cbn [length].
  destruct (FIT_Handler_divider (FIT_run fit_reset l) (fst r) (snd r)) as [-> ->].
  destruct l as [| r0 l0].
  - split; reflexivity.
  - destruct IH as [Hi Ht]; [discriminate |].
    set (m := Z.of_nat (length (r0 :: l0))) in *.
    assert (Hm : 1 <= m) by (subst m; cbn [length]; lia).
    replace (Z.of_nat (length (r0 :: l0) + 1)) with (m + 1) by (subst m; lia).
    cbv zeta. replace (m + 1 - 1) with m by lia.
    unfold FIT_tick. rewrite Hi, Ht.
    assert (Hr : 0 <= (m - 1) mod 40 < 40) by (apply Z.mod_pos_bound; lia).
    rewrite s32_small by lia. unfold FIT_COUNT_1MSEC.
    destruct (Z.gtb_spec ((m - 1) mod 40 + 1 + 1) 40) as [Hg | Hg];
      cbn [ts_interval timestamp].
    + split.
      * euclid.
      * unfold u32. rewrite Z.add_mod_idemp_l by lia. f_equal.
        euclid.
    + split.
      * euclid.
      * f_equal. euclid.
Qed.

(** C9: the divider starts at 0 but restarts at 1, so the first increment of
    the timestamp comes with firing 41 and the later ones every 40 firings:
    after [40 * k] firings from reset, [k >= 1], the timestamp has advanced
    by [k - 1], not by [k]. *)
Theorem FIT_timestamp_after_40k (k : Z) (readings : list (Z * Z)) :
  1 <= k -> Z.of_nat (length readings) = 40 * k ->
  timestamp (FIT_run fit_reset readings) = u32 (k - 1).
Proof.
  intros Hk Hn.
  assert (Hne : readings <> []) by (intros ->; cbn [length Z.of_nat] in Hn; lia).
  destruct (FIT_divider_after readings Hne) as [_ Ht]. rewrite Ht, Hn. f_equal.
  euclid.
Qed.

Lemma FIT_timestamp_after_40k_witness :
  timestamp (FIT_run fit_reset (repeat (0, 0) 40)) = 0.
Proof.
  apply (FIT_timestamp_after_40k 1 (repeat (0, 0) 40)); [lia | reflexivity].
Defined.

(** The timestamp has advanced by [k] one firing later, after [40 * k + 1]
    firings. *)
Lemma FIT_timestamp_one_firing_later (k : Z) (readings : list (Z * Z)) :
  0 <= k -> Z.of_nat (length readings) = 40 * k + 1 ->
  timestamp (FIT_run fit_reset readings) = u32 k.
Proof.
  intros Hk Hn.
  assert (Hne : readings <> []) by (intros ->; cbn [length Z.of_nat] in Hn; lia).
  destruct (FIT_divider_after readings Hne) as [_ Ht]. rewrite Ht, Hn. f_equal.
  euclid.
Qed.

Lemma FIT_timestamp_first_millisecond :
  timestamp (FIT_run fit_reset (repeat (0, 0) 40)) = 0 /\
  timestamp (FIT_run fit_reset (repeat (0, 0) 41)) = 1 /\
  timestamp (FIT_run fit_reset (repeat (0, 0) 80)) = 1 /\
  timestamp (FIT_run fit_reset (repeat (0, 0) 81)) = 2.
Proof. repeat split; vm_compute; reflexivity. Qed.

(** ** The steering policy *)

Lemma steer_duty_exact pd :
  Z.abs pd <= 25000 -> steer_duty pd = Z.quot (pd * 4) 25000 + SERVO_NEUTRAL_DUTY.
Proof.
  intros H. unfold steer_duty, SERVO_NEUTRAL_DUTY.
  rewrite (s32_small (pd * 4)) by lia.
  apply s32_small. euclid.
Qed.

(** C4: for every phase estimate the handler can publish (magnitude at most
    25000) the duty is [phase_diff * 4 / 25000 + 7] with the quotient
    truncated toward zero: 2500 gives 7, 25000 gives 11 and -25000 gives 3.
    The value lies between 3 and 11 and equals the policy with the clamp to
    the valid range 0..100; that holds in particular for the estimate after
    any sequence of firings of the handler. *)
Theorem steer_duty_policy (pd : Z) :
  Z.abs pd <= 25000 ->
  steer_duty pd = Z.quot (pd * 4) 25000 + SERVO_NEUTRAL_DUTY /\
  3 <= steer_duty pd <= 11 /\
  steer_duty pd = spec_steer_duty pd /\
  steer_duty 2500 = 7 /\ steer_duty 25000 = 11 /\ steer_duty (-25000) = 3 /\
  (forall readings : list (Z * Z),
     u32_readings readings ->
     let estimate := phase_diff (FIT_run fit_reset readings) in
     steer_duty estimate = spec_steer_duty estimate /\
     0 <= steer_duty estimate <= 100).
Proof.
  intros H.
  assert (G : forall p, Z.abs p <= 25000 ->
                steer_duty p = spec_steer_duty p /\ 3 <= steer_duty p <= 11).
  { intros p Hp. rewrite (steer_duty_exact p Hp).
    unfold spec_steer_duty, clamp, SERVO_NEUTRAL_DUTY. split; euclid. }
  destruct (G pd H) as [G1 G2].
  split; [exact (steer_duty_exact pd H) |].
  split; [exact G2 |].
  split; [exact G1 |].
  split; [reflexivity |]. split; [reflexivity |]. split; [reflexivity |].
  intros readings Hr estimate.
  assert (He : Z.abs estimate <= 25000).
  { apply FIT_run_bounded; [cbn; lia | exact Hr]. }
  destruct (G estimate He) as [E1 E2]. split; [exact E1 | lia].
Qed.

Lemma steer_duty_policy_witness :
  Z.abs 2500 <= 25000 /\ 3 <= steer_duty 2500 <= 11.
Proof.
  assert (H : Z.abs 2500 <= 25000) by (cbn; lia).
  split; [exact H |]. apply (steer_duty_policy 2500 H).
Defined.

(** The source itself applies no clamp ([MIN] and [MAX] are never used): the
    bound comes from the estimator.  On a value the estimator cannot
    publish, such as 1000000, the expression leaves the range. *)
Lemma steer_duty_unclamped_outside_window :
  steer_duty 1000000 = 167 /\ spec_steer_duty 1000000 = 100.
Proof. split; reflexivity. Qed.

(** The main loop stores exactly that value in [pwm_duty] when the phase
    difference it tests has changed: the duty comes from the second read of
    [phase_diff] and [old_phase_diff] from the third. *)
Lemma main_loop_body_duty fu m r :
  pd_test r <> old_phase_diff m ->
  pwm_duty (main_loop_body fu m r) = steer_duty (pd_duty r) /\
  old_phase_diff (main_loop_body fu m r) = pd_old r.
Proof.
  intros H. unfold main_loop_body.
  replace (pd_test r =? old_phase_diff m) with false by (symmetry; apply Z.eqb_neq; exact H).
  cbn [negb]. destruct (PWM_SetParams _ _ _ _) as [st d].
  destruct (PWM_Start d) as [st' d']. split; reflexivity.
Qed.

Lemma main_loop_body_same fu m r :
  pd_test r = old_phase_diff m ->
  pwm_duty (main_loop_body fu m r) = pwm_duty m /\
  old_phase_diff (main_loop_body fu m r) = old_phase_diff m.
Proof.
  intros H. unfold main_loop_body.
  replace (pd_test r =? old_phase_diff m) with true by (symmetry; apply Z.eqb_eq; exact H).
  split; reflexivity.
Qed.

(** ** Rounding in the two floating formats

    [binary_round_aux] shifts the mantissa down to [prec] digits and then
    rounds, so what it returns is the mantissa's floor or the floor plus one:
    the result is within one unit in the last place of the exact value.  That
    is all the bounds below need. *)

(** *** Digits and right shifts *)

Lemma digits2_pos_spec m :
  2 ^ (Zpos (digits2_pos m) - 1) <= Zpos m < 2 ^ Zpos (digits2_pos m).
Proof.
  induction m as [m IH | m IH |]; cbn [digits2_pos]; [| | cbn; lia];
    rewrite Pos2Z.inj_succ;
    replace (Z.succ (Z.pos (digits2_pos m)) - 1) with (Z.succ (Z.pos (digits2_pos m) - 1)) by lia;
    rewrite !Z.pow_succ_r by lia; lia.
Qed.

Lemma shr_1_m r : 0 <= shr_m r -> shr_m (shr_1 r) = shr_m r / 2.
Proof.
  destruct r as [m r s]; cbn [shr_m]; intros H.
  rewrite <- Z.div2_div.
  destruct m as [| [p | p |] | p]; try reflexivity; lia.
Qed.

Lemma iter_pos_shr_m p : forall r, 0 <= shr_m r ->
  shr_m (SpecFloat.iter_pos shr_1 p r) = shr_m r / 2 ^ Zpos p.
Proof.
  induction p as [p IH | p IH |]; intros r H; cbn [SpecFloat.iter_pos].
  - assert (H1 : 0 <= shr_m (shr_1 r)) by (rewrite shr_1_m by assumption; apply Z.div_pos; lia).
    assert (H2 : 0 <= shr_m (SpecFloat.iter_pos shr_1 p (shr_1 r)))
      by (rewrite IH by assumption; apply Z.div_pos; [assumption | apply Z.pow_pos_nonneg; lia]).
    rewrite IH, IH, shr_1_m by assumption.
    assert (0 < 2 ^ Zpos p) by (apply Z.pow_pos_nonneg; lia).
    rewrite !Z.div_div by lia.
    f_equal. change (Z.pos p~1) with (2 * Z.pos p + 1).
    replace (2 * Z.pos p + 1) with (1 + Z.pos p + Z.pos p) by lia.
    rewrite !Z.pow_add_r by lia. change (2 ^ 1) with 2. lia.
  - assert (H2 : 0 <= shr_m (SpecFloat.iter_pos shr_1 p r))
      by (rewrite IH by assumption; apply Z.div_pos; [assumption | apply Z.pow_pos_nonneg; lia]).
    rewrite IH, IH by assumption.
    assert (0 < 2 ^ Zpos p) by (apply Z.pow_pos_nonneg; lia).
    rewrite !Z.div_div by lia.
    f_equal. change (Z.pos p~0) with (2 * Z.pos p).
    replace (2 * Z.pos p) with (Z.pos p + Z.pos p) by lia.
    rewrite Z.pow_add_r by lia. reflexivity.
  - rewrite shr_1_m by assumption. reflexivity.
Qed.

Lemma shr_spec r e n : 0 <= shr_m r -> 0 <= n ->
  shr_m (fst (shr r e n)) = shr_m r / 2 ^ n /\ snd (shr r e n) = e + n.
Proof.
  intros H Hn. destruct n as [| p | p]; cbn [shr fst snd]; [| | lia].
  - rewrite Z.div_1_r. lia.
  - rewrite iter_pos_shr_m by assumption. lia.
Qed.

Lemma shr_m_of_loc m l : shr_m (shr_record_of_loc m l) = m.
Proof. destruct l as [| []]; reflexivity. Qed.

Lemma round_nearest_even_cases m l :
  round_nearest_even m l = m \/ round_nearest_even m l = m + 1.
Proof.
  destruct l as [| []]; cbn; auto. destruct (Z.even m); auto.
Qed.

Lemma round_nearest_even_exact m r :
  shr_r r = false -> shr_s r = false ->
  round_nearest_even m (loc_of_shr_record r) = m.
Proof. destruct r as [m' [] []]; cbn; congruence. Qed.

Lemma Zdigits2_spec m : 0 < m -> 2 ^ (Zdigits2 m - 1) <= m < 2 ^ Zdigits2 m.
Proof. destruct m; try lia. intros _. apply digits2_pos_spec. Qed.

Lemma Zdigits2_unique m d : 2 ^ (d - 1) <= m < 2 ^ d -> 0 < m -> Zdigits2 m = d.
Proof.
  intros H Hm. pose proof (Zdigits2_spec m Hm) as H'.
  assert (Hd : 0 < Zdigits2 m) by (destruct m; cbn; lia).
  assert (0 < d).
  { destruct (Z_lt_le_dec 0 d); [assumption |].
    assert (2 ^ d <= 1); [| lia].
    destruct (Z.eq_dec d 0) as [-> |]; [cbn; lia |].
    rewrite Z.pow_neg_r by lia. lia. }
  destruct (Z_lt_le_dec (Zdigits2 m) d).
  - assert (2 ^ Zdigits2 m <= 2 ^ (d - 1)) by (apply Z.pow_le_mono_r; lia). lia.
  - destruct (Z_lt_le_dec d (Zdigits2 m)); [| lia].
    assert (2 ^ d <= 2 ^ (Zdigits2 m - 1)) by (apply Z.pow_le_mono_r; lia). lia.
Qed.

(** A mantissa of at least [prec] digits, in the normal range: the result
    is finite and normal, and its mantissa, scaled back, is the input
    mantissa with its low [n] bits cleared, or that plus [2^n]. *)
Section RoundAux.
Variables prec emax : Z.
Hypothesis Hprec : 0 < prec.

Lemma binary_round_aux_finite sx mx ex lx :
  0 < mx -> prec <= Zdigits2 mx ->
  emin prec emax <= Zdigits2 mx + ex - prec ->
  Zdigits2 mx + ex + 1 <= emax ->
  exists m e,
    binary_round_aux prec emax sx mx ex lx = S754_finite sx m e /\
    2 ^ (prec - 1) <= Zpos m < 2 ^ prec /\
    ex + (Zdigits2 mx - prec) <= e /\
    (Zpos m * 2 ^ (e - ex) = mx / 2 ^ (Zdigits2 mx - prec) * 2 ^ (Zdigits2 mx - prec) \/
     Zpos m * 2 ^ (e - ex) = mx / 2 ^ (Zdigits2 mx - prec) * 2 ^ (Zdigits2 mx - prec)
                             + 2 ^ (Zdigits2 mx - prec)).
Proof.
  intros Hmx Hd Hmin Hmax.
  pose proof (Zdigits2_spec mx Hmx) as Hdig.
  set (d := Zdigits2 mx) in *. set (n := d - prec).
  assert (Hn : 0 <= n) by (unfold n; lia).
  assert (Hpn : 0 < 2 ^ n) by (apply Z.pow_pos_nonneg; lia).
  assert (Hdn : 2 ^ (d - 1) = 2 ^ (prec - 1) * 2 ^ n)
    by (rewrite <- Z.pow_add_r by lia; f_equal; unfold n; lia).
  assert (Hdn' : 2 ^ d = 2 ^ prec * 2 ^ n)
    by (rewrite <- Z.pow_add_r by lia; f_equal; unfold n; lia).
  assert (Hpp : 2 ^ prec = 2 * 2 ^ (prec - 1))
    by (rewrite <- Z.pow_succ_r by lia; f_equal; lia).
  assert (Hp1 : 0 < 2 ^ (prec - 1)) by (apply Z.pow_pos_nonneg; lia).
  set (m' := mx / 2 ^ n).
  assert (Hm' : 2 ^ (prec - 1) <= m' < 2 ^ prec).
  { unfold m'. split.
    - apply Z.div_le_lower_bound; lia.
    - apply Z.div_lt_upper_bound; lia. }
  unfold binary_round_aux, shr_fexp. fold d.
  replace (fexp prec emax (d + ex) - ex) with n
    by (unfold fexp, n; rewrite Z.max_l by lia; lia).
  pose proof (shr_spec (shr_record_of_loc mx lx) ex n) as H1.
  rewrite shr_m_of_loc in H1. specialize (H1 (Z.lt_le_incl _ _ Hmx) Hn).
  destruct (shr (shr_record_of_loc mx lx) ex n) as [mrs' e'].
  cbn [fst snd] in H1. destruct H1 as [H1 ->]. fold m' in H1. rewrite H1.
  set (m1 := round_nearest_even m' (loc_of_shr_record mrs')).
  assert (Hm1 : m1 = m' \/ m1 = m' + 1) by apply round_nearest_even_cases.
  assert (Hm1p : 0 < m1) by lia.
  destruct (Z_lt_le_dec m1 (2 ^ prec)) as [Hlt | Hge].
  - assert (Hd1 : Zdigits2 m1 = prec) by (apply Zdigits2_unique; lia).
    rewrite Hd1.
    replace (fexp prec emax (prec + (ex + n)) - (ex + n)) with 0
      by (unfold fexp, n; rewrite Z.max_l by lia; lia).
    cbn [shr shr_record_of_loc shr_m].
    destruct m1 as [| m |] eqn:Em1; try lia.
    replace (ex + n <=? emax - prec) with true
      by (symmetry; apply Z.leb_le; unfold n; lia).
    exists m, (ex + n). split; [reflexivity |]. split; [lia |]. split; [lia |].
    replace (ex + n - ex) with n by lia.
    destruct Hm1 as [-> | ->]; [left | right]; lia.
  - assert (Em1 : m1 = 2 ^ prec) by lia.
    assert (Hd1 : Zdigits2 m1 = prec + 1).
    { apply Zdigits2_unique; [| lia]. rewrite Em1.
      replace (prec + 1 - 1) with prec by lia.
      rewrite Z.pow_add_r by lia. change (2 ^ 1) with 2. lia. }
    rewrite Hd1.
    replace (fexp prec emax (prec + 1 + (ex + n)) - (ex + n)) with 1
      by (unfold fexp, n; rewrite Z.max_l by lia; lia).
    pose proof (shr_spec (shr_record_of_loc m1 loc_Exact) (ex + n) 1) as H2.
    rewrite shr_m_of_loc in H2. specialize (H2 (Z.lt_le_incl _ _ Hm1p) ltac:(lia)).
    destruct (shr (shr_record_of_loc m1 loc_Exact) (ex + n) 1) as [mrs'' e''].
    cbn [fst snd] in H2. destruct H2 as [H2 ->]. rewrite H2, Em1, Hpp.
    change (2 ^ 1) with 2. rewrite Z.mul_comm, Z.div_mul by lia.
    destruct (2 ^ (prec - 1)) as [| m |] eqn:Em; try lia.
    replace (ex + n + 1 <=? emax - prec) with true
      by (symmetry; apply Z.leb_le; unfold n; lia).
    exists m, (ex + n + 1). split; [reflexivity |]. split; [lia |]. split; [lia |].
    replace (ex + n + 1 - ex) with (n + 1) by lia.
    rewrite Z.pow_add_r by lia. change (2 ^ 1) with 2.
    right. lia.
Qed.
End RoundAux.

Local Open Scope R_scope.

(** *** Powers of two *)

Lemma bpow_pos e : 0 < bpow e.
Proof. apply powerRZ_lt; lra. Qed.

Lemma bpow_add a b : bpow (a + b) = bpow a * bpow b.
Proof. apply powerRZ_add; lra. Qed.

Lemma bpow_IZR n : (0 <= n)%Z -> bpow n = IZR (2 ^ n).
Proof.
  intros H. unfold bpow. rewrite <- (Z2Nat.id n H) at 2.
  rewrite <- pow_IZR. rewrite <- (Z2Nat.id n H) at 1.
  symmetry. apply pow_powerRZ.
Qed.

Lemma bpow_ge_1 n : (0 <= n)%Z -> 1 <= bpow n.
Proof.
  intros H. rewrite bpow_IZR by assumption. apply IZR_le.
  assert (0 < 2 ^ n)%Z by (apply Z.pow_pos_nonneg; lia). lia.
Qed.

Lemma bpow_le a b : (a <= b)%Z -> bpow a <= bpow b.
Proof.
  intros H. replace b with (a + (b - a))%Z by lia. rewrite bpow_add.
  pose proof (bpow_pos a). pose proof (bpow_ge_1 (b - a) ltac:(lia)). nra.
Qed.

Lemma bpow_lt a b : (a < b)%Z -> bpow a < bpow b.
Proof.
  intros H. replace b with (a + (b - a))%Z by lia. rewrite bpow_add.
  pose proof (bpow_pos a).
  assert (2 <= bpow (b - a)).
  { rewrite bpow_IZR by lia. apply IZR_le.
    replace (b - a)%Z with (Z.succ (b - a - 1)) by lia.
    rewrite Z.pow_succ_r by lia.
    assert (0 < 2 ^ (b - a - 1))%Z by (apply Z.pow_pos_nonneg; lia). lia. }
  nra.
Qed.

Lemma bpow_lt_inv a b : bpow a < bpow b -> (a < b)%Z.
Proof.
  intros H. destruct (Z_lt_le_dec a b); [assumption |].
  pose proof (bpow_le b a ltac:(lia)). lra.
Qed.

Lemma bpow_opp e : bpow (- e) * bpow e = 1.
Proof. rewrite <- bpow_add. replace (- e + e)%Z with 0%Z by lia. reflexivity. Qed.

Section RoundR.
Variables prec emax : Z.
Hypothesis Hprec : (0 < prec)%Z.

(** Faithful rounding of a positive real in the normal range. *)
Lemma binary_round_aux_faithful mx ex lx (x : R) :
  (0 < mx)%Z -> (prec <= Zdigits2 mx)%Z ->
  IZR mx * bpow ex <= x < (IZR mx + 1) * bpow ex ->
  bpow (3 - emax) <= x < bpow (emax - 1) ->
  pnorm prec (binary_round_aux prec emax false mx ex lx) /\
  Rabs (B2R (binary_round_aux prec emax false mx ex lx) - x) <= bpow (1 - prec) * x.
Proof.
  intros Hmx Hd Hx Hrange.
  pose proof (Zdigits2_spec mx Hmx) as Hdig.
  set (d := Zdigits2 mx) in *.
  pose proof (bpow_pos ex) as Hpex.
  assert (Hlo : bpow (d - 1 + ex) <= x).
  { rewrite bpow_add, bpow_IZR by lia.
    apply Rle_trans with (2 := proj1 Hx).
    apply Rmult_le_compat_r; [lra | apply IZR_le; lia]. }
  assert (Hhi : x < bpow (d + ex)).
  { rewrite bpow_add, bpow_IZR by lia.
    apply Rlt_le_trans with (1 := proj2 Hx).
    apply Rmult_le_compat_r; [lra |]. rewrite <- plus_IZR. apply IZR_le; lia. }
  assert (H1 : (d - 1 + ex < emax - 1)%Z) by (apply bpow_lt_inv; lra).
  assert (H2 : (3 - emax < d + ex)%Z) by (apply bpow_lt_inv; lra).
  destruct (binary_round_aux_finite prec emax Hprec false mx ex lx Hmx Hd)
    as (m & e & -> & Hm & He & Hval); fold d; [unfold emin; lia | lia |].
  fold d in He, Hval. split; [exact Hm |].
  set (n := (d - prec)%Z) in *.
  assert (Hn : (0 <= n)%Z) by (unfold n; lia).
  assert (Hpn : (0 < 2 ^ n)%Z) by (apply Z.pow_pos_nonneg; lia).
  set (lo := (mx / 2 ^ n * 2 ^ n)%Z) in *.
  assert (Hlo1 : (lo <= mx < lo + 2 ^ n)%Z).
  { unfold lo. pose proof (Z.mul_div_le mx (2 ^ n) Hpn).
    pose proof (Z.mul_succ_div_gt mx (2 ^ n) Hpn). lia. }
  assert (Hlo2 : (2 ^ (prec - 1) * 2 ^ n <= lo)%Z).
  { unfold lo. apply Z.mul_le_mono_nonneg_r; [lia |].
    apply Z.div_le_lower_bound; [lia |].
    rewrite Z.mul_comm, <- Z.pow_add_r by lia.
    replace (prec - 1 + n)%Z with (d - 1)%Z by (unfold n; lia). lia. }
  cbn [B2R]. rewrite Rmult_1_l.
  replace (bpow e) with (bpow (e - ex) * bpow ex)
    by (rewrite <- bpow_add; f_equal; lia).
  rewrite bpow_IZR by lia. rewrite <- Rmult_assoc, <- mult_IZR.
  set (W := IZR (2 ^ n)). set (A := IZR lo). set (P := bpow ex) in *.
  assert (HW : 0 < W) by (apply IZR_lt; lia).
  assert (HxA : A * P <= x < A * P + W * P).
  { split.
    - apply Rle_trans with (2 := proj1 Hx).
      apply Rmult_le_compat_r; [lra | apply IZR_le; lia].
    - apply Rlt_le_trans with (1 := proj2 Hx).
      replace (A * P + W * P) with ((A + W) * P) by ring.
      apply Rmult_le_compat_r; [lra |].
      unfold A, W. rewrite <- plus_IZR, <- plus_IZR. apply IZR_le; lia. }
  assert (HWP : W * P <= bpow (1 - prec) * x).
  { assert (K : bpow (1 - prec) * IZR (2 ^ (prec - 1)) = 1).
    { rewrite <- bpow_IZR by lia. rewrite <- bpow_add.
      replace (1 - prec + (prec - 1))%Z with 0%Z by lia. reflexivity. }
    assert (HA : IZR (2 ^ (prec - 1)) * W <= A).
    { unfold W, A. rewrite <- mult_IZR. apply IZR_le; lia. }
    pose proof (bpow_pos (1 - prec)) as Hb.
    assert (0 < W * P) by (apply Rmult_lt_0_compat; lra).
    assert (IZR (2 ^ (prec - 1)) * W * P <= A * P)
      by (apply Rmult_le_compat_r; lra).
    replace (W * P) with (bpow (1 - prec) * (IZR (2 ^ (prec - 1)) * W * P))
      by (rewrite <- !Rmult_assoc, K; ring).
    apply Rmult_le_compat_l; lra. }
  apply Rle_trans with (2 := HWP).
  assert (0 < W * P) by (apply Rmult_lt_0_compat; lra).
  destruct Hval as [-> | ->]; fold lo; fold A.
  - apply Rabs_le. lra.
  - rewrite plus_IZR. fold A W. apply Rabs_le.
    replace ((A + W) * P) with (A * P + W * P) by ring. lra.
Qed.
End RoundR.

Local Close Scope R_scope.

(** *** Alignment, and values that need no rounding *)

Lemma pos_iter_xO m k : Zpos (Pos.iter xO m k) = Zpos m * 2 ^ Zpos k.
Proof.
  induction k as [| k IH] using Pos.peano_ind.
  - cbn. lia.
  - rewrite Pos.iter_succ, Pos2Z.inj_xO, IH, Pos2Z.inj_succ, Z.pow_succ_r by lia. lia.
Qed.

Lemma shl_align_spec m e e' : e' <= e ->
  Zpos (fst (shl_align m e e')) = Zpos m * 2 ^ (e - e') /\
  snd (shl_align m e e') = e'.
Proof.
  intros H. unfold shl_align.
  destruct (e' - e) as [| d | d] eqn:E; cbn [fst snd]; try lia.
  - replace (e - e') with 0 by lia. cbn. lia.
  - rewrite pos_iter_xO. replace (e - e') with (Zpos d) by lia. lia.
Qed.

Lemma Zdigits2_ge prec m : 0 < prec -> 2 ^ (prec - 1) <= m -> prec <= Zdigits2 m.
Proof.
  intros Hp H.
  assert (Hm : 0 < m) by (assert (0 < 2 ^ (prec - 1)) by (apply Z.pow_pos_nonneg; lia); lia).
  pose proof (Zdigits2_spec m Hm) as Hd.
  destruct (Z_lt_le_dec (Zdigits2 m) prec); [| assumption].
  assert (2 ^ Zdigits2 m <= 2 ^ (prec - 1)); [| lia].
  apply Z.pow_le_mono_r; lia.
Qed.

Section RoundExact.
Variables prec emax : Z.
Hypothesis Hprec : 0 < prec.

Lemma binary_round_aux_exact sx mx ex :
  2 ^ (prec - 1) <= Zpos mx < 2 ^ prec ->
  emin prec emax <= ex -> ex <= emax - prec ->
  binary_round_aux prec emax sx (Zpos mx) ex loc_Exact = S754_finite sx mx ex.
Proof.
  intros Hm Hmin Hmax.
  assert (Hd : Zdigits2 (Zpos mx) = prec) by (apply Zdigits2_unique; lia).
  unfold binary_round_aux, shr_fexp. rewrite Hd.
  replace (fexp prec emax (prec + ex) - ex) with 0
    by (unfold fexp; rewrite Z.max_l by lia; lia).
  cbn [shr shr_record_of_loc shr_m loc_of_shr_record round_nearest_even].
  rewrite Hd.
  replace (fexp prec emax (prec + ex) - ex) with 0
    by (unfold fexp; rewrite Z.max_l by lia; lia).
  cbn [shr shr_record_of_loc shr_m].
  replace (ex <=? emax - prec) with true by (symmetry; apply Z.leb_le; lia).
  reflexivity.
Qed.
End RoundExact.

Local Open Scope R_scope.

Section RoundR2.
Variables prec emax : Z.
Hypothesis Hprec : (0 < prec)%Z.

Lemma binary_round_faithful m e :
  bpow (3 - emax) <= IZR (Zpos m) * bpow e < bpow (emax - 1) ->
  pnorm prec (binary_round prec emax false m e) /\
  Rabs (B2R (binary_round prec emax false m e) - IZR (Zpos m) * bpow e)
    <= bpow (1 - prec) * (IZR (Zpos m) * bpow e).
Proof.
  intros Hrange.
  pose proof (digits2_pos_spec m) as Hdig.
  set (d := Zpos (digits2_pos m)) in *.
  pose proof (bpow_pos e) as Hpe.
  assert (Hhi : IZR (Zpos m) * bpow e < bpow (d + e)).
  { rewrite bpow_add, (bpow_IZR d) by lia.
    apply Rmult_lt_compat_r; [lra | apply IZR_lt; lia]. }
  assert (H2 : (3 - emax < d + e)%Z) by (apply bpow_lt_inv; lra).
  unfold binary_round. fold d.
  replace (fexp prec emax (d + e)) with (d + e - prec)%Z
    by (unfold fexp, emin; rewrite Z.max_l by lia; lia).
  destruct (Z_lt_le_dec d prec) as [Hlt | Hge].
  - pose proof (shl_align_spec m e (d + e - prec) ltac:(lia)) as [H3 H4].
    destruct (shl_align m e (d + e - prec)) as [mz ez]. cbn [fst snd] in H3, H4.
    subst ez. replace (e - (d + e - prec))%Z with (prec - d)%Z in H3 by lia.
    assert (Hpd : (2 ^ (prec - 1) = 2 ^ (d - 1) * 2 ^ (prec - d))%Z)
      by (rewrite <- Z.pow_add_r by lia; f_equal; lia).
    assert (Hpd' : (2 ^ prec = 2 ^ d * 2 ^ (prec - d))%Z)
      by (rewrite <- Z.pow_add_r by lia; f_equal; lia).
    assert (Hk : (0 < 2 ^ (prec - d))%Z) by (apply Z.pow_pos_nonneg; lia).
    assert (Hmz : (2 ^ (prec - 1) <= Zpos mz < 2 ^ prec)%Z) by nia.
    assert (Hv : IZR (Zpos mz) * bpow (d + e - prec) = IZR (Zpos m) * bpow e).
    { rewrite H3, mult_IZR, <- bpow_IZR by lia. rewrite Rmult_assoc, <- bpow_add.
      do 2 f_equal. lia. }
    rewrite <- Hv in *.
    apply (binary_round_aux_faithful prec emax Hprec); try lia.
    + apply Zdigits2_ge; lia.
    + split; [lra |]. apply Rmult_lt_compat_r; [apply bpow_pos | lra].
    + exact Hrange.
  - cbn [shl_align]. unfold shl_align.
    destruct (d + e - prec - e)%Z as [| k | k] eqn:E; try lia;
      (apply (binary_round_aux_faithful prec emax Hprec); try lia;
       [cbn [Zdigits2]; fold d; lia
       | split; [lra | apply Rmult_lt_compat_r; [apply bpow_pos | lra]]
       | exact Hrange]).
Qed.

Lemma binary_round_exact m e :
  (Zpos m < 2 ^ prec)%Z ->
  bpow (3 - emax) <= IZR (Zpos m) * bpow e < bpow (emax - 1) ->
  pnorm prec (binary_round prec emax false m e) /\
  B2R (binary_round prec emax false m e) = IZR (Zpos m) * bpow e.
Proof.
  intros Hm Hrange.
  pose proof (digits2_pos_spec m) as Hdig.
  set (d := Zpos (digits2_pos m)) in *.
  pose proof (bpow_pos e) as Hpe.
  assert (Hd : (d <= prec)%Z).
  { destruct (Z_lt_le_dec prec d); [| assumption].
    assert (2 ^ prec <= 2 ^ (d - 1))%Z by (apply Z.pow_le_mono_r; lia). lia. }
  assert (Hhi : IZR (Zpos m) * bpow e < bpow (d + e)).
  { rewrite bpow_add, (bpow_IZR d) by lia.
    apply Rmult_lt_compat_r; [lra | apply IZR_lt; lia]. }
  assert (Hlo : bpow (d - 1 + e) <= IZR (Zpos m) * bpow e).
  { rewrite bpow_add, (bpow_IZR (d - 1)) by lia.
    apply Rmult_le_compat_r; [lra | apply IZR_le; lia]. }
  assert (H2 : (3 - emax < d + e)%Z) by (apply bpow_lt_inv; lra).
  assert (H1 : (d - 1 + e < emax - 1)%Z) by (apply bpow_lt_inv; lra).
  unfold binary_round. fold d.
  replace (fexp prec emax (d + e)) with (d + e - prec)%Z
    by (unfold fexp, emin; rewrite Z.max_l by lia; lia).
  pose proof (shl_align_spec m e (d + e - prec) ltac:(lia)) as [H3 H4].
  destruct (shl_align m e (d + e - prec)) as [mz ez]. cbn [fst snd] in H3, H4.
  subst ez. replace (e - (d + e - prec))%Z with (prec - d)%Z in H3 by lia.
  assert (Hpd : (2 ^ (prec - 1) = 2 ^ (d - 1) * 2 ^ (prec - d))%Z)
    by (rewrite <- Z.pow_add_r by lia; f_equal; lia).
  assert (Hpd' : (2 ^ prec = 2 ^ d * 2 ^ (prec - d))%Z)
    by (rewrite <- Z.pow_add_r by lia; f_equal; lia).
  assert (Hk : (0 < 2 ^ (prec - d))%Z) by (apply Z.pow_pos_nonneg; lia).
  assert (Hmz : (2 ^ (prec - 1) <= Zpos mz < 2 ^ prec)%Z) by nia.
  rewrite (binary_round_aux_exact prec emax) by (unfold emin; lia).
  split; [exact Hmz |].
  cbn [B2R]. rewrite Rmult_1_l, H3, mult_IZR, <- bpow_IZR by lia.
  rewrite Rmult_assoc, <- bpow_add. do 2 f_equal. lia.
Qed.
End RoundR2.

(** *** Multiplication, division, sum, difference and comparison *)

Lemma bpow_1 : bpow 1 = 2.
Proof. unfold bpow. simpl. lra. Qed.

Section Ops.
Variables prec emax : Z.
Hypothesis Hprec : (0 < prec)%Z.

Lemma pnorm_inv x : pnorm prec x ->
  exists m e, x = S754_finite false m e /\ (2 ^ (prec - 1) <= Zpos m < 2 ^ prec)%Z.
Proof. destruct x as [| | | [] m e]; cbn; try contradiction. eauto. Qed.

Lemma pnorm_pos x : pnorm prec x -> 0 < B2R x.
Proof.
  intros (m & e & -> & Hm)%pnorm_inv. cbn [B2R]. rewrite Rmult_1_l.
  apply Rmult_lt_0_compat; [apply IZR_lt; lia | apply bpow_pos].
Qed.

Lemma SFmul_faithful x y :
  pnorm prec x -> pnorm prec y ->
  bpow (3 - emax) <= B2R x * B2R y < bpow (emax - 1) ->
  pnorm prec (SFmul prec emax x y) /\
  Rabs (B2R (SFmul prec emax x y) - B2R x * B2R y) <= bpow (1 - prec) * (B2R x * B2R y).
Proof.
  intros (mx & ex & -> & Hmx)%pnorm_inv (my & ey & -> & Hmy)%pnorm_inv Hrange.
  cbn [SFmul xorb].
  assert (Hv : B2R (S754_finite false mx ex) * B2R (S754_finite false my ey)
               = IZR (Zpos (mx * my)) * bpow (ex + ey)).
  { cbn [B2R]. rewrite Pos2Z.inj_mul, mult_IZR, bpow_add. ring. }
  rewrite Hv in *.
  assert (H0 : (0 < 2 ^ (prec - 1))%Z) by (apply Z.pow_pos_nonneg; lia).
  apply (binary_round_aux_faithful prec emax Hprec); try lia.
  - apply Zdigits2_ge; [lia |]. rewrite Pos2Z.inj_mul. nia.
  - pose proof (bpow_pos (ex + ey)). lra.
  - exact Hrange.
Qed.

Lemma SFdiv_faithful x y :
  pnorm prec x -> pnorm prec y ->
  bpow (3 - emax) <= B2R x / B2R y < bpow (emax - 1) ->
  pnorm prec (SFdiv prec emax x y) /\
  Rabs (B2R (SFdiv prec emax x y) - B2R x / B2R y) <= bpow (1 - prec) * (B2R x / B2R y).
Proof.
  intros (mx & ex & -> & Hmx)%pnorm_inv (my & ey & -> & Hmy)%pnorm_inv Hrange.
  cbn [SFdiv xorb]. unfold SFdiv_core_binary.
  assert (Hdx : Zdigits2 (Zpos mx) = prec) by (apply Zdigits2_unique; lia).
  assert (Hdy : Zdigits2 (Zpos my) = prec) by (apply Zdigits2_unique; lia).
  rewrite Hdx, Hdy.
  assert (H0 : (0 < 2 ^ (prec - 1))%Z) by (apply Z.pow_pos_nonneg; lia).
  assert (Hpp : (2 ^ prec = 2 * 2 ^ (prec - 1))%Z)
    by (rewrite <- Z.pow_succ_r by lia; f_equal; lia).
  pose proof (bpow_pos ex) as Hpx. pose proof (bpow_pos ey) as Hpy.
  pose proof (bpow_pos (ex - ey)) as Hpxy.
  assert (HX : 0 < IZR (Zpos mx)) by (apply IZR_lt; lia).
  assert (HY : 0 < IZR (Zpos my)) by (apply IZR_lt; lia).
  assert (Hv : B2R (S754_finite false mx ex) / B2R (S754_finite false my ey)
               = IZR (Zpos mx) / IZR (Zpos my) * bpow (ex - ey)).
  { cbn [B2R]. replace ex with ((ex - ey) + ey)%Z at 1 by lia. rewrite bpow_add.
    field. split; lra. }
  rewrite Hv in *.
  assert (Hq2 : IZR (Zpos mx) / IZR (Zpos my) < 2).
  { apply Rmult_lt_reg_r with (IZR (Zpos my)); [lra |].
    unfold Rdiv. rewrite Rmult_assoc, Rinv_l, Rmult_1_r by lra.
    rewrite <- mult_IZR. apply IZR_lt. lia. }
  assert (He : (3 - emax < ex - ey + 1)%Z).
  { apply bpow_lt_inv. apply Rle_lt_trans with (1 := proj1 Hrange).
    rewrite Z.add_comm, bpow_add, bpow_1.
    apply Rmult_lt_compat_r; lra. }
  replace (Z.min (fexp prec emax (prec + ex - (prec + ey))) (ex - ey))
    with (ex - ey - prec)%Z
    by (unfold fexp, emin; rewrite Z.max_l by lia; lia).
  replace (ex - ey - (ex - ey - prec))%Z with prec by lia.
  assert (Hs : match prec with
               | Zpos _ => Z.shiftl (Zpos mx) prec
               | Z0 => Zpos mx
               | Zneg _ => 0%Z
               end = (Zpos mx * 2 ^ prec)%Z).
  { destruct prec; try lia. apply Z.shiftl_mul_pow2. lia. }
  rewrite Hs.
  set (m' := (Zpos mx * 2 ^ prec)%Z).
  destruct (Z.div_eucl m' (Zpos my)) as [q r] eqn:E.
  assert (Hq : q = (m' / Zpos my)%Z) by (unfold Z.div; rewrite E; reflexivity).
  assert (Hqlo : (2 ^ (prec - 1) <= q)%Z).
  { rewrite Hq. apply Z.div_le_lower_bound; [lia |]. unfold m'. nia. }
  assert (Hqm : (q * Zpos my <= m' < (q + 1) * Zpos my)%Z).
  { rewrite Hq. pose proof (Z.mul_div_le m' (Zpos my) ltac:(lia)).
    pose proof (Z.mul_succ_div_gt m' (Zpos my) ltac:(lia)). lia. }
  assert (Hm'R : IZR (Zpos mx) / IZR (Zpos my) * bpow (ex - ey)
                 = IZR m' / IZR (Zpos my) * bpow (ex - ey - prec)).
  { unfold m'. rewrite mult_IZR, <- bpow_IZR by lia.
    replace (ex - ey)%Z with (prec + (ex - ey - prec))%Z at 1 by lia.
    rewrite bpow_add. field. lra. }
  rewrite Hm'R in *.
  pose proof (bpow_pos (ex - ey - prec)) as Hpe.
  apply (binary_round_aux_faithful prec emax Hprec); try lia.
  - apply Zdigits2_ge; lia.
  - split.
    + apply Rmult_le_compat_r; [lra |].
      apply Rmult_le_reg_r with (IZR (Zpos my)); [lra |].
      unfold Rdiv. rewrite Rmult_assoc, Rinv_l, Rmult_1_r by lra.
      rewrite <- mult_IZR. apply IZR_le. lia.
    + apply Rmult_lt_compat_r; [lra |].
      apply Rmult_lt_reg_r with (IZR (Zpos my)); [lra |].
      unfold Rdiv. rewrite Rmult_assoc, Rinv_l, Rmult_1_r by lra.
      rewrite <- plus_IZR, <- mult_IZR. apply IZR_lt. lia.
  - exact Hrange.
Qed.

Lemma B2R_aligned m e ez : (ez <= e)%Z ->
  IZR (Zpos (fst (shl_align m e ez))) * bpow ez = IZR (Zpos m) * bpow e.
Proof.
  intros H. destruct (shl_align_spec m e ez H) as [-> _].
  rewrite mult_IZR, <- bpow_IZR by lia. rewrite Rmult_assoc, <- bpow_add.
  do 2 f_equal. lia.
Qed.

Lemma SFsub_faithful mx ex my ey :
  let x := S754_finite false mx ex in
  let y := S754_finite false my ey in
  bpow (3 - emax) <= B2R x - B2R y < bpow (emax - 1) ->
  pnorm prec (SFsub prec emax x y) /\
  Rabs (B2R (SFsub prec emax x y) - (B2R x - B2R y)) <= bpow (1 - prec) * (B2R x - B2R y).
Proof.
  intros x y Hrange. unfold x, y in *. cbn [SFsub cond_Zopp].
  set (ez := Z.min ex ey).
  pose proof (B2R_aligned mx ex ez ltac:(unfold ez; lia)) as Ha.
  pose proof (B2R_aligned my ey ez ltac:(unfold ez; lia)) as Hb.
  set (a := fst (shl_align mx ex ez)) in *. set (b := fst (shl_align my ey ez)) in *.
  pose proof (bpow_pos ez) as Hpz. pose proof (bpow_pos (3 - emax)) as Hp3.
  assert (Hv : B2R (S754_finite false mx ex) - B2R (S754_finite false my ey)
               = IZR (Zpos a - Zpos b) * bpow ez).
  { cbn [B2R]. rewrite minus_IZR. lra. }
  rewrite Hv in *.
  assert (Hpos : (0 < Zpos a - Zpos b)%Z).
  { apply lt_IZR. apply Rmult_lt_reg_r with (bpow ez); lra. }
  destruct (Zpos a - Zpos b)%Z as [| p | p] eqn:E; try lia.
  cbn [binary_normalize].
  apply (binary_round_faithful prec emax Hprec). exact Hrange.
Qed.

Lemma SFadd_faithful mx ex my ey :
  let x := S754_finite false mx ex in
  let y := S754_finite false my ey in
  bpow (3 - emax) <= B2R x + B2R y < bpow (emax - 1) ->
  pnorm prec (SFadd prec emax x y) /\
  Rabs (B2R (SFadd prec emax x y) - (B2R x + B2R y)) <= bpow (1 - prec) * (B2R x + B2R y).
Proof.
  intros x y Hrange. unfold x, y in *. cbn [SFadd cond_Zopp].
  set (ez := Z.min ex ey).
  pose proof (B2R_aligned mx ex ez ltac:(unfold ez; lia)) as Ha.
  pose proof (B2R_aligned my ey ez ltac:(unfold ez; lia)) as Hb.
  set (a := fst (shl_align mx ex ez)) in *. set (b := fst (shl_align my ey ez)) in *.
  assert (Hv : B2R (S754_finite false mx ex) + B2R (S754_finite false my ey)
               = IZR (Zpos (a + b)) * bpow ez).
  { cbn [B2R]. rewrite Pos2Z.inj_add, plus_IZR. lra. }
  rewrite Hv in *.
  change (Zpos a + Zpos b)%Z with (Zpos (a + b)).
  cbn [binary_normalize].
  apply (binary_round_faithful prec emax Hprec). exact Hrange.
Qed.

Lemma binary_round_aux_sign sx m e l :
  match binary_round_aux prec emax sx m e l with
  | S754_zero s | S754_infinity s | S754_finite s _ _ => s = sx
  | S754_nan => True
  end.
Proof.
  unfold binary_round_aux.
  destruct (shr_fexp prec emax m e l) as [mrs' e'].
  destruct (shr_fexp prec emax _ e' loc_Exact) as [mrs'' e''].
  destruct (shr_m mrs''); [reflexivity | | exact I].
  destruct (e'' <=? emax - prec)%Z; reflexivity.
Qed.

Lemma SFltb_pnorm x y :
  pnorm prec x -> pnorm prec y -> SFltb x y = true -> B2R x < B2R y.
Proof.
  intros (mx & ex & -> & Hmx)%pnorm_inv (my & ey & -> & Hmy)%pnorm_inv.
  unfold SFltb. cbn [SFcompare B2R]. rewrite !Rmult_1_l.
  pose proof (bpow_pos ex) as Hpx.
  destruct (Z.compare_spec ex ey) as [-> | Hlt | Hgt]; try discriminate.
  - change (Pos.compare_cont Eq mx my) with (Pos.compare mx my).
    destruct (Pos.compare_spec mx my) as [| H |]; try discriminate. intros _.
    apply Rmult_lt_compat_r; [apply bpow_pos | apply IZR_lt; lia].
  - intros _.
    assert (Hpp : (2 ^ prec = 2 * 2 ^ (prec - 1))%Z)
      by (rewrite <- Z.pow_succ_r by lia; f_equal; lia).
    replace ey with ((ey - ex) + ex)%Z by lia. rewrite bpow_add.
    assert (2 <= bpow (ey - ex)).
    { rewrite <- bpow_1. apply bpow_le. lia. }
    assert (IZR (Zpos mx) < 2 * IZR (Zpos my)).
    { rewrite <- mult_IZR. apply IZR_lt. lia. }
    assert (0 < IZR (Zpos my)) by (apply IZR_lt; lia).
    assert (IZR (Zpos mx) * bpow ex < 2 * IZR (Zpos my) * bpow ex)
      by (apply Rmult_lt_compat_r; lra).
    assert (2 * (IZR (Zpos my) * bpow ex) <= bpow (ey - ex) * (IZR (Zpos my) * bpow ex)).
    { apply Rmult_le_compat_r; [| lra]. apply Rlt_le, Rmult_lt_0_compat; lra. }
    lra.
Qed.
End Ops.

(** *** Accumulating relative errors

    Products and quotients multiply the factors of their operands; one
    rounding multiplies by [rho]. *)

Lemma within_pos r X x : within r X x -> 0 < x.
Proof. intros (Hr & HX & H1 & H2). nra. Qed.

Lemma within_refl X : 0 < X -> within 1 X X.
Proof. intros H. unfold within. lra. Qed.

Lemma within_weaken r r' X x : within r X x -> r <= r' -> within r' X x.
Proof.
  intros H Hr. pose proof (within_pos _ _ _ H) as Hx.
  destruct H as (H1 & HX & H2 & H3). unfold within. nra.
Qed.

Lemma within_mul r1 r2 X Y x y :
  within r1 X x -> within r2 Y y -> within (r1 * r2) (X * Y) (x * y).
Proof.
  intros H1 H2. pose proof (within_pos _ _ _ H1) as Hx. pose proof (within_pos _ _ _ H2) as Hy.
  destruct H1 as (Hr1 & HX & Ha & Hb), H2 as (Hr2 & HY & Hc & Hd).
  unfold within. split; [nra |]. split; [nra |]. split.
  - apply Rle_trans with (r1 * x * (r2 * y)); [| lra].
    apply Rmult_le_compat; lra.
  - apply Rle_trans with (r1 * X * (r2 * Y)); [| lra].
    apply Rmult_le_compat; lra.
Qed.

Lemma within_inv r X x : within r X x -> within r (/ X) (/ x).
Proof.
  intros H. pose proof (within_pos _ _ _ H) as Hx.
  destruct H as (Hr & HX & Ha & Hb). unfold within.
  assert (0 < / X) by (apply Rinv_0_lt_compat; lra).
  assert (0 < / x) by (apply Rinv_0_lt_compat; lra).
  repeat split; try lra.
  - apply Rmult_le_reg_r with (X * x); [nra |].
    replace (/ X * (X * x)) with x by (field; lra).
    replace (r * / x * (X * x)) with (r * X) by (field; lra). lra.
  - apply Rmult_le_reg_r with (X * x); [nra |].
    replace (/ x * (X * x)) with X by (field; lra).
    replace (r * / X * (X * x)) with (r * x) by (field; lra). lra.
Qed.

Lemma within_div r1 r2 X Y x y :
  within r1 X x -> within r2 Y y -> within (r1 * r2) (X / Y) (x / y).
Proof. intros H1 H2. apply within_mul; [assumption | apply within_inv; assumption]. Qed.

Lemma Rabs_le_between a b : Rabs a <= b -> - b <= a <= b.
Proof. unfold Rabs. destruct (Rcase_abs a); lra. Qed.

Lemma within_round r e X x y :
  within r X x -> 0 <= e <= / 2 -> Rabs (y - x) <= e * x ->
  within (r * (1 + 2 * e)) X y.
Proof.
  intros H He Hy. pose proof (within_pos _ _ _ H) as Hx.
  destruct H as (Hr & HX & Ha & Hb). apply Rabs_le_between in Hy.
  assert (H1 : x <= (1 + 2 * e) * y) by nra.
  assert (H2 : y <= (1 + 2 * e) * x) by nra.
  unfold within. split; [nra |]. split; [lra |]. split.
  - apply Rle_trans with (r * x); [lra |].
    rewrite Rmult_assoc. apply Rmult_le_compat_l; lra.
  - apply Rle_trans with ((1 + 2 * e) * (r * X)); [| lra].
    apply Rle_trans with ((1 + 2 * e) * x); [lra |].
    apply Rmult_le_compat_l; lra.
Qed.

Lemma within_add_const r X x c :
  within r X x -> 0 <= c -> within r (X + c) (x + c).
Proof. intros (Hr & HX & Ha & Hb) Hc. unfold within. nra. Qed.

Lemma bpow_half e : (e <= -1)%Z -> 0 <= bpow e <= / 2.
Proof.
  intros H. split; [apply Rlt_le, bpow_pos |].
  apply Rle_trans with (bpow (-1)); [apply bpow_le; lia |].
  unfold bpow. simpl. lra.
Qed.

Lemma inrange_bounds r X x :
  within r X x -> r <= 2 -> inrange X -> bpow (-101) <= x < bpow 102.
Proof.
  intros H Hr [Hlo Hhi]. pose proof (within_pos _ _ _ H) as Hx.
  destruct H as (Hr1 & HX & Ha & Hb).
  replace (-101)%Z with (-1 + -100)%Z by lia. rewrite bpow_add.
  replace 102%Z with (2 + 100)%Z by lia. rewrite (bpow_add 2).
  replace (bpow (-1)) with (/ 2) by (unfold bpow; simpl; lra).
  replace (bpow 2) with 4 by (unfold bpow; simpl; lra).
  pose proof (bpow_pos (-100)). pose proof (bpow_pos 100).
  split; nra.
Qed.

Section Good.
Variables prec emax : Z.
Hypothesis Hprec : (2 <= prec)%Z.
Hypothesis Hemax : (105 <= emax)%Z.

Lemma normal_range x : bpow (-101) <= x < bpow 102 ->
  bpow (3 - emax) <= x < bpow (emax - 1).
Proof.
  intros [H1 H2]. split.
  - apply Rle_trans with (2 := H1). apply bpow_le. lia.
  - apply Rlt_le_trans with (1 := H2). apply bpow_le. lia.
Qed.

Lemma good_mul r1 r2 X Y x y :
  goodf prec r1 X x -> goodf prec r2 Y y -> r1 * r2 <= 2 -> inrange (X * Y) ->
  goodf prec (r1 * r2 * rho prec) (X * Y) (SFmul prec emax x y).
Proof.
  intros [Hx Wx] [Hy Wy] Hr HR.
  pose proof (within_mul _ _ _ _ _ _ Wx Wy) as W.
  destruct (SFmul_faithful prec emax ltac:(lia) x y Hx Hy) as [Hp He].
  { apply normal_range. eapply inrange_bounds; eassumption. }
  split; [exact Hp |].
  apply within_round with (x := B2R x * B2R y); [assumption | apply bpow_half; lia | assumption].
Qed.

Lemma good_div r1 r2 X Y x y :
  goodf prec r1 X x -> goodf prec r2 Y y -> r1 * r2 <= 2 -> inrange (X / Y) ->
  goodf prec (r1 * r2 * rho prec) (X / Y) (SFdiv prec emax x y).
Proof.
  intros [Hx Wx] [Hy Wy] Hr HR.
  pose proof (within_div _ _ _ _ _ _ Wx Wy) as W.
  destruct (SFdiv_faithful prec emax ltac:(lia) x y Hx Hy) as [Hp He].
  { apply normal_range. eapply inrange_bounds; eassumption. }
  split; [exact Hp |].
  apply within_round with (x := B2R x / B2R y); [assumption | apply bpow_half; lia | assumption].
Qed.

Lemma good_add_const r X x c :
  goodf prec r X x -> pnorm prec c -> r <= 2 -> inrange (X + B2R c) ->
  goodf prec (r * rho prec) (X + B2R c) (SFadd prec emax x c).
Proof.
  intros [Hx Wx] Hc Hr HR.
  pose proof (pnorm_pos prec c Hc) as Hcpos.
  pose proof (within_add_const _ _ _ (B2R c) Wx ltac:(lra)) as W.
  destruct (pnorm_inv prec x Hx) as (mx & ex & -> & Hmx).
  destruct (pnorm_inv prec c Hc) as (mc & ec & -> & Hmc).
  destruct (SFadd_faithful prec emax ltac:(lia) mx ex mc ec) as [Hp He].
  { apply normal_range. eapply inrange_bounds; eassumption. }
  split; [exact Hp |].
  eapply within_round; [exact W | apply bpow_half; lia | exact He].
Qed.

(** Subtraction of a constant, the difference staying positive. *)
Lemma good_sub_const r X x c :
  goodf prec r X x -> pnorm prec c -> r <= 2 ->
  bpow (-101) <= B2R x - B2R c < bpow 102 ->
  pnorm prec (SFsub prec emax x c) /\
  within (rho prec) (B2R x - B2R c) (B2R (SFsub prec emax x c)).
Proof.
  intros [Hx Wx] Hc Hr HR.
  destruct (pnorm_inv prec x Hx) as (mx & ex & -> & Hmx).
  destruct (pnorm_inv prec c Hc) as (mc & ec & -> & Hmc).
  destruct (SFsub_faithful prec emax ltac:(lia) mx ex mc ec) as [Hp He].
  { apply normal_range. assumption. }
  split; [exact Hp |].
  replace (rho prec) with (1 * rho prec) by ring.
  eapply within_round; [| apply bpow_half; lia | exact He].
  apply within_refl. pose proof (bpow_pos (-101)). lra.
Qed.

(** Conversion from another format: [reround]. *)
Lemma good_convert p r X x :
  goodf p r X x -> r <= 2 -> inrange X ->
  goodf prec (r * rho prec) X (reround prec emax x).
Proof.
  intros [Hx Wx] Hr HR.
  destruct x as [| | | [] m e]; cbn in Hx; try contradiction.
  cbn [reround].
  destruct (binary_round_faithful prec emax ltac:(lia) m e) as [Hp He].
  { apply normal_range. cbn [B2R] in Wx. rewrite Rmult_1_l in Wx.
    eapply inrange_bounds; eassumption. }
  split; [exact Hp |].
  eapply within_round; [exact Wx | apply bpow_half; lia |].
  cbn [B2R]. rewrite Rmult_1_l. exact He.
Qed.

(** Conversion from a format with no more digits is exact. *)
Lemma good_widen p r X x :
  (0 < p <= prec)%Z -> goodf p r X x -> r <= 2 -> inrange X ->
  goodf prec r X (reround prec emax x).
Proof.
  intros Hpp [Hx Wx] Hr HR.
  destruct x as [| | | [] m e]; cbn in Hx; try contradiction.
  cbn [reround].
  destruct (binary_round_exact prec emax ltac:(lia) m e) as [Hp He].
  { assert (2 ^ p <= 2 ^ prec)%Z by (apply Z.pow_le_mono_r; lia). lia. }
  { apply normal_range. cbn [B2R] in Wx. rewrite Rmult_1_l in Wx.
    eapply inrange_bounds; eassumption. }
  split; [exact Hp |].
  rewrite He. cbn [B2R] in Wx. rewrite Rmult_1_l in Wx. exact Wx.
Qed.

Lemma good_of_Z z :
  (0 < z)%Z -> inrange (IZR z) ->
  goodf prec (rho prec) (IZR z) (binary_normalize prec emax z 0 false).
Proof.
  intros Hz HR. destruct z as [| m |]; try lia. cbn [binary_normalize].
  assert (W : within 1 (IZR (Zpos m)) (IZR (Zpos m) * bpow 0)).
  { replace (bpow 0) with 1 by reflexivity. rewrite Rmult_1_r.
    apply within_refl. apply IZR_lt. lia. }
  destruct (binary_round_faithful prec emax ltac:(lia) m 0) as [Hp He].
  { apply normal_range. eapply inrange_bounds; [exact W | lra | exact HR]. }
  split; [exact Hp |].
  replace (rho prec) with (1 * rho prec) by ring.
  eapply within_round; [exact W | apply bpow_half; lia | exact He].
Qed.

Lemma good_of_Z_exact z :
  (0 < z < 2 ^ prec)%Z -> inrange (IZR z) ->
  pnorm prec (binary_normalize prec emax z 0 false) /\
  B2R (binary_normalize prec emax z 0 false) = IZR z.
Proof.
  intros Hz HR. destruct z as [| m |]; try lia. cbn [binary_normalize].
  assert (W : within 1 (IZR (Zpos m)) (IZR (Zpos m) * bpow 0)).
  { replace (bpow 0) with 1 by reflexivity. rewrite Rmult_1_r.
    apply within_refl. apply IZR_lt. lia. }
  destruct (binary_round_exact prec emax ltac:(lia) m 0) as [Hp He]; [lia | |].
  { apply normal_range. eapply inrange_bounds; [exact W | lra | exact HR]. }
  split; [exact Hp |]. rewrite He.
  replace (bpow 0) with 1 by reflexivity. ring.
Qed.
End Good.

(** *** Magnitudes *)

Lemma mag_pos k X : mag k X -> 0 < X.
Proof. intros [H _]. pose proof (bpow_pos (- k)). lra. Qed.

Lemma mag_inv k X : mag k X -> mag k (/ X).
Proof.
  intros H. pose proof (mag_pos _ _ H) as HX. destruct H as [H1 H2].
  pose proof (bpow_pos k) as Hk. pose proof (bpow_pos (- k)) as Hk'.
  pose proof (bpow_opp k) as Ho.
  assert (Hi : / bpow k = bpow (- k)) by (apply Rmult_eq_reg_r with (bpow k); [rewrite Rinv_l; lra | lra]).
  assert (Hi' : / bpow (- k) = bpow k) by (rewrite <- Hi, Rinv_inv; reflexivity).
  split.
  - rewrite <- Hi. apply Rinv_le_contravar; lra.
  - rewrite <- Hi'. apply Rinv_le_contravar; lra.
Qed.

Lemma mag_mul a b X Y : mag a X -> mag b Y -> mag (a + b) (X * Y).
Proof.
  intros HX HY. pose proof (mag_pos _ _ HX). pose proof (mag_pos _ _ HY).
  destruct HX as [H1 H2], HY as [H3 H4]. unfold mag.
  replace (- (a + b))%Z with (- a + - b)%Z by lia. rewrite !bpow_add.
  pose proof (bpow_pos (- a)). pose proof (bpow_pos (- b)).
  split; apply Rmult_le_compat; lra.
Qed.

Lemma mag_div a b X Y : mag a X -> mag b Y -> mag (a + b) (X / Y).
Proof. intros HX HY. apply mag_mul; [assumption | apply mag_inv; assumption]. Qed.

Lemma mag_weaken a b X : mag a X -> (a <= b)%Z -> mag b X.
Proof.
  intros [H1 H2] H. split.
  - apply Rle_trans with (2 := H1). apply bpow_le. lia.
  - apply Rle_trans with (1 := H2). apply bpow_le. lia.
Qed.

Lemma mag_inrange k X : mag k X -> (k <= 100)%Z -> inrange X.
Proof. intros H Hk. exact (mag_weaken _ _ _ H Hk). Qed.

Lemma mag_IZR k z : (1 <= z <= 2 ^ k)%Z -> (0 <= k)%Z -> mag k (IZR z).
Proof.
  intros H Hk. split.
  - apply Rle_trans with (bpow 0); [apply bpow_le; lia |].
    change (bpow 0) with 1. apply IZR_le. lia.
  - rewrite bpow_IZR by lia. apply IZR_le. lia.
Qed.

(** Truncation and rounding to an integer. *)
Lemma bpow_neg_pos p : bpow (Zneg p) * IZR (2 ^ Zpos p) = 1.
Proof. rewrite <- bpow_IZR by lia. exact (bpow_opp (Zpos p)). Qed.

Lemma Ztrunc_float_pos m e :
  exists z, Ztrunc_float (S754_finite false m e) = Some z /\ (0 <= z)%Z /\
            IZR z <= IZR (Zpos m) * bpow e < IZR z + 1.
Proof.
  cbn [Ztrunc_float]. destruct e as [| p | p].
  - exists (Zpos m). split; [reflexivity |]. split; [lia |].
    change (bpow 0) with 1. lra.
  - exists (Zpos m * 2 ^ Zpos p)%Z. split; [rewrite Z.shiftl_mul_pow2 by lia; reflexivity |].
    split; [lia |]. rewrite mult_IZR, <- bpow_IZR by lia. lra.
  - exists (Zpos m / 2 ^ Zpos p)%Z.
    split; [rewrite Z.shiftr_div_pow2 by lia; reflexivity |].
    assert (Hp : (0 < 2 ^ Zpos p)%Z) by (apply Z.pow_pos_nonneg; lia).
    split; [apply Z.div_pos; lia |].
    pose proof (Z.mul_div_le (Zpos m) _ Hp) as H1.
    pose proof (Z.mul_succ_div_gt (Zpos m) _ Hp) as H2.
    set (q := (Zpos m / 2 ^ Zpos p)%Z) in *.
    pose proof (bpow_neg_pos p) as Hb. pose proof (bpow_pos (Zneg p)) as Hb'.
    set (P := IZR (2 ^ Zpos p)) in *. set (B := bpow (Zneg p)) in *.
    assert (HP : 0 < P) by (apply IZR_lt; lia).
    apply IZR_le in H1. apply IZR_lt in H2.
    rewrite mult_IZR in H1. unfold Z.succ in H2. rewrite mult_IZR, plus_IZR in H2.
    fold P in H1, H2.
    assert (E1 : IZR q = P * IZR q * B) by (replace (P * IZR q * B) with (IZR q * (B * P)) by ring; rewrite Hb; ring).
    assert (E2 : IZR q + 1 = P * (IZR q + 1) * B) by (replace (P * (IZR q + 1) * B) with ((IZR q + 1) * (B * P)) by ring; rewrite Hb; ring).
    split.
    + rewrite E1. apply Rmult_le_compat_r; lra.
    + rewrite E2. apply Rmult_lt_compat_r; lra.
Qed.

Lemma Zround_away_pos m e :
  exists z, Zround_away (S754_finite false m e) = Some z /\ (0 <= z)%Z /\
            IZR z - / 2 <= IZR (Zpos m) * bpow e < IZR z + / 2.
Proof.
  cbn [Zround_away]. destruct e as [| p | p].
  - exists (Zpos m). split; [reflexivity |]. split; [lia |].
    change (bpow 0) with 1. lra.
  - exists (Zpos m * 2 ^ Zpos p)%Z. split; [rewrite Z.shiftl_mul_pow2 by lia; reflexivity |].
    split; [lia |]. rewrite mult_IZR, <- bpow_IZR by lia. lra.
  - rewrite Z.shiftl_mul_pow2, Z.mul_1_l by lia.
    set (h := (2 ^ (Zpos p - 1))%Z).
    assert (Hh : (0 < h)%Z) by (apply Z.pow_pos_nonneg; lia).
    assert (Hp2 : (2 ^ Zpos p = 2 * h)%Z).
    { unfold h. rewrite <- Z.pow_succ_r by lia. f_equal. lia. }
    exists ((Zpos m + h) / 2 ^ Zpos p)%Z.
    split; [rewrite Z.shiftr_div_pow2 by lia; reflexivity |].
    assert (Hp : (0 < 2 ^ Zpos p)%Z) by lia.
    split; [apply Z.div_pos; lia |].
    pose proof (Z.mul_div_le (Zpos m + h) _ Hp) as H1.
    pose proof (Z.mul_succ_div_gt (Zpos m + h) _ Hp) as H2.
    set (q := ((Zpos m + h) / 2 ^ Zpos p)%Z) in *.
    pose proof (bpow_neg_pos p) as Hb. pose proof (bpow_pos (Zneg p)) as Hb'.
    rewrite Hp2 in *.
    apply IZR_le in H1. apply IZR_lt in H2.
    unfold Z.succ in H2. rewrite !mult_IZR, !plus_IZR in *.
    set (H := IZR h) in *. set (B := bpow (Zneg p)) in *. set (M := IZR (Zpos m)) in *.
    assert (HH : 0 < H) by (apply IZR_lt; lia).
    assert (E1 : IZR q - / 2 = (2 * H * IZR q - H) * B)
      by (replace ((2 * H * IZR q - H) * B) with ((IZR q - / 2) * (B * (2 * H))) by (field; lra); rewrite Hb; ring).
    assert (E2 : IZR q + / 2 = (2 * H * (IZR q + 1) - H) * B)
      by (replace ((2 * H * (IZR q + 1) - H) * B) with ((IZR q + / 2) * (B * (2 * H))) by (field; lra); rewrite Hb; ring).
    split.
    + rewrite E1. apply Rmult_le_compat_r; lra.
    + rewrite E2. apply Rmult_lt_compat_r; lra.
Qed.

Lemma float_to_u32_pnorm fu prec x :
  pnorm prec x -> B2R x < 4294967296 ->
  (0 <= float_to_u32 fu x < 2 ^ 32)%Z /\
  IZR (float_to_u32 fu x) <= B2R x < IZR (float_to_u32 fu x) + 1.
Proof.
  destruct x as [| | | [] m e]; cbn [pnorm]; try contradiction. intros _ Hx.
  destruct (Ztrunc_float_pos m e) as (z & Hz & Hz0 & Hzv).
  cbn [B2R] in *. rewrite Rmult_1_l in *.
  assert (Hz32 : (z < 2 ^ 32)%Z).
  { apply lt_IZR. change (2 ^ 32)%Z with 4294967296%Z. lra. }
  unfold float_to_u32, float_to_u32_defined. rewrite Hz.
  replace (in_u32 z) with true
    by (symmetry; unfold in_u32; apply andb_true_intro; split; [apply Z.leb_le | apply Z.ltb_lt]; lia).
  split; [lia | exact Hzv].
Qed.

Lemma lroundf_pnorm lu prec x :
  pnorm prec x -> B2R x < 2147483647 ->
  (0 <= lroundf lu x < 2 ^ 31)%Z /\
  IZR (lroundf lu x) - / 2 <= B2R x < IZR (lroundf lu x) + / 2.
Proof.
  destruct x as [| | | [] m e]; cbn [pnorm]; try contradiction. intros _ Hx.
  destruct (Zround_away_pos m e) as (z & Hz & Hz0 & Hzv).
  cbn [B2R] in *. rewrite Rmult_1_l in *.
  assert (Hz31 : (z < 2 ^ 31)%Z).
  { apply lt_IZR. change (2 ^ 31)%Z with 2147483648%Z. lra. }
  unfold lroundf, lroundf_defined. rewrite Hz.
  replace (in_s32 z) with true
    by (symmetry; unfold in_s32; apply andb_true_intro; split; [apply Z.leb_le | apply Z.ltb_lt]; lia).
  split; [lia | exact Hzv].
Qed.

(** *** Error factors in units of 2.5e-7 *)

Lemma rho24_eq : rho 24 = 1 + / 4194304.
Proof. unfold rho, bpow. simpl. lra. Qed.

Lemma rho53_le : 1 <= rho 53 <= 1 + / 1000000000000000.
Proof. unfold rho, bpow. simpl. lra. Qed.

Lemma tick_ge_1 k : 0 <= k -> 1 <= tick k.
Proof. unfold tick. lra. Qed.

Lemma tick_le_2 k : k <= 100 -> tick k <= 2.
Proof. unfold tick. lra. Qed.

Lemma tick_mono a b : a <= b -> tick a <= tick b.
Proof. unfold tick. lra. Qed.

Lemma tick_mul a b : 0 <= a -> 0 <= b -> a + b <= 100 ->
  tick a * tick b <= tick (a + b + / 100).
Proof.
  intros Ha Hb Hab. unfold tick.
  assert (H1 : (a + b) * (a + b) <= 100 * 100) by (apply Rmult_le_compat; lra).
  pose proof (Rle_0_sqr (a - b)) as H2. unfold Rsqr in H2.
  assert (a * b <= 2500) by lra.
  assert (0 <= a * b) by (apply Rmult_le_pos; lra).
  lra.
Qed.

Lemma tick_round32 k : 0 <= k <= 100 -> tick k * rho 24 <= tick (k + 1).
Proof. intros H. rewrite rho24_eq. unfold tick. nra. Qed.

Lemma tick_round64 k : 0 <= k <= 100 -> tick k * rho 53 <= tick (k + / 100).
Proof. intros H. pose proof rho53_le. unfold tick. nra. Qed.

Lemma within_lin k X x : 0 <= k -> within (tick k) X x ->
  X * (1 - k * / 4000000) <= x <= X * (1 + k * / 4000000).
Proof.
  intros Hk (Hr & HX & H1 & H2). unfold tick in *.
  assert (0 < x) by nra.
  split; nra.
Qed.

Lemma goodf_weaken prec r r' X x : goodf prec r X x -> r <= r' -> goodf prec r' X x.
Proof. intros [H W] Hr. split; [assumption | eapply within_weaken; eassumption]. Qed.

Lemma goodf_exact prec X x : pnorm prec x -> B2R x = X -> goodf prec (tick 0) X x.
Proof.
  intros H E. split; [assumption |]. subst X.
  replace (tick 0) with 1 by (unfold tick; lra).
  apply within_refl. eapply pnorm_pos; eassumption.
Qed.

Lemma goodf_self prec x : pnorm prec x -> goodf prec (tick 0) (B2R x) x.
Proof. intros H. apply goodf_exact; [assumption | reflexivity]. Qed.

(** The operations of the two formats on values known up to a ratio. *)
Lemma F32_of_Z_good z k : (1 <= z <= 2 ^ 32)%Z -> 1 <= k ->
  goodf 24 (tick k) (IZR z) (F32.of_Z z).
Proof.
  intros Hz Hk. eapply goodf_weaken.
  - apply (good_of_Z 24 128); try lia.
    eapply mag_inrange; [apply (mag_IZR 32); lia | lia].
  - rewrite rho24_eq. unfold tick. lra.
Qed.

Lemma F32_of_Z_exact z : (1 <= z < 2 ^ 24)%Z ->
  pnorm 24 (F32.of_Z z) /\ B2R (F32.of_Z z) = IZR z.
Proof.
  intros Hz. apply (good_of_Z_exact 24 128); try lia.
  eapply mag_inrange; [apply (mag_IZR 24); lia | lia].
Qed.

Lemma F64_of_Z_exact z : (1 <= z < 2 ^ 53)%Z ->
  pnorm 53 (F64.of_Z z) /\ B2R (F64.of_Z z) = IZR z.
Proof.
  intros Hz. apply (good_of_Z_exact 53 1024); try lia.
  eapply mag_inrange; [apply (mag_IZR 53); lia | lia].
Qed.

Lemma F64_of_Z_good z : (1 <= z < 2 ^ 53)%Z -> goodf 53 (tick 0) (IZR z) (F64.of_Z z).
Proof. intros Hz. destruct (F64_of_Z_exact z Hz). apply goodf_exact; assumption. Qed.

Lemma F64_of_float_good a X x : goodf 24 (tick a) X x -> 0 <= a <= 100 -> inrange X ->
  goodf 53 (tick a) X (F64.of_float x).
Proof.
  intros H Ha HR. apply (good_widen 53 1024) with (p := 24%Z); try lia; try assumption.
  apply tick_le_2; lra.
Qed.

Lemma F32_of_double_good a k X x : goodf 53 (tick a) X x -> 0 <= a -> a + 1 <= k -> k <= 100 ->
  inrange X -> goodf 24 (tick k) X (F32.of_double x).
Proof.
  intros H Ha Hk Hk' HR. eapply goodf_weaken.
  - apply (good_convert 24 128) with (p := 53%Z); try lia; try eassumption.
    apply tick_le_2; lra.
  - eapply Rle_trans; [apply tick_round32; lra | apply tick_mono; lra].
Qed.

Lemma F32_div_good a b k X Y x y :
  goodf 24 (tick a) X x -> goodf 24 (tick b) Y y -> 0 <= a -> 0 <= b ->
  a + b + 1 + / 50 <= k -> k <= 100 -> inrange (X / Y) ->
  goodf 24 (tick k) (X / Y) (F32.div x y).
Proof.
  intros Hx Hy Ha Hb Hk Hk' HR.
  pose proof (tick_mul a b Ha Hb ltac:(lra)) as Hm.
  eapply goodf_weaken.
  - apply (good_div 24 128); try lia; try eassumption.
    pose proof (tick_le_2 (a + b + / 100) ltac:(lra)). lra.
  - apply Rle_trans with (tick (a + b + / 100) * rho 24).
    + apply Rmult_le_compat_r; [rewrite rho24_eq; lra | assumption].
    + eapply Rle_trans; [apply tick_round32; lra | apply tick_mono; lra].
Qed.

Lemma F32_mul_good a b k X Y x y :
  goodf 24 (tick a) X x -> goodf 24 (tick b) Y y -> 0 <= a -> 0 <= b ->
  a + b + 1 + / 50 <= k -> k <= 100 -> inrange (X * Y) ->
  goodf 24 (tick k) (X * Y) (F32.mul x y).
Proof.
  intros Hx Hy Ha Hb Hk Hk' HR.
  pose proof (tick_mul a b Ha Hb ltac:(lra)) as Hm.
  eapply goodf_weaken.
  - apply (good_mul 24 128); try lia; try eassumption.
    pose proof (tick_le_2 (a + b + / 100) ltac:(lra)). lra.
  - apply Rle_trans with (tick (a + b + / 100) * rho 24).
    + apply Rmult_le_compat_r; [rewrite rho24_eq; lra | assumption].
    + eapply Rle_trans; [apply tick_round32; lra | apply tick_mono; lra].
Qed.

Lemma F64_div_good a b k X Y x y :
  goodf 53 (tick a) X x -> goodf 53 (tick b) Y y -> 0 <= a -> 0 <= b ->
  a + b + / 50 <= k -> k <= 100 -> inrange (X / Y) ->
  goodf 53 (tick k) (X / Y) (F64.div x y).
Proof.
  intros Hx Hy Ha Hb Hk Hk' HR.
  pose proof (tick_mul a b Ha Hb ltac:(lra)) as Hm.
  eapply goodf_weaken.
  - apply (good_div 53 1024); try lia; try eassumption.
    pose proof (tick_le_2 (a + b + / 100) ltac:(lra)). lra.
  - apply Rle_trans with (tick (a + b + / 100) * rho 53).
    + apply Rmult_le_compat_r; [pose proof rho53_le; lra | assumption].
    + eapply Rle_trans; [apply tick_round64; lra | apply tick_mono; lra].
Qed.

Lemma F64_mul_good a b k X Y x y :
  goodf 53 (tick a) X x -> goodf 53 (tick b) Y y -> 0 <= a -> 0 <= b ->
  a + b + / 50 <= k -> k <= 100 -> inrange (X * Y) ->
  goodf 53 (tick k) (X * Y) (F64.mul x y).
Proof.
  intros Hx Hy Ha Hb Hk Hk' HR.
  pose proof (tick_mul a b Ha Hb ltac:(lra)) as Hm.
  eapply goodf_weaken.
  - apply (good_mul 53 1024); try lia; try eassumption.
    pose proof (tick_le_2 (a + b + / 100) ltac:(lra)). lra.
  - apply Rle_trans with (tick (a + b + / 100) * rho 53).
    + apply Rmult_le_compat_r; [pose proof rho53_le; lra | assumption].
    + eapply Rle_trans; [apply tick_round64; lra | apply tick_mono; lra].
Qed.

Lemma F32_two : pnorm 24 (F32.of_Z 2) /\ B2R (F32.of_Z 2) = 2.
Proof. apply F32_of_Z_exact. lia. Qed.

Lemma F32_add_two_good a k X x :
  goodf 24 (tick a) X x -> 0 <= a -> a + 1 <= k -> k <= 100 -> inrange (X + 2) ->
  goodf 24 (tick k) (X + 2) (F32.add x (F32.of_Z 2)).
Proof.
  intros Hx Ha Hk Hk' HR. destruct F32_two as [H2 E2].
  eapply goodf_weaken.
  - rewrite <- E2. apply (good_add_const 24 128); try lia; try eassumption.
    + apply tick_le_2; lra.
    + rewrite E2. assumption.
  - eapply Rle_trans; [apply tick_round32; lra | apply tick_mono; lra].
Qed.

(** [x - 2] for [x] well above 2. *)
Lemma F32_sub_two_good a X x :
  goodf 24 (tick a) X x -> 0 <= a <= 99 -> 8 <= X <= 8000000000 ->
  pnorm 24 (F32.sub x (F32.of_Z 2)) /\
  X * (1 - (a + 2) * / 4000000) - 2 <= B2R (F32.sub x (F32.of_Z 2))
    <= X * (1 + (a + 2) * / 4000000) - 2.
Proof.
  intros Hx Ha HX. destruct F32_two as [H2 E2].
  pose proof (within_lin a X (B2R x) ltac:(lra) (proj2 Hx)) as Hlin.
  destruct (good_sub_const 24 128 ltac:(lia) ltac:(lia) (tick a) X x (F32.of_Z 2) Hx H2) as [Hp W].
  - apply tick_le_2; lra.
  - rewrite E2. split.
    + apply Rle_trans with (bpow 0); [apply bpow_le; lia |]. change (bpow 0) with 1. nra.
    + apply Rlt_le_trans with (bpow 34); [| apply bpow_le; lia].
      rewrite (bpow_IZR 34) by lia. change (2 ^ 34)%Z with 17179869184%Z. nra.
  - split; [exact Hp |]. rewrite E2 in W.
    assert (W' : within (tick 1) (B2R x - 2) (B2R (F32.sub x (F32.of_Z 2)))).
    { eapply within_weaken; [exact W |]. rewrite rho24_eq. unfold tick. lra. }
    apply within_lin in W'; [| lra].
    split; nra.
Qed.

(** ** Rounding error of the driver's computations

    [PWM_SetParams] and [PWM_GetParams] followed operation by operation:
    every intermediate value is the exact one up to a factor counted in
    ticks. *)

Ltac mag_solve :=
  eapply mag_inrange;
  [ repeat first [ eassumption | apply mag_div | apply mag_mul | apply mag_inv ]
  | lia ].

Lemma mag_one : mag 0 1.
Proof. unfold mag. change (bpow (- 0)) with 1. change (bpow 0) with 1. lra. Qed.

(** [timer_clock_period], [pwm_period] and [pwm_dc]. *)
Lemma timer_clock_period_good clk : (1 <= clk <= 2 ^ 32)%Z ->
  goodf 24 (tick 3) (/ IZR clk) (timer_clock_period (F32.of_Z clk)).
Proof.
  intros H. unfold timer_clock_period.
  replace (/ IZR clk) with (1 / IZR clk) by (unfold Rdiv; ring).
  assert (M : mag 33 (IZR clk)) by (apply mag_IZR; lia).
  assert (R : inrange (1 / IZR clk)).
  { eapply mag_inrange; [apply mag_div; [apply mag_one | exact M] | lia]. }
  apply F32_of_double_good with (a := 3 / 2); try lra; [| exact R].
  apply F64_div_good with (a := 0) (b := 1); try lra; [| | exact R].
  - apply (F64_of_Z_good 1). lia.
  - apply F64_of_float_good; [| lra | eapply mag_inrange; [exact M | lia]].
    apply F32_of_Z_good; [lia | lra].
Qed.

Lemma SetParams_pwm_period_good f : (1 <= f <= 2 ^ 32)%Z ->
  goodf 24 (tick 2) (/ IZR f) (SetParams_pwm_period f).
Proof.
  intros H. unfold SetParams_pwm_period.
  replace (/ IZR f) with (1 / IZR f) by (unfold Rdiv; ring).
  assert (M : mag 33 (IZR f)) by (apply mag_IZR; lia).
  assert (R : inrange (1 / IZR f)).
  { eapply mag_inrange; [apply mag_div; [apply mag_one | exact M] | lia]. }
  apply F32_of_double_good with (a := / 2); try lra; [| exact R].
  apply F64_div_good with (a := 0) (b := 0); try lra; [| | exact R].
  - apply (F64_of_Z_good 1). lia.
  - apply F64_of_Z_good. lia.
Qed.

Lemma SetParams_pwm_dc_good d : (1 <= d <= 100)%Z ->
  goodf 24 (tick 2) (IZR d / 100) (SetParams_pwm_dc d).
Proof.
  intros H. unfold SetParams_pwm_dc.
  assert (M : mag 33 (IZR d)) by (apply mag_IZR; lia).
  assert (M' : mag 33 100) by (apply (mag_IZR 33 100); lia).
  assert (R : inrange (IZR d / 100)).
  { eapply mag_inrange; [apply mag_div; [exact M | exact M'] | lia]. }
  apply F32_of_double_good with (a := / 2); try lra; [| exact R].
  apply F64_div_good with (a := 0) (b := 0); try lra; [| | exact R].
  - apply F64_of_Z_good. lia.
  - apply (F64_of_Z_good 100). lia.
Qed.

(** The period count before truncation: within 2.25e-6 of clock/freq, less 2. *)
Lemma SetParams_tlr0_bounds clk f :
  (1 <= f)%Z -> (1000 * f <= clk)%Z -> (clk <= 4000000000)%Z ->
  pnorm 24 (SetParams_tlr0 (F32.of_Z clk) f) /\
  IZR clk / IZR f * (1 - 9 / 4000000) - 2
    <= B2R (SetParams_tlr0 (F32.of_Z clk) f)
    <= IZR clk / IZR f * (1 + 9 / 4000000) - 2.
Proof.
  intros Hf Hcf Hc. unfold SetParams_tlr0.
  assert (HF : 1 <= IZR f) by (apply IZR_le; lia).
  assert (HC : 1000 * IZR f <= IZR clk) by (rewrite <- mult_IZR; apply IZR_le; lia).
  assert (HC' : IZR clk <= 4000000000) by (apply IZR_le; lia).
  assert (E : IZR clk / IZR f = / IZR f / / IZR clk) by (field; lra).
  assert (HN : 1000 <= IZR clk / IZR f <= 4000000000).
  { split.
    - apply Rmult_le_reg_r with (IZR f); [lra |].
      unfold Rdiv. rewrite Rmult_assoc, Rinv_l by lra. lra.
    - apply Rmult_le_reg_r with (IZR f); [lra |].
      unfold Rdiv. rewrite Rmult_assoc, Rinv_l by lra. nra. }
  assert (Mf : mag 33 (IZR f)) by (apply mag_IZR; lia).
  assert (Mc : mag 33 (IZR clk)) by (apply mag_IZR; lia).
  assert (G : goodf 24 (tick 7) (IZR clk / IZR f)
                (F32.div (SetParams_pwm_period f) (timer_clock_period (F32.of_Z clk)))).
  { rewrite E. apply F32_div_good with (a := 2) (b := 3); try lra.
    - apply SetParams_pwm_period_good. lia.
    - apply timer_clock_period_good. lia.
    - mag_solve. }
  destruct (F32_sub_two_good 7 _ _ G ltac:(lra) ltac:(lra)) as [Hp Hb].
  split; [exact Hp |]. lra.
Qed.

(** The duty count before truncation, for a duty of at least 1. *)
Lemma SetParams_tlr1_raw_bounds clk f d :
  (1 <= f)%Z -> (1000 * f <= clk)%Z -> (clk <= 4000000000)%Z -> (1 <= d <= 100)%Z ->
  pnorm 24 (SetParams_tlr1_raw (F32.of_Z clk) f d) /\
  IZR clk / IZR f * (IZR d / 100) * (1 - 13 / 4000000) - 2
    <= B2R (SetParams_tlr1_raw (F32.of_Z clk) f d)
    <= IZR clk / IZR f * (IZR d / 100) * (1 + 13 / 4000000) - 2.
Proof.
  intros Hf Hcf Hc Hd. unfold SetParams_tlr1_raw.
  assert (HF : 1 <= IZR f) by (apply IZR_le; lia).
  assert (HD : 1 <= IZR d <= 100) by (split; apply IZR_le; lia).
  assert (HC : 1000 * IZR f <= IZR clk) by (rewrite <- mult_IZR; apply IZR_le; lia).
  assert (HC' : IZR clk <= 4000000000) by (apply IZR_le; lia).
  assert (E : IZR clk / IZR f * (IZR d / 100) = / IZR f * (IZR d / 100) / / IZR clk)
    by (field; lra).
  assert (HN : 1000 <= IZR clk / IZR f <= 4000000000).
  { split.
    - apply Rmult_le_reg_r with (IZR f); [lra |].
      unfold Rdiv. rewrite Rmult_assoc, Rinv_l by lra. lra.
    - apply Rmult_le_reg_r with (IZR f); [lra |].
      unfold Rdiv. rewrite Rmult_assoc, Rinv_l by lra. nra. }
  assert (Mf : mag 22 (IZR f)) by (apply mag_IZR; lia).
  assert (Mc : mag 32 (IZR clk)) by (apply mag_IZR; lia).
  assert (Md : mag 7 (IZR d)) by (apply mag_IZR; lia).
  assert (Mh : mag 7 100) by (apply (mag_IZR 7 100); lia).
  assert (G : goodf 24 (tick 11) (IZR clk / IZR f * (IZR d / 100))
                (F32.div (F32.mul (SetParams_pwm_period f) (SetParams_pwm_dc d))
                         (timer_clock_period (F32.of_Z clk)))).
  { rewrite E. apply F32_div_good with (a := 6) (b := 3); try lra.
    - apply F32_mul_good with (a := 2) (b := 2); try lra.
      + apply SetParams_pwm_period_good. lia.
      + apply SetParams_pwm_dc_good. lia.
      + mag_solve.
    - apply timer_clock_period_good. lia.
    - mag_solve. }
  destruct (F32_sub_two_good 11 _ _ G ltac:(lra)) as [Hp Hb].
  { nra. }
  split; [exact Hp |]. lra.
Qed.

(** The arguments of the two [lroundf] in [PWM_GetParams]. *)
Lemma GetParams_freq_arg_good clk r0 :
  (1 <= clk <= 4000000000)%Z -> (1 <= r0 < 2 ^ 32)%Z ->
  goodf 24 (tick 9) (IZR clk / (IZR r0 + 2))
    (GetParams_freq_arg (F32.of_Z clk) (F32.of_Z r0)).
Proof.
  intros Hc Hr. unfold GetParams_freq_arg, GetParams_pwm_period.
  assert (HC : 1 <= IZR clk) by (apply IZR_le; lia).
  assert (HR : 1 <= IZR r0) by (apply IZR_le; lia).
  assert (E : IZR clk / (IZR r0 + 2) = 1 / ((IZR r0 + 2) * / IZR clk)) by (field; lra).
  assert (Mc : mag 32 (IZR clk)) by (apply mag_IZR; lia).
  assert (Mr : mag 33 (IZR r0 + 2)).
  { change 2 with (IZR 2). rewrite <- plus_IZR. apply mag_IZR; lia. }
  assert (Mr0 : mag 32 (IZR r0)) by (apply mag_IZR; lia).
  pose proof mag_one as M1.
  rewrite E.
  apply F32_of_double_good with (a := 15 / 2); try lra; [| mag_solve].
  apply F64_div_good with (a := 0) (b := 7); try lra; [| | mag_solve].
  - apply (F64_of_Z_good 1). lia.
  - apply F64_of_float_good; [| lra | mag_solve].
    apply F32_mul_good with (a := 2) (b := 3); try lra; [| | mag_solve].
    + apply F32_add_two_good with (a := 1); try lra; [| mag_solve].
      apply F32_of_Z_good; [lia | lra].
    + apply timer_clock_period_good. lia.
Qed.

Lemma GetParams_duty_arg_good r0 r1 :
  (1 <= r0 < 2 ^ 32)%Z -> (1 <= r1 < 2 ^ 32)%Z ->
  goodf 24 (tick 6) (IZR r1 / IZR r0 * 100)
    (GetParams_duty_arg (F32.of_Z r0) (F32.of_Z r1)).
Proof.
  intros Hr0 Hr1. unfold GetParams_duty_arg, GetParams_pwm_dc.
  assert (M0 : mag 32 (IZR r0)) by (apply mag_IZR; lia).
  assert (M1 : mag 32 (IZR r1)) by (apply mag_IZR; lia).
  assert (Mh : mag 7 100) by (apply (mag_IZR 7 100); lia).
  apply F32_of_double_good with (a := 9 / 2); try lra; [| mag_solve].
  apply F64_mul_good with (a := 4) (b := 0); try lra; [| | mag_solve].
  - apply F64_of_float_good; [| lra | mag_solve].
    apply F32_div_good with (a := 1) (b := 1); try lra; [| | mag_solve].
    + apply F32_of_Z_good; [lia | lra].
    + apply F32_of_Z_good; [lia | lra].
  - apply (F64_of_Z_good 100). lia.
Qed.

(** The arithmetic of the round trip on the real line. *)
Lemma freq_decode_bound (F N r0 G FA : R) :
  1 <= F <= 63246 -> F <= N -> 1000 <= N ->
  N * (1 - 9 / 4000000) - 3 < r0 <= N * (1 + 9 / 4000000) - 2 ->
  G * (r0 + 2) = F * N ->
  G * (1 - 9 / 4000000) <= FA <= G * (1 + 9 / 4000000) ->
  F - 3 / 10 <= FA <= F + 7 / 5.
Proof.
  intros HF HFN HN Hr HG HFA.
  assert (HFN' : F * N <= 63246 * N) by (apply Rmult_le_compat_r; lra).
  assert (HFN0 : 0 < F * N) by (apply Rmult_lt_0_compat; lra).
  assert (Hr0 : 0 < r0 + 2) by lra.
  assert (Hup : G <= F + 6 / 5).
  { apply Rmult_le_reg_r with (r0 + 2); [lra |]. rewrite HG.
    apply Rle_trans with ((F + 6 / 5) * (N * (1 - 9 / 4000000) - 1));
      [lra | apply Rmult_le_compat_l; lra]. }
  assert (HGpos : 0 < G).
  { destruct (Rlt_le_dec 0 G) as [| Hneg]; [assumption |].
    assert (G * (r0 + 2) <= 0 * (r0 + 2)) by (apply Rmult_le_compat_r; lra). lra. }
  assert (Hlo : F <= G * (1 + 9 / 4000000)).
  { apply Rmult_le_reg_r with N; [lra |]. rewrite <- HG.
    replace (G * (1 + 9 / 4000000) * N) with (G * (N * (1 + 9 / 4000000))) by ring.
    apply Rmult_le_compat_l; lra. }
  split; lra.
Qed.

Lemma duty_decode_bound (N D r0 r1 H DA : R) :
  1 <= D <= 100 -> 1000 <= N ->
  N * (1 - 9 / 4000000) - 3 < r0 <= N * (1 + 9 / 4000000) - 2 ->
  N * (D / 100) * (1 - 13 / 4000000) - 3 < r1
    <= N * (D / 100) * (1 + 13 / 4000000) - 2 ->
  H * r0 = 100 * r1 ->
  H * (1 - 6 / 4000000) <= DA <= H * (1 + 6 / 4000000) ->
  D - 51 / 100 <= DA <= D + 51 / 100.
Proof.
  intros HD HN Hr0 Hr1 HH HDA.
  assert (HND : N <= N * D <= 100 * N) by nra.
  assert (Hr0p : 0 < r0) by lra.
  assert (Hup : H <= D + / 2).
  { apply Rmult_le_reg_r with r0; [lra |]. rewrite HH.
    apply Rle_trans with ((D + / 2) * (N * (1 - 9 / 4000000) - 3));
      [lra | apply Rmult_le_compat_l; lra]. }
  assert (Hlo : D - / 2 <= H).
  { apply Rmult_le_reg_r with r0; [lra |]. rewrite HH.
    apply Rle_trans with ((D - / 2) * (N * (1 + 9 / 4000000) - 2));
      [apply Rmult_le_compat_l; lra | lra]. }
  split; lra.
Qed.

(** *** The range check and the clamp *)

Lemma PWM_MAXCNT_value : pnorm 53 PWM_MAXCNT /\ B2R PWM_MAXCNT = 4294967295.
Proof. apply (F64_of_Z_exact 4294967295). lia. Qed.

Lemma not_above_PWM_MAXCNT x :
  pnorm 24 x -> inrange (B2R x) -> B2R x < 4294967295 ->
  fgt (F64.of_float x) PWM_MAXCNT = false.
Proof.
  intros Hx HR Hlt.
  destruct (F64_of_float_good 0 (B2R x) x (goodf_self 24 x Hx) ltac:(lra) HR) as [Hp W].
  destruct PWM_MAXCNT_value as [Hm Em].
  unfold fgt. destruct (SFltb PWM_MAXCNT (F64.of_float x)) eqn:E; [| reflexivity].
  apply (SFltb_pnorm 53 ltac:(lia) _ _ Hm Hp) in E.
  destruct W as (_ & _ & _ & W). unfold tick in W. lra.
Qed.

Lemma flt_pnorm_zero prec x : pnorm prec x -> flt x (F32.of_Z 0) = false.
Proof. destruct x as [| | | [] m e]; cbn [pnorm]; try contradiction. reflexivity. Qed.

Lemma inrange_mid x : 1 <= x <= 8000000000 -> inrange x.
Proof.
  intros H. split.
  - apply Rle_trans with (bpow 0); [apply bpow_le; lia |]. change (bpow 0) with 1. lra.
  - apply Rle_trans with (bpow 34); [| apply bpow_le; lia].
    rewrite (bpow_IZR 34) by lia. change (2 ^ 34)%Z with 17179869184%Z. lra.
Qed.

(** A duty of zero: the duty count is clamped to zero, and zero is read back. *)
Lemma SetParams_tlr1_zero_duty clk f :
  (1 <= clk <= 2 ^ 32)%Z -> (1 <= f <= 2 ^ 32)%Z ->
  SetParams_tlr1 (F32.of_Z clk) f 0 = S754_zero false.
Proof.
  intros Hc Hf. unfold SetParams_tlr1, SetParams_tlr1_raw.
  destruct (SetParams_pwm_period_good f Hf) as [Hp _].
  destruct (timer_clock_period_good clk Hc) as [Ht _].
  destruct (pnorm_inv 24 _ Hp) as (mp & ep & -> & _).
  destruct (pnorm_inv 24 _ Ht) as (mt & et & -> & _).
  destruct F32_two as [H2 _]. destruct (pnorm_inv 24 _ H2) as (m2 & e2 & -> & _).
  reflexivity.
Qed.

Lemma GetParams_duty_arg_zero r0 :
  (1 <= r0 < 2 ^ 32)%Z ->
  GetParams_duty_arg (F32.of_Z r0) (F32.of_Z 0) = S754_zero false.
Proof.
  intros Hr. unfold GetParams_duty_arg, GetParams_pwm_dc.
  destruct (F32_of_Z_good r0 1 ltac:(lia) ltac:(lra)) as [Hp _].
  destruct (pnorm_inv 24 _ Hp) as (m & e & -> & _).
  reflexivity.
Qed.

Lemma F32_two_eq : F32.of_Z 2 = S754_finite false 8388608 (-22).
Proof. reflexivity. Qed.

Lemma binary_round_not_positive prec emax m e :
  not_positive (binary_round prec emax true m e).
Proof.
  unfold binary_round. destruct (shl_align m e _) as [mz ez].
  pose proof (binary_round_aux_sign prec emax true (Zpos mz) ez loc_Exact) as H.
  destruct (binary_round_aux prec emax true (Zpos mz) ez loc_Exact); cbn; try subst; auto.
Qed.

(** [x - 2] for a positive [x] below 2^32: a positive number below 2^32, or
    a value that is not positive. *)
Lemma F32_sub_two_cases x :
  pnorm 24 x -> B2R x < 4290000000 ->
  (pnorm 24 (F32.sub x (F32.of_Z 2)) /\ inrange (B2R (F32.sub x (F32.of_Z 2))) /\
   B2R (F32.sub x (F32.of_Z 2)) < 4294967295) \/
  not_positive (F32.sub x (F32.of_Z 2)).
Proof.
  intros Hx Hlt. destruct (pnorm_inv 24 x Hx) as (mx & ex & -> & Hmx).
  rewrite F32_two_eq. unfold F32.sub, F32.prec, F32.emax. cbn [SFsub cond_Zopp].
  set (ez := Z.min ex (-22)).
  pose proof (B2R_aligned mx ex ez ltac:(unfold ez; lia)) as Ha.
  pose proof (B2R_aligned 8388608 (-22) ez ltac:(unfold ez; lia)) as Hb.
  set (a := fst (shl_align mx ex ez)) in *.
  set (b := fst (shl_align 8388608 (-22) ez)) in *.
  assert (E2 : IZR (Zpos 8388608) * bpow (-22) = 2) by (unfold bpow; simpl; lra).
  rewrite E2 in Hb. cbn [B2R] in Hlt. rewrite Rmult_1_l in Hlt.
  pose proof (bpow_pos ez) as Hpz.
  destruct (Zpos a - Zpos b)%Z as [| p | p] eqn:E.
  - right. exact I.
  - left.
    assert (Hv : IZR (Zpos p) * bpow ez = IZR (Zpos mx) * bpow ex - 2).
    { rewrite <- E, minus_IZR. lra. }
    assert (Hp1 : 1 <= IZR (Zpos p)) by (apply IZR_le; lia).
    assert (Hgt : 2 < IZR (Zpos mx) * bpow ex) by nra.
    assert (Hex : (-22 <= ex)%Z).
    { assert (1 < 24 + ex)%Z; [| lia]. apply bpow_lt_inv. rewrite bpow_1.
      apply Rlt_le_trans with (1 := Hgt). rewrite bpow_add, (bpow_IZR 24) by lia.
      apply Rmult_le_compat_r; [apply Rlt_le, bpow_pos | apply IZR_le; lia]. }
    assert (Hez : ez = (-22)%Z) by (unfold ez; lia).
    assert (Hlo : bpow (-22) <= IZR (Zpos p) * bpow ez).
    { rewrite Hez. pose proof (bpow_pos (-22)). nra. }
    destruct (binary_round_faithful 24 128 ltac:(lia) p ez) as [Hp He].
    { split.
      - apply Rle_trans with (2 := Hlo). apply bpow_le. lia.
      - apply Rlt_le_trans with (bpow 34); [| apply bpow_le; lia].
        rewrite (bpow_IZR 34) by lia. change (2 ^ 34)%Z with 17179869184%Z. lra. }
    cbn [binary_normalize]. split; [exact Hp |].
    apply Rabs_le_between in He.
    replace (bpow (1 - 24)) with (/ 8388608) in He by (unfold bpow; simpl; lra).
    set (t := B2R (binary_round 24 128 false p ez)) in *.
    set (v := IZR (Zpos p) * bpow ez) in *.
    assert (Hb22 : bpow (-22) = / 4194304) by (unfold bpow; simpl; lra).
    split; [| lra]. split.
    + apply Rle_trans with (bpow (-23)); [apply bpow_le; lia |].
      replace (bpow (-23)) with (/ 8388608) by (unfold bpow; simpl; lra). lra.
    + apply Rle_trans with (bpow 34); [| apply bpow_le; lia].
      rewrite (bpow_IZR 34) by lia. change (2 ^ 34)%Z with 17179869184%Z. lra.
  - right. cbn [binary_normalize]. apply binary_round_not_positive.
Qed.

Lemma fgt_not_positive x : not_positive x -> fgt (F64.of_float x) PWM_MAXCNT = false.
Proof.
  intros H. destruct PWM_MAXCNT_value as [Hm _].
  destruct (pnorm_inv 53 _ Hm) as (M & E & -> & _).
  destruct x as [s | [] | | [] m e]; cbn in H; try contradiction; try reflexivity.
  unfold F64.of_float, reround, F64.prec, F64.emax.
  pose proof (binary_round_not_positive 53 1024 m e) as H'.
  destruct (binary_round 53 1024 true m e) as [s | [] | | [] m' e'];
    cbn in H'; try contradiction; reflexivity.
Qed.

(** The test against [PWM_MAXCNT] passes for [x - 2], and for the duty count
    after its clamp. *)
Lemma F32_sub_two_accepted x :
  pnorm 24 x -> B2R x < 4290000000 ->
  let t := F32.sub x (F32.of_Z 2) in
  fgt (F64.of_float t) PWM_MAXCNT = false /\
  fgt (F64.of_float (if flt t (F32.of_Z 0) then F32.of_double (S754_zero false) else t))
      PWM_MAXCNT = false.
Proof.
  intros Hx Hlt. cbv zeta.
  destruct (F32_sub_two_cases x Hx Hlt) as [(Hp & HR & Hb) | Hn];
    set (t := F32.sub x (F32.of_Z 2)) in *.
  - rewrite (flt_pnorm_zero 24 t Hp). split; apply not_above_PWM_MAXCNT; assumption.
  - split; [apply fgt_not_positive; assumption |].
    destruct (flt t (F32.of_Z 0)); [reflexivity | apply fgt_not_positive; assumption].
Qed.

Lemma SetParams_accepts clk f d :
  (1 <= clk <= 4000000000)%Z -> (1 <= f < 2 ^ 32)%Z -> (0 <= d <= 100)%Z ->
  SetParams_rejects (F32.of_Z clk) f d = false.
Proof.
  intros Hc Hf Hd.
  assert (HF : 1 <= IZR f) by (apply IZR_le; lia).
  assert (HC : 1 <= IZR clk <= 4000000000) by (split; apply IZR_le; lia).
  assert (Mf : mag 32 (IZR f)) by (apply mag_IZR; lia).
  assert (Mc : mag 32 (IZR clk)) by (apply mag_IZR; lia).
  assert (HN : 0 < / IZR f / / IZR clk <= 4000000000).
  { replace (/ IZR f / / IZR clk) with (IZR clk / IZR f) by (field; lra).
    split; [apply Rdiv_lt_0_compat; lra |].
    apply Rmult_le_reg_r with (IZR f); [lra |].
    unfold Rdiv. rewrite Rmult_assoc, Rinv_l by lra. nra. }
  pose proof (SetParams_pwm_period_good f ltac:(lia)) as Gp.
  pose proof (timer_clock_period_good clk ltac:(lia)) as Gt.
  assert (G0 : goodf 24 (tick 7) (/ IZR f / / IZR clk)
                 (F32.div (SetParams_pwm_period f) (timer_clock_period (F32.of_Z clk)))).
  { apply F32_div_good with (a := 2) (b := 3); try lra; try assumption. mag_solve. }
  destruct G0 as [Hp0 W0]. apply within_lin in W0; [| lra].
  destruct (F32_sub_two_accepted _ Hp0 ltac:(nra)) as [A0 _].
  unfold SetParams_rejects.
  replace (d >? 100)%Z with false by (symmetry; rewrite Z.gtb_ltb; apply Z.ltb_ge; lia).
  unfold SetParams_tlr0. rewrite A0. cbn [orb].
  destruct (Z.eq_dec d 0) as [-> | Hd0].
  - rewrite SetParams_tlr1_zero_duty by lia. reflexivity.
  - assert (HD : 1 <= IZR d <= 100) by (split; apply IZR_le; lia).
    assert (Md : mag 7 (IZR d)) by (apply mag_IZR; lia).
    assert (Mh : mag 7 100) by (apply (mag_IZR 7 100); lia).
    assert (G1 : goodf 24 (tick 11) (/ IZR f * (IZR d / 100) / / IZR clk)
                   (F32.div (F32.mul (SetParams_pwm_period f) (SetParams_pwm_dc d))
                            (timer_clock_period (F32.of_Z clk)))).
    { apply F32_div_good with (a := 6) (b := 3); try lra; try assumption; [| mag_solve].
      apply F32_mul_good with (a := 2) (b := 2); try lra; try assumption; [| mag_solve].
      apply SetParams_pwm_dc_good. lia. }
    destruct G1 as [Hp1 W1]. apply within_lin in W1; [| lra].
    assert (HM : 0 < / IZR f * (IZR d / 100) / / IZR clk <= 4000000000).
    { replace (/ IZR f * (IZR d / 100) / / IZR clk)
        with (/ IZR f / / IZR clk * (IZR d / 100)) by (field; lra).
      split; [apply Rmult_lt_0_compat; lra | nra]. }
    destruct (F32_sub_two_accepted _ Hp1 ltac:(nra)) as [_ A1].
    unfold SetParams_tlr1, SetParams_tlr1_raw. exact A1.
Qed.

(** A frequency of zero makes the period count infinite. *)
Lemma SetParams_rejects_freq_zero clk d :
  (1 <= clk <= 2 ^ 32)%Z -> SetParams_rejects (F32.of_Z clk) 0 d = true.
Proof.
  intros Hc. destruct (timer_clock_period_good clk Hc) as [Ht _].
  destruct (pnorm_inv 24 _ Ht) as (mt & et & Et & _).
  destruct PWM_MAXCNT_value as [Hm _].
  destruct (pnorm_inv 53 _ Hm) as (M & E & EM & _).
  unfold SetParams_rejects, SetParams_tlr0. rewrite Et, EM.
  replace (SetParams_pwm_period 0) with (S754_infinity false) by reflexivity.
  cbn. destruct (d >? 100)%Z; reflexivity.
Qed.

Local Close Scope R_scope.

(** The two counts [PWM_SetParams] stores, against clock/freq - 2 and
    clock/freq * duty/100 - 2. *)
Lemma compute_load_registers_bounds fu clk f d :
  1 <= f -> 1000 * f <= clk -> clk <= 4000000000 -> 0 <= d <= 100 ->
  exists r0 r1,
    compute_load_registers fu (F32.of_Z clk) f d = Some (r0, r1) /\
    (1 <= r0 < 2 ^ 32) /\ (0 <= r1 < 2 ^ 32) /\
    (IZR clk / IZR f * (1 - 9 / 4000000) - 3 < IZR r0
       <= IZR clk / IZR f * (1 + 9 / 4000000) - 2)%R /\
    (d = 0 -> r1 = 0) /\
    (1 <= d -> (1 <= r1) /\
       (IZR clk / IZR f * (IZR d / 100) * (1 - 13 / 4000000) - 3 < IZR r1
          <= IZR clk / IZR f * (IZR d / 100) * (1 + 13 / 4000000) - 2)%R).
Proof.
  intros Hf Hcf Hc Hd.
  assert (HF : (1 <= IZR f)%R) by (apply IZR_le; lia).
  assert (HC : (1000 * IZR f <= IZR clk)%R) by (rewrite <- mult_IZR; apply IZR_le; lia).
  assert (HC' : (IZR clk <= 4000000000)%R) by (apply IZR_le; lia).
  set (N := (IZR clk / IZR f)%R).
  assert (EN : (N * IZR f = IZR clk)%R) by (unfold N; field; lra).
  assert (HN : (1000 <= N <= 4000000000)%R) by (split; nra).
  destruct (SetParams_tlr0_bounds clk f Hf Hcf Hc) as [Hp0 Hb0]. fold N in Hb0.
  set (tlr0 := SetParams_tlr0 (F32.of_Z clk) f) in *.
  assert (Hr0 : inrange (B2R tlr0)) by (apply inrange_mid; lra).
  pose proof (not_above_PWM_MAXCNT tlr0 Hp0 Hr0 ltac:(lra)) as Hok0.
  destruct (float_to_u32_pnorm fu 24 tlr0 Hp0 ltac:(lra)) as [Hu0 Hv0].
  set (r0 := float_to_u32 fu tlr0) in *.
  assert (Hr0pos : 1 <= r0 < 2 ^ 32).
  { split; [| lia]. apply le_IZR. lra. }
  unfold compute_load_registers, SetParams_rejects. fold tlr0. rewrite Hok0.
  replace (d >? 100) with false by (symmetry; rewrite Z.gtb_ltb; apply Z.ltb_ge; lia).
  cbn [orb].
  destruct (Z.eq_dec d 0) as [-> | Hd0].
  - rewrite SetParams_tlr1_zero_duty by lia.
    replace (fgt (F64.of_float (S754_zero false)) PWM_MAXCNT) with false by reflexivity.
    replace (float_to_u32 fu (S754_zero false)) with 0 by reflexivity.
    exists r0, 0. fold r0. split; [reflexivity |].
    split; [exact Hr0pos |]. split; [lia |]. split; [lra |]. split; [reflexivity | lia].
  - destruct (SetParams_tlr1_raw_bounds clk f d Hf Hcf Hc ltac:(lia)) as [Hp1 Hb1].
    fold N in Hb1.
    assert (HD : (1 <= IZR d <= 100)%R) by (split; apply IZR_le; lia).
    unfold SetParams_tlr1. rewrite (flt_pnorm_zero 24 _ Hp1).
    set (tlr1 := SetParams_tlr1_raw (F32.of_Z clk) f d) in *.
    assert (HND : (N <= N * IZR d <= 100 * N)%R) by nra.
    assert (Hr1 : inrange (B2R tlr1)) by (apply inrange_mid; lra).
    pose proof (not_above_PWM_MAXCNT tlr1 Hp1 Hr1 ltac:(lra)) as Hok1.
    destruct (float_to_u32_pnorm fu 24 tlr1 Hp1 ltac:(lra)) as [Hu1 Hv1].
    set (r1 := float_to_u32 fu tlr1) in *.
    assert (Hr1pos : 1 <= r1 < 2 ^ 32).
    { split; [| lia]. apply le_IZR. lra. }
    rewrite Hok1. exists r0, r1. fold r0. split; [reflexivity |].
    split; [exact Hr0pos |]. split; [lia |]. split; [lra |]. split; [lia |].
    intros _. split; [lia | lra].
Qed.

(** What [PWM_GetParams] makes of such counts. *)
Lemma decode_load_registers_bounds lu clk f d r0 r1 :
  1 <= f -> 1000 * f <= clk -> f * f <= clk -> clk <= 4000000000 -> 0 <= d <= 100 ->
  1 <= r0 < 2 ^ 32 -> 0 <= r1 < 2 ^ 32 ->
  (IZR clk / IZR f * (1 - 9 / 4000000) - 3 < IZR r0
     <= IZR clk / IZR f * (1 + 9 / 4000000) - 2)%R ->
  (d = 0 -> r1 = 0) ->
  (1 <= d -> (1 <= r1) /\
     (IZR clk / IZR f * (IZR d / 100) * (1 - 13 / 4000000) - 3 < IZR r1
        <= IZR clk / IZR f * (IZR d / 100) * (1 + 13 / 4000000) - 2)%R) ->
  (f <= fst (decode_load_registers lu (F32.of_Z clk) r0 r1) <= f + 1) /\
  (d - 1 <= snd (decode_load_registers lu (F32.of_Z clk) r0 r1) <= d + 1).
Proof.
  intros Hf Hcf Hff Hc Hd Hr0pos Hr1pos Hb0 Hz Hb1.
  assert (HF : (1 <= IZR f)%R) by (apply IZR_le; lia).
  assert (HF' : (IZR f <= 63246)%R) by (apply IZR_le; nia).
  assert (HC : (1000 * IZR f <= IZR clk)%R) by (rewrite <- mult_IZR; apply IZR_le; lia).
  assert (HC' : (IZR clk <= 4000000000)%R) by (apply IZR_le; lia).
  assert (HFF : (IZR f * IZR f <= IZR clk)%R) by (rewrite <- mult_IZR; apply IZR_le; lia).
  set (N := (IZR clk / IZR f)%R) in *.
  assert (EN : (N * IZR f = IZR clk)%R) by (unfold N; field; lra).
  assert (HN : (1000 <= N <= 4000000000)%R) by (split; nra).
  assert (HFN : (IZR f <= N)%R) by nra.
  assert (HR0 : (1 <= IZR r0)%R) by (apply IZR_le; lia).
  unfold decode_load_registers. cbn [fst snd]. split.
  - destruct (GetParams_freq_arg_good clk r0 ltac:(lia) Hr0pos) as [Hpf Wf].
    apply within_lin in Wf; [| lra].
    set (FA := B2R (GetParams_freq_arg (F32.of_Z clk) (F32.of_Z r0))) in *.
    assert (HFA : (IZR f - 3 / 10 <= FA <= IZR f + 7 / 5)%R).
    { apply (freq_decode_bound (IZR f) N (IZR r0) (IZR clk / (IZR r0 + 2)) FA); try lra.
      rewrite (Rmult_comm (IZR f) N), EN. field. lra. }
    destruct (lroundf_pnorm lu 24 _ Hpf ltac:(fold FA; lra)) as [Hzf Hvf]. fold FA in Hvf.
    set (zf := lroundf lu (GetParams_freq_arg (F32.of_Z clk) (F32.of_Z r0))) in *.
    rewrite (u32_small zf) by lia. split.
    + assert (f - 1 < zf); [| lia]. apply lt_IZR. rewrite minus_IZR. lra.
    + assert (zf < f + 2); [| lia]. apply lt_IZR. rewrite plus_IZR. lra.
  - destruct (Z.eq_dec d 0) as [-> | Hd0].
    + rewrite (Hz eq_refl), GetParams_duty_arg_zero by lia.
      replace (lroundf lu (S754_zero false)) with 0 by reflexivity. cbn. lia.
    + destruct (Hb1 ltac:(lia)) as [Hr1 Hb1'].
      assert (HD : (1 <= IZR d <= 100)%R) by (split; apply IZR_le; lia).
      destruct (GetParams_duty_arg_good r0 r1 Hr0pos ltac:(lia)) as [Hpd Wd].
      apply within_lin in Wd; [| lra].
      set (DA := B2R (GetParams_duty_arg (F32.of_Z r0) (F32.of_Z r1))) in *.
      assert (HDA : (IZR d - 51 / 100 <= DA <= IZR d + 51 / 100)%R).
      { apply (duty_decode_bound N (IZR d) (IZR r0) (IZR r1) (IZR r1 / IZR r0 * 100) DA);
          try lra.
        field. lra. }
      destruct (lroundf_pnorm lu 24 _ Hpd ltac:(fold DA; lra)) as [Hzd Hvd]. fold DA in Hvd.
      set (zd := lroundf lu (GetParams_duty_arg (F32.of_Z r0) (F32.of_Z r1))) in *.
      rewrite (u32_small zd) by lia. split.
      * assert (d - 2 < zd); [| lia]. apply lt_IZR. rewrite minus_IZR. lra.
      * assert (zd < d + 2); [| lia]. apply lt_IZR. rewrite plus_IZR. lra.
Qed.

(** The round trip, for every clock up to 4 GHz. *)
Lemma roundtrip_general fu lu clk f d :
  1 <= f -> 1000 * f <= clk -> f * f <= clk -> clk <= 4000000000 ->
  0 <= d <= 100 ->
  exists f' d',
    roundtrip fu lu (F32.of_Z clk) f d = Some (f', d') /\
    (f <= f' <= f + 1) /\ (d - 1 <= d' <= d + 1).
Proof.
  intros Hf Hcf Hff Hc Hd.
  destruct (compute_load_registers_bounds fu clk f d Hf Hcf Hc Hd)
    as (r0 & r1 & E & H0 & H1 & Hb0 & Hz & Hb1).
  pose proof (decode_load_registers_bounds lu clk f d r0 r1 Hf Hcf Hff Hc Hd H0 H1 Hb0 Hz Hb1)
    as [Hfr Hdu].
  unfold roundtrip. rewrite E.
  destruct (decode_load_registers lu (F32.of_Z clk) r0 r1) as [f' d'].
  exists f', d'. auto.
Qed.

(** The period count in integers: within 2.25 parts in a million (and the
    truncation) of clock/freq - 2. *)
Lemma period_count_accuracy clk f r0 :
  1 <= f ->
  (IZR clk / IZR f * (1 - 9 / 4000000) - 3 < IZR r0
     <= IZR clk / IZR f * (1 + 9 / 4000000) - 2)%R ->
  (3999991 * clk < 4000000 * f * (r0 + 3)) /\
  (4000000 * f * (r0 + 2) <= 4000009 * clk).
Proof.
  intros Hf [H1 H2].
  assert (HF : (1 <= IZR f)%R) by (apply IZR_le; lia).
  set (N := (IZR clk / IZR f)%R) in *.
  assert (EN : (N * IZR f = IZR clk)%R) by (unfold N; field; lra).
  split.
  - apply lt_IZR. rewrite !mult_IZR, plus_IZR, <- EN.
    assert (N * (1 - 9 / 4000000) * IZR f < (IZR r0 + 3) * IZR f)%R
      by (apply Rmult_lt_compat_r; lra).
    lra.
  - apply le_IZR. rewrite !mult_IZR, plus_IZR, <- EN.
    assert ((IZR r0 + 2) * IZR f <= N * (1 + 9 / 4000000) * IZR f)%R
      by (apply Rmult_le_compat_r; lra).
    lra.
Qed.

Lemma duty_count_accuracy clk f d r1 :
  1 <= f ->
  (IZR clk / IZR f * (IZR d / 100) * (1 - 13 / 4000000) - 3 < IZR r1
     <= IZR clk / IZR f * (IZR d / 100) * (1 + 13 / 4000000) - 2)%R ->
  (3999987 * clk * d < 400000000 * f * (r1 + 3)) /\
  (400000000 * f * (r1 + 2) <= 4000013 * clk * d).
Proof.
  intros Hf [H1 H2].
  assert (HF : (1 <= IZR f)%R) by (apply IZR_le; lia).
  set (N := (IZR clk / IZR f)%R) in *.
  assert (EN : (N * IZR f = IZR clk)%R) by (unfold N; field; lra).
  split.
  - apply lt_IZR. rewrite !mult_IZR, plus_IZR, <- EN.
    assert (N * (IZR d / 100) * (1 - 13 / 4000000) * IZR f < (IZR r1 + 3) * IZR f)%R
      by (apply Rmult_lt_compat_r; lra).
    lra.
  - apply le_IZR. rewrite !mult_IZR, plus_IZR, <- EN.
    assert ((IZR r1 + 2) * IZR f <= N * (IZR d / 100) * (1 + 13 / 4000000) * IZR f)%R
      by (apply Rmult_le_compat_r; lra).
    lra.
Qed.

(** With a duty of zero the duty count is computed as -2. *)
Lemma SetParams_tlr1_raw_zero_duty clk f :
  1 <= clk <= 2 ^ 32 -> 1 <= f <= 2 ^ 32 ->
  flt (SetParams_tlr1_raw (F32.of_Z clk) f 0) (F32.of_Z 0) = true.
Proof.
  intros Hc Hf. unfold SetParams_tlr1_raw.
  destruct (SetParams_pwm_period_good f Hf) as [Hp _].
  destruct (timer_clock_period_good clk Hc) as [Ht _].
  destruct (pnorm_inv 24 _ Hp) as (mp & ep & -> & _).
  destruct (pnorm_inv 24 _ Ht) as (mt & et & -> & _).
  reflexivity.
Qed.

(** ** The PWM timer driver *)

Lemma disabled_bits c :
  Z.testbit c 10 = false ->
  Z.testbit (Z.ldiff c XTC_CSR_ENABLE_TMR_MASK) 10 = false /\
  Z.testbit (Z.ldiff (u32 (Z.ldiff c XTC_CSR_ENABLE_TMR_MASK)) XTC_CSR_ENABLE_ALL_MASK) 7 = false /\
  Z.testbit (Z.ldiff (u32 (Z.ldiff c XTC_CSR_ENABLE_TMR_MASK)) XTC_CSR_ENABLE_ALL_MASK) 10 = false.
Proof.
  intros H. rewrite !Z.ldiff_spec, !testbit_u32, !Z.ldiff_spec, H by lia.
  change (Z.testbit XTC_CSR_ENABLE_TMR_MASK 7) with true.
  change (Z.testbit XTC_CSR_ENABLE_TMR_MASK 10) with false.
  change (Z.testbit XTC_CSR_ENABLE_ALL_MASK 10) with true.
  cbn [negb andb]. rewrite !andb_false_r. repeat split; reflexivity.
Qed.

Lemma XTmrCtr_Disable_loads h n :
  TLR0 (XTmrCtr_Disable h n) = TLR0 h /\ TLR1 (XTmrCtr_Disable h n) = TLR1 h.
Proof.
  unfold XTmrCtr_Disable, XTmrCtr_ReadReg, XTmrCtr_WriteReg.
  destruct n; split; reflexivity.
Qed.

Lemma XTmrCtr_Disable_period h :
  csr_wf h ->
  timer_enabled (XTmrCtr_Disable h PWM_PERIOD_TIMER) PWM_PERIOD_TIMER = false /\
  TCSR1 (XTmrCtr_Disable h PWM_PERIOD_TIMER) = TCSR1 h /\
  csr_wf (XTmrCtr_Disable h PWM_PERIOD_TIMER).
Proof.
  intros [H0 H1]. destruct (disabled_bits _ H0) as (Ha & Hb & Hc).
  unfold XTmrCtr_Disable, XTmrCtr_ReadReg, XTmrCtr_WriteReg, csr_wf, timer_enabled.
  cbn [TCSR0 TCSR1 TLR0 TLR1 bus]. rewrite Ha. cbn [TCSR0 TCSR1].
  auto.
Qed.

Lemma XTmrCtr_Disable_duty h :
  csr_wf h ->
  timer_enabled (XTmrCtr_Disable h PWM_DUTY_TIMER) PWM_DUTY_TIMER = false /\
  TCSR0 (XTmrCtr_Disable h PWM_DUTY_TIMER) = TCSR0 h /\
  csr_wf (XTmrCtr_Disable h PWM_DUTY_TIMER).
Proof.
  intros [H0 H1]. destruct (disabled_bits _ H1) as (Ha & Hb & Hc).
  unfold XTmrCtr_Disable, XTmrCtr_ReadReg, XTmrCtr_WriteReg, csr_wf, timer_enabled.
  cbn [TCSR0 TCSR1 TLR0 TLR1 bus]. rewrite Ha. cbn [TCSR0 TCSR1].
  auto.
Qed.

Lemma stopped_hw_loads h :
  TLR0 (stopped_hw h) = TLR0 h /\ TLR1 (stopped_hw h) = TLR1 h.
Proof.
  unfold stopped_hw.
  destruct (XTmrCtr_Disable_loads (XTmrCtr_Disable h PWM_PERIOD_TIMER) PWM_DUTY_TIMER) as [-> ->].
  apply XTmrCtr_Disable_loads.
Qed.

Lemma stopped_hw_disabled h :
  csr_wf h ->
  timer_enabled (stopped_hw h) PWM_PERIOD_TIMER = false /\
  timer_enabled (stopped_hw h) PWM_DUTY_TIMER = false /\
  csr_wf (stopped_hw h).
Proof.
  intros W. destruct (XTmrCtr_Disable_period h W) as (E0 & _ & W1).
  destruct (XTmrCtr_Disable_duty _ W1) as (E1 & K & W2).
  unfold stopped_hw. repeat split; try assumption; try apply W2.
  unfold timer_enabled in *. rewrite K. exact E0.
Qed.

Lemma PWM_Stop_ready s :
  is_ready s = true -> PWM_Stop s = (XST_SUCCESS, with_hw s (stopped_hw (hw s))).
Proof. intros R. unfold PWM_Stop. rewrite R. reflexivity. Qed.

Lemma SetLoadReg_both h a b :
  let h' := XTmrCtr_SetLoadReg (XTmrCtr_SetLoadReg h PWM_PERIOD_TIMER a) PWM_DUTY_TIMER b in
  TLR0 h' = u32 a /\ TLR1 h' = u32 b /\ TCSR0 h' = TCSR0 h /\ TCSR1 h' = TCSR1 h.
Proof. cbv zeta. repeat split; reflexivity. Qed.

Lemma PWM_SetParams_ready fu s freq dutyfactor :
  is_ready s = true ->
  PWM_SetParams fu s freq dutyfactor =
    if SetParams_rejects (clock_frequency s) freq dutyfactor
    then (XST_INVALID_PARAM, s)
    else (XST_SUCCESS,
          with_hw s
            (XTmrCtr_SetLoadReg
               (XTmrCtr_SetLoadReg (stopped_hw (hw s)) PWM_PERIOD_TIMER
                  (float_to_u32 fu (SetParams_tlr0 (clock_frequency s) freq)))
               PWM_DUTY_TIMER
               (float_to_u32 fu (SetParams_tlr1 (clock_frequency s) freq dutyfactor)))).
Proof.
  intros R. unfold PWM_SetParams, SetParams_rejects. rewrite R. cbn [negb].
  destruct (dutyfactor >? 100); [reflexivity |]. cbn [orb].
  destruct (fgt _ PWM_MAXCNT || fgt _ PWM_MAXCNT); [reflexivity |].
  rewrite (PWM_Stop_ready s R). reflexivity.
Qed.

Lemma float_to_u32_range fu x : 0 <= float_to_u32 fu x < 2 ^ 32.
Proof.
  unfold float_to_u32, float_to_u32_defined.
  destruct (Ztrunc_float x) as [z |].
  - destruct (in_u32 z) eqn:E.
    + unfold in_u32 in E. apply andb_true_iff in E. destruct E as [E1 E2].
      apply Z.leb_le in E1. apply Z.ltb_lt in E2. lia.
    + unfold u32. apply Z.mod_pos_bound. lia.
  - unfold u32. apply Z.mod_pos_bound. lia.
Qed.

Lemma u32_float_to_u32 fu x : u32 (float_to_u32 fu x) = float_to_u32 fu x.
Proof. unfold u32 at 1. apply Z.mod_small. apply float_to_u32_range. Qed.

(** C3 (as amended): on an initialised driver [PWM_SetParams] returns
    [XST_INVALID_PARAM] for every duty above 100 whatever the clock and
    frequency, returns [XST_INVALID_PARAM] whenever a load count as the code
    computes it, in binary32, exceeds [PWM_MAXCNT] (2^32 - 1), and succeeds in
    every other case, storing the two counts; a duty count computed negative
    is replaced by zero and the call succeeds.  (Both rejections carry the one
    status code the driver has for them.)

    In terms of the clock and the frequency, for a clock of 1 Hz to 4 GHz: a
    frequency of 0 is rejected (the period count is infinite); every
    frequency of at least 1 Hz is accepted with every duty from 0 to 100; and
    when the clock is at least 1000 times the frequency the period count
    stored is clock/freq - 2 and the duty count clock/freq * duty/100 - 2,
    each truncated and up to a relative error of 2.25e-6 and 3.25e-6, a duty
    of 0 being stored as the count 0 because -2 is clamped. *)
Theorem PWM_SetParams_outcome (fu : float -> Z) (s : PwmState) (freq dutyfactor : Z) :
  is_ready s = true ->
  let clk := clock_frequency s in
  let tlr0 := SetParams_tlr0 clk freq in
  let tlr1 := SetParams_tlr1 clk freq dutyfactor in
  let r := PWM_SetParams fu s freq dutyfactor in
  (100 < dutyfactor -> fst r = XST_INVALID_PARAM) /\
  (fgt (F64.of_float tlr0) PWM_MAXCNT = true \/
   fgt (F64.of_float tlr1) PWM_MAXCNT = true -> fst r = XST_INVALID_PARAM) /\
  (dutyfactor <= 100 ->
   fgt (F64.of_float tlr0) PWM_MAXCNT = false ->
   fgt (F64.of_float tlr1) PWM_MAXCNT = false ->
   fst r = XST_SUCCESS /\
   TLR0 (hw (snd r)) = float_to_u32 fu tlr0 /\
   TLR1 (hw (snd r)) = float_to_u32 fu tlr1) /\
  (flt (SetParams_tlr1_raw clk freq dutyfactor) (F32.of_Z 0) = true ->
   tlr1 = S754_zero false /\
   (dutyfactor <= 100 -> fgt (F64.of_float tlr0) PWM_MAXCNT = false ->
    fst r = XST_SUCCESS /\ TLR1 (hw (snd r)) = 0)) /\
  (forall clock_hz : Z,
     clk = F32.of_Z clock_hz -> 1 <= clock_hz <= 4000000000 -> 0 <= freq < 2 ^ 32 ->
     (freq = 0 -> fst r = XST_INVALID_PARAM) /\
     (1 <= freq -> 0 <= dutyfactor <= 100 -> fst r = XST_SUCCESS) /\
     (1 <= freq -> 1000 * freq <= clock_hz -> 0 <= dutyfactor <= 100 ->
      (3999991 * clock_hz < 4000000 * freq * (TLR0 (hw (snd r)) + 3)) /\
      (4000000 * freq * (TLR0 (hw (snd r)) + 2) <= 4000009 * clock_hz) /\
      (3999987 * clock_hz * dutyfactor < 400000000 * freq * (TLR1 (hw (snd r)) + 3)) /\
      (1 <= dutyfactor ->
       400000000 * freq * (TLR1 (hw (snd r)) + 2) <= 4000013 * clock_hz * dutyfactor) /\
      (dutyfactor = 0 ->
       flt (SetParams_tlr1_raw clk freq dutyfactor) (F32.of_Z 0) = true /\
       TLR1 (hw (snd r)) = 0))).
Proof.
  intros R clk tlr0 tlr1 r.
  assert (Hr : r = PWM_SetParams fu s freq dutyfactor) by reflexivity.
  rewrite (PWM_SetParams_ready fu s freq dutyfactor R) in Hr.
  pose proof Hr as Hr0. fold clk in Hr0.
  unfold SetParams_rejects in Hr. fold clk tlr0 tlr1 in Hr.
  assert (Ok : dutyfactor <= 100 ->
               fgt (F64.of_float tlr0) PWM_MAXCNT = false ->
               fgt (F64.of_float tlr1) PWM_MAXCNT = false ->
               fst r = XST_SUCCESS /\
               TLR0 (hw (snd r)) = float_to_u32 fu tlr0 /\
               TLR1 (hw (snd r)) = float_to_u32 fu tlr1).
  { intros Hd H0 H1. rewrite H0, H1 in Hr.
    replace (dutyfactor >? 100) with false in Hr by (rewrite Z.gtb_ltb; symmetry; apply Z.ltb_ge; lia).
    cbn [orb] in Hr. rewrite Hr. cbn [fst snd with_hw hw].
    destruct (SetLoadReg_both (stopped_hw (hw s)) (float_to_u32 fu tlr0) (float_to_u32 fu tlr1))
      as (E0 & E1 & _).
    rewrite E0, E1, !u32_float_to_u32. auto. }
  split; [| split; [| split; [| split]]].
  - intros Hd.
    replace (dutyfactor >? 100) with true in Hr by (rewrite Z.gtb_ltb; symmetry; apply Z.ltb_lt; lia).
    rewrite Hr. reflexivity.
  - intros H. rewrite Hr. destruct (dutyfactor >? 100); [reflexivity |].
    cbn [orb]. destruct H as [-> | ->]; [reflexivity |].
    rewrite orb_true_r. reflexivity.
  - exact Ok.
  - intros Hneg.
    assert (Ez : tlr1 = S754_zero false).
    { unfold tlr1, SetParams_tlr1. fold clk. rewrite Hneg. reflexivity. }
    split; [exact Ez |]. intros Hd H0.
    assert (H1 : fgt (F64.of_float tlr1) PWM_MAXCNT = false) by (rewrite Ez; reflexivity).
    destruct (Ok Hd H0 H1) as (Es & _ & E1). split; [exact Es |].
    rewrite E1, Ez. reflexivity.
  - intros clock_hz Ec Hc Hfr. rewrite Ec in Hr0. rewrite Ec.
    split; [| split].
    + intros ->. rewrite Hr0, SetParams_rejects_freq_zero by lia. reflexivity.
    + intros Hf Hd. rewrite Hr0, SetParams_accepts by lia. reflexivity.
    + intros Hf Hcf Hd.
      destruct (compute_load_registers_bounds fu clock_hz freq dutyfactor Hf Hcf
                  ltac:(lia) Hd) as (r0 & r1 & E & H0 & H1 & Hb0 & Hz & Hb1).
      unfold compute_load_registers in E.
      destruct (SetParams_rejects (F32.of_Z clock_hz) freq dutyfactor); [discriminate E |].
      injection E as E0 E1.
      assert (T0 : TLR0 (hw (snd r)) = r0 /\ TLR1 (hw (snd r)) = r1).
      { rewrite Hr0. cbn [snd with_hw hw].
        destruct (SetLoadReg_both (stopped_hw (hw s))
                    (float_to_u32 fu (SetParams_tlr0 (F32.of_Z clock_hz) freq))
                    (float_to_u32 fu (SetParams_tlr1 (F32.of_Z clock_hz) freq dutyfactor)))
          as (A0 & A1 & _).
        cbv zeta in A0, A1. rewrite A0, A1, !u32_float_to_u32. auto. }
      destruct T0 as [-> ->].
      destruct (period_count_accuracy clock_hz freq r0 Hf Hb0) as [P1 P2].
      split; [exact P1 |]. split; [exact P2 |].
      destruct (Z.eq_dec dutyfactor 0) as [Ed | Ed].
      * rewrite (Hz Ed), Ed. split; [lia |]. split; [lia |].
        intros _. split; [| reflexivity].
        apply SetParams_tlr1_raw_zero_duty; lia.
      * destruct (Hb1 ltac:(lia)) as [_ Hb1'].
        destruct (duty_count_accuracy clock_hz freq dutyfactor r1 Hf Hb1') as [Q1 Q2].
        split; [exact Q1 |]. split; [intros _; exact Q2 | intros Ed'; lia].
Qed.

(** C6: when [PWM_SetParams] does not return [XST_SUCCESS] the state is the
    one it was called in: no register of the peripheral was read or written,
    so the timers were not stopped and the load registers keep their
    values. *)
Theorem PWM_SetParams_failure_atomic (fu : float -> Z) (s : PwmState) (freq dutyfactor : Z) :
  fst (PWM_SetParams fu s freq dutyfactor) <> XST_SUCCESS ->
  snd (PWM_SetParams fu s freq dutyfactor) = s /\
  bus (hw (snd (PWM_SetParams fu s freq dutyfactor))) = bus (hw s) /\
  (fst (PWM_SetParams fu s freq dutyfactor) = XST_FAILURE \/
   fst (PWM_SetParams fu s freq dutyfactor) = XST_INVALID_PARAM).
Proof.
  unfold PWM_SetParams.
  destruct (negb (is_ready s)); [cbn [fst snd]; auto |].
  destruct (dutyfactor >? 100); [cbn [fst snd]; auto |].
  destruct (fgt _ PWM_MAXCNT || fgt _ PWM_MAXCNT); [cbn [fst snd]; auto |].
  destruct (PWM_Stop s) as [st s1]. cbn [fst]. intros H. exfalso. apply H. reflexivity.
Qed.

Lemma PWM_SetParams_keeps fu s freq dutyfactor :
  is_ready s = true -> csr_wf (hw s) ->
  is_ready (snd (PWM_SetParams fu s freq dutyfactor)) = true /\
  csr_wf (hw (snd (PWM_SetParams fu s freq dutyfactor))) /\
  clock_frequency (snd (PWM_SetParams fu s freq dutyfactor)) = clock_frequency s.
Proof.
  intros R W. rewrite (PWM_SetParams_ready fu s freq dutyfactor R).
  destruct (SetParams_rejects _ _ _); cbn [snd]; [auto |].
  destruct (stopped_hw_disabled (hw s) W) as (_ & _ & W').
  repeat split; try assumption; apply W'.
Qed.

(** C7 (as amended): two calls of [PWM_SetParams] with the same arguments
    on an initialised driver return the same status and leave the same
    contents in the two load registers; when the arguments are accepted the
    driver is stopped after each call, and when they are rejected both calls
    leave the state, running or not, as it was. *)
Theorem PWM_SetParams_twice (fu : float -> Z) (s : PwmState) (freq dutyfactor : Z) :
  is_ready s = true -> csr_wf (hw s) ->
  let r1 := PWM_SetParams fu s freq dutyfactor in
  let r2 := PWM_SetParams fu (snd r1) freq dutyfactor in
  fst r2 = fst r1 /\
  TLR0 (hw (snd r2)) = TLR0 (hw (snd r1)) /\
  TLR1 (hw (snd r2)) = TLR1 (hw (snd r1)) /\
  (fst r1 = XST_SUCCESS -> Stopped (snd r1) /\ Stopped (snd r2)) /\
  (fst r1 <> XST_SUCCESS -> snd r1 = s /\ snd r2 = s).
Proof.
  intros R W r1 r2.
  destruct (PWM_SetParams_keeps fu s freq dutyfactor R W) as (R1 & W1 & C1).
  fold r1 in R1, W1, C1.
  assert (E1 : r1 = PWM_SetParams fu s freq dutyfactor) by reflexivity.
  assert (E2 : r2 = PWM_SetParams fu (snd r1) freq dutyfactor) by reflexivity.
  rewrite (PWM_SetParams_ready fu s freq dutyfactor R) in E1.
  rewrite (PWM_SetParams_ready fu (snd r1) freq dutyfactor R1), C1 in E2.
  destruct (SetParams_rejects (clock_frequency s) freq dutyfactor).
  - rewrite E2, E1. cbn [fst snd].
    split; [reflexivity |]. split; [reflexivity |]. split; [reflexivity |].
    split; [intros H; discriminate H | intros _; split; reflexivity].
  - rewrite E2. cbn [fst snd with_hw hw].
    set (a := float_to_u32 fu (SetParams_tlr0 (clock_frequency s) freq)) in *.
    set (b := float_to_u32 fu (SetParams_tlr1 (clock_frequency s) freq dutyfactor)) in *.
    destruct (SetLoadReg_both (stopped_hw (hw (snd r1))) a b) as (A0 & A1 & A2 & A3).
    cbv zeta in A0, A1, A2, A3.
    destruct (stopped_hw_disabled (hw (snd r1)) W1) as (D0 & D1 & _).
    assert (S2 : Stopped (with_hw (snd r1)
       (XTmrCtr_SetLoadReg (XTmrCtr_SetLoadReg (stopped_hw (hw (snd r1))) PWM_PERIOD_TIMER a)
          PWM_DUTY_TIMER b))).
    { unfold Stopped, timer_enabled in *. cbn [with_hw hw]. rewrite A2, A3.
      repeat split; assumption. }
    rewrite A0, A1. rewrite E1 at 1 2 3. cbn [fst snd with_hw hw].
    destruct (SetLoadReg_both (stopped_hw (hw s)) a b) as (B0 & B1 & B2 & B3).
    cbv zeta in B0, B1, B2, B3. rewrite B0, B1.
    split; [reflexivity |]. split; [reflexivity |]. split; [reflexivity |].
    split.
    + intros _. split; [| exact S2]. rewrite E1. cbn [snd].
      destruct (stopped_hw_disabled (hw s) W) as (F0 & F1 & _).
      unfold Stopped, timer_enabled in *. cbn [with_hw hw]. rewrite B2, B3.
      repeat split; assumption.
    + rewrite E1. cbn [fst]. intros H. exfalso. apply H. reflexivity.
Qed.

(** C8: on an instance that is not initialised [PWM_Start], [PWM_Stop],
    [PWM_SetParams] and [PWM_GetParams] all return [XST_FAILURE] and leave the
    state, the record of register accesses included, untouched. *)
Theorem PWM_not_initialized (fu lu : float -> Z) (s : PwmState) (freq dutyfactor : Z) :
  is_ready s = false ->
  PWM_Start s = (XST_FAILURE, s) /\
  PWM_Stop s = (XST_FAILURE, s) /\
  PWM_SetParams fu s freq dutyfactor = (XST_FAILURE, s) /\
  PWM_GetParams lu s = (XST_FAILURE, s, None).
Proof.
  intros R. unfold PWM_Start, PWM_Stop, PWM_SetParams, PWM_GetParams.
  rewrite R. repeat split; reflexivity.
Qed.

Lemma PWM_GetParams_ready lu s :
  is_ready s = true ->
  fst (fst (PWM_GetParams lu s)) = XST_SUCCESS /\
  snd (PWM_GetParams lu s) =
    Some (decode_load_registers lu (clock_frequency s) (TLR0 (hw s)) (TLR1 (hw s))) /\
  TLR0 (hw (snd (fst (PWM_GetParams lu s)))) = TLR0 (hw s) /\
  TLR1 (hw (snd (fst (PWM_GetParams lu s)))) = TLR1 (hw s).
Proof.
  intros R. unfold PWM_GetParams. rewrite R, (PWM_Stop_ready s R). cbn [negb].
  unfold XTmrCtr_GetLoadReg, XTmrCtr_ReadReg, decode_load_registers.
  cbn [with_hw hw clock_frequency TLR0 TLR1 fst snd].
  destruct (stopped_hw_loads (hw s)) as [-> ->]. auto.
Qed.

Lemma set_then_get_ready fu lu s freq dutyfactor :
  is_ready s = true ->
  set_then_get fu lu s freq dutyfactor = roundtrip fu lu (clock_frequency s) freq dutyfactor.
Proof.
  intros R. unfold set_then_get, roundtrip, compute_load_registers.
  rewrite (PWM_SetParams_ready fu s freq dutyfactor R).
  destruct (SetParams_rejects _ _ _); [reflexivity |].
  set (a := float_to_u32 fu _). set (b := float_to_u32 fu _).
  set (s1 := with_hw s _).
  assert (R1 : is_ready s1 = true) by exact R.
  destruct (PWM_GetParams_ready lu s1 R1) as (_ & E & _). rewrite E.
  subst s1. cbn [with_hw hw clock_frequency].
  destruct (SetLoadReg_both (stopped_hw (hw s)) a b) as (E0 & E1 & _).
  cbv zeta in E0, E1. rewrite E0, E1. subst a b. rewrite !u32_float_to_u32. reflexivity.
Qed.

(** C2 (as amended): for every timer clock up to 4 GHz, every frequency of
    at least 1 Hz whose square does not exceed the clock and which is at most
    a thousandth of the clock, and every duty from 0 to 100, [PWM_SetParams]
    is accepted and the [PWM_GetParams] that follows returns the frequency,
    or the frequency plus one, and the duty within one percentage point. *)
Theorem PWM_roundtrip_within_one (fu lu : float -> Z) (s : PwmState)
  (clock_hz freq dutyfactor : Z) :
  is_ready s = true ->
  clock_frequency s = F32.of_Z clock_hz ->
  clock_hz <= 4000000000 ->
  1 <= freq -> 1000 * freq <= clock_hz -> freq * freq <= clock_hz ->
  0 <= dutyfactor <= 100 ->
  exists f d,
    set_then_get fu lu s freq dutyfactor = Some (f, d) /\
    Z.abs (f - freq) <= 1 /\ Z.abs (d - dutyfactor) <= 1 /\
    freq <= f.
Proof.
  intros R C Hc Hf Hcf Hff Hd.
  rewrite (set_then_get_ready fu lu s freq dutyfactor R), C.
  destruct (roundtrip_general fu lu clock_hz freq dutyfactor Hf Hcf Hff Hc Hd)
    as (f & d & E & Hfr & Hdu).
  exists f, d. split; [exact E |]. split; [lia |]. split; lia.
Qed.

(** C2 (as stated) fails: 24 MHz is within [1, clock/4] for the 100 MHz
    clock, the period count 100/24 - 2 is stored as 2, and the frequency read
    back is 25 MHz. *)
Lemma PWM_roundtrip_fails_at_24MHz :
  1 <= 24000000 <= AXI_CLOCK_FREQ_HZ / 4 /\
  set_then_get unspecified_zero unspecified_zero pwm_initialized 24000000 100
    = Some (25000000, 100).
Proof. split; [vm_compute; split; discriminate | vm_compute; reflexivity]. Qed.

(** The condition [freq * freq <= clock] is sufficient, not sharp: with the
    100 MHz clock the round trip still holds at 12281 Hz for every duty, and
    fails at 12282 Hz, where the period count 8139 is read back as
    12284 Hz. *)
Lemma PWM_roundtrip_limit_100MHz :
  forallb (roundtrip_within_one unspecified_zero unspecified_zero
             (F32.of_Z AXI_CLOCK_FREQ_HZ) 12281) (Z_range 0 101) = true /\
  roundtrip unspecified_zero unspecified_zero (F32.of_Z AXI_CLOCK_FREQ_HZ) 12282 50
    = Some (12284, 50).
Proof. split; vm_compute; reflexivity. Qed.

Lemma div_by_zero x : nan_or_inf (GetParams_pwm_dc (S754_zero false) x) = true.
Proof. destruct x as [s | s | | s m e]; reflexivity. Qed.

Lemma duty_arg_by_zero x : lroundf_defined (GetParams_duty_arg (S754_zero false) x) = None.
Proof.
  unfold GetParams_duty_arg, GetParams_pwm_dc.
  destruct x as [s | s | | s m e]; try reflexivity; destruct s; reflexivity.
Qed.

(** C10: when the period load register holds 0, [PWM_GetParams] divides by
    a zero [tlr0]: the quotient is a NaN or an infinity, the duty stored is
    whatever [lroundf] delivers for it, and the function still returns
    [XST_SUCCESS].  The state is reachable: the registers are 0 after
    [PWM_Initialize], and [PWM_SetParams] with half the clock frequency
    succeeds and stores a period count of 0. *)
Theorem PWM_GetParams_zero_period (lu : float -> Z) (s : PwmState) :
  is_ready s = true -> TLR0 (hw s) = 0 ->
  let tlr0 := F32.of_Z (TLR0 (hw s)) in
  let tlr1 := F32.of_Z (TLR1 (hw s)) in
  tlr0 = S754_zero false /\
  nan_or_inf (GetParams_pwm_dc tlr0 tlr1) = true /\
  lroundf_defined (GetParams_duty_arg tlr0 tlr1) = None /\
  fst (fst (PWM_GetParams lu s)) = XST_SUCCESS /\
  snd (PWM_GetParams lu s) =
    Some (u32 (lroundf lu (GetParams_freq_arg (clock_frequency s) tlr0)),
          u32 (s32 (lu (GetParams_duty_arg tlr0 tlr1)))) /\
  TLR0 (hw pwm_initialized) = 0 /\
  PWM_SetParams unspecified_zero pwm_initialized (AXI_CLOCK_FREQ_HZ / 2) 50
    = (XST_SUCCESS, snd (PWM_SetParams unspecified_zero pwm_initialized (AXI_CLOCK_FREQ_HZ / 2) 50)) /\
  TLR0 (hw (snd (PWM_SetParams unspecified_zero pwm_initialized (AXI_CLOCK_FREQ_HZ / 2) 50))) = 0.
Proof.
  intros R Z0 tlr0 tlr1.
  assert (E0 : tlr0 = S754_zero false) by (unfold tlr0; rewrite Z0; reflexivity).
  destruct (PWM_GetParams_ready lu s R) as (Es & Eo & _).
  split; [exact E0 |].
  split; [rewrite E0; apply div_by_zero |].
  split; [rewrite E0; apply duty_arg_by_zero |].
  split; [exact Es |].
  split.
  - rewrite Eo. unfold decode_load_registers. fold tlr0 tlr1. f_equal. f_equal. f_equal.
    unfold lroundf. rewrite E0, duty_arg_by_zero. reflexivity.
  - split; [reflexivity |]. split; vm_compute; reflexivity.
Qed.

(** ** The control/status registers in reachable states *)

(** Every register write keeps the enable-all bit out of both registers. *)
Lemma csr_wf_write h n r v : csr_wf h -> csr_wf (XTmrCtr_WriteReg h n r v).
Proof.
  intros [H0 H1]. unfold XTmrCtr_WriteReg, csr_wf.
  destruct r; [| destruct n; cbn [TCSR0 TCSR1]; auto].
  assert (K : forall x, Z.testbit x 10 = false ->
            Z.testbit (if Z.testbit v 10 then Z.lor x XTC_CSR_ENABLE_TMR_MASK else x) 10 = false).
  { intros x Hx. destruct (Z.testbit v 10); [| exact Hx].
    rewrite Z.lor_spec, Hx. reflexivity. }
  assert (Kept : Z.testbit (Z.ldiff (u32 v) XTC_CSR_ENABLE_ALL_MASK) 10 = false).
  { rewrite Z.ldiff_spec. change (Z.testbit XTC_CSR_ENABLE_ALL_MASK 10) with true.
    apply andb_false_r. }
  destruct n; cbn [TCSR0 TCSR1]; split; apply K; assumption.
Qed.

Lemma csr_wf_read h n r : csr_wf h -> csr_wf (snd (XTmrCtr_ReadReg h n r)).
Proof. intros H. exact H. Qed.

Lemma csr_wf_Disable h n : csr_wf h -> csr_wf (XTmrCtr_Disable h n).
Proof.
  intros H. unfold XTmrCtr_Disable.
  destruct (XTmrCtr_ReadReg h n XTC_TCSR_OFFSET) as [c h1] eqn:E.
  apply csr_wf_write. change h1 with (snd (c, h1)). rewrite <- E. apply csr_wf_read, H.
Qed.

Lemma csr_wf_Load h n : csr_wf h -> csr_wf (XTmrCtr_LoadTimerCounterReg h n).
Proof.
  intros H. unfold XTmrCtr_LoadTimerCounterReg.
  destruct (XTmrCtr_ReadReg h n XTC_TCSR_OFFSET) as [c h1] eqn:E.
  apply csr_wf_write. change h1 with (snd (c, h1)). rewrite <- E. apply csr_wf_read, H.
Qed.

Lemma csr_wf_Stop s : csr_wf (hw s) -> csr_wf (hw (snd (PWM_Stop s))).
Proof.
  intros H. unfold PWM_Stop. destruct (negb (is_ready s)); [exact H |].
  cbn [snd with_hw hw]. apply csr_wf_Disable, csr_wf_Disable, H.
Qed.

Lemma csr_wf_Start s : csr_wf (hw s) -> csr_wf (hw (snd (PWM_Start s))).
Proof.
  intros H. unfold PWM_Start. destruct (negb (is_ready s)); [exact H |].
  unfold XTmrCtr_GetControlStatusReg, XTmrCtr_SetControlStatusReg.
  cbn [snd with_hw hw].
  repeat first [apply csr_wf_write | apply csr_wf_read | apply csr_wf_Load].
  exact H.
Qed.

Lemma csr_wf_Initialize s id en clk :
  csr_wf (hw s) -> csr_wf (hw (snd (PWM_Initialize s id en clk))).
Proof.
  intros H. unfold PWM_Initialize, XTmrCtr_Initialize.
  destruct (negb (id =? XPAR_TMRCTR_0_DEVICE_ID)); [exact H |].
  destruct (_ || _); [exact H |].
  cbn [snd hw]. unfold XTmrCtr_SetControlStatusReg.
  repeat apply csr_wf_write. exact H.
Qed.

Lemma csr_wf_SetParams fu s freq dutyfactor :
  csr_wf (hw s) -> csr_wf (hw (snd (PWM_SetParams fu s freq dutyfactor))).
Proof.
  intros H. unfold PWM_SetParams.
  destruct (negb (is_ready s)); [exact H |].
  destruct (dutyfactor >? 100); [exact H |].
  destruct (_ || _); [exact H |].
  pose proof (csr_wf_Stop s H) as K. destruct (PWM_Stop s) as [st s1].
  cbn [snd with_hw hw] in *. unfold XTmrCtr_SetLoadReg. repeat apply csr_wf_write. exact K.
Qed.

Lemma csr_wf_GetParams lu s :
  csr_wf (hw s) -> csr_wf (hw (snd (fst (PWM_GetParams lu s)))).
Proof.
  intros H. unfold PWM_GetParams.
  destruct (negb (is_ready s)); [exact H |].
  pose proof (csr_wf_Stop s H) as K. destruct (PWM_Stop s) as [st s1].
  cbn [snd] in K. exact K.
Qed.

(** Hence [csr_wf] holds in every state the driver can reach. *)
Lemma pwm_reachable_csr_wf s : pwm_reachable s -> csr_wf (hw s).
Proof.
  induction 1.
  - split; reflexivity.
  - apply csr_wf_Initialize; assumption.
  - apply csr_wf_Start; assumption.
  - apply csr_wf_Stop; assumption.
  - apply csr_wf_SetParams; assumption.
  - apply csr_wf_GetParams; assumption.
Qed.

(** ** The theorems at work on the driver as the program sets it up *)

Lemma PWM_SetParams_outcome_witness :
  is_ready pwm_initialized = true /\
  fst (PWM_SetParams unspecified_zero pwm_initialized 50 101) = XST_INVALID_PARAM /\
  fst (PWM_SetParams unspecified_zero pwm_initialized 0 7) = XST_INVALID_PARAM /\
  fst (PWM_SetParams unspecified_zero pwm_initialized 50 7) = XST_SUCCESS.
Proof.
  split; [reflexivity |]. split; [| split].
  - apply (proj1 (PWM_SetParams_outcome unspecified_zero pwm_initialized 50 101 eq_refl)).
    reflexivity.
  - destruct (PWM_SetParams_outcome unspecified_zero pwm_initialized 0 7 eq_refl)
      as (_ & _ & _ & _ & H).
    destruct (H 100000000 eq_refl ltac:(lia) ltac:(lia)) as (H0 & _).
    exact (H0 eq_refl).
  - destruct (PWM_SetParams_outcome unspecified_zero pwm_initialized 50 7 eq_refl)
      as (_ & _ & _ & _ & H).
    destruct (H 100000000 eq_refl ltac:(lia) ltac:(lia)) as (_ & H1 & _).
    apply H1; lia.
Defined.

(** C3 (as stated) fails: with a clock of 4294967295 Hz, a frequency of 1 Hz
    and a duty of 50 the count clock/freq - 2 is 4294967293, which does not
    exceed 2^32 - 1, and the duty is valid, yet the call is rejected: the
    clock is kept in binary32, where it is 2^32, and the count the code
    computes from it is 2^32 as well. *)
Lemma PWM_SetParams_rejects_count_in_range :
  is_ready pwm_initialized_max_clock = true /\
  clock_frequency pwm_initialized_max_clock = F32.of_Z 4294967295 /\
  4294967295 / 1 - 2 <= 2 ^ 32 - 1 /\ 50 <= 100 /\
  fst (PWM_SetParams unspecified_zero pwm_initialized_max_clock 1 50) = XST_INVALID_PARAM /\
  Ztrunc_float (SetParams_tlr0 (F32.of_Z 4294967295) 1) = Some (2 ^ 32).
Proof.
  split; [reflexivity |]. split; [reflexivity |].
  split; [vm_compute; discriminate |]. split; [lia |].
  split; vm_compute; reflexivity.
Qed.

(** Rejections for range: a frequency of 0 makes the period count infinite;
    with a clock of 2^32 - 128 Hz or more and 1 Hz the count rounds to 2^32
    in binary32, with 2^32 - 129 Hz it does not.  A frequency above the clock
    is accepted although the period count is negative, and so is a duty
    whose count is negative, which is stored as 0. *)
Lemma PWM_SetParams_range_examples :
  fst (PWM_SetParams unspecified_zero pwm_initialized 0 50) = XST_INVALID_PARAM /\
  SetParams_tlr0 (clock_frequency pwm_initialized) 0 = S754_infinity false /\
  fst (PWM_SetParams unspecified_zero pwm_initialized_max_clock 1 50) = XST_INVALID_PARAM /\
  Ztrunc_float (SetParams_tlr0 (clock_frequency pwm_initialized_max_clock) 1) = Some (2 ^ 32) /\
  SetParams_rejects (F32.of_Z 4294967168) 1 50 = true /\
  SetParams_rejects (F32.of_Z 4294967167) 1 50 = false /\
  fst (PWM_SetParams unspecified_zero pwm_initialized 200000000 50) = XST_SUCCESS /\
  flt (SetParams_tlr0 (clock_frequency pwm_initialized) 200000000) (F32.of_Z 0) = true /\
  fst (PWM_SetParams unspecified_zero pwm_initialized 50000000 50) = XST_SUCCESS /\
  flt (SetParams_tlr1_raw (clock_frequency pwm_initialized) 50000000 50) (F32.of_Z 0) = true /\
  TLR1 (hw (snd (PWM_SetParams unspecified_zero pwm_initialized 50000000 50))) = 0.
Proof. repeat split; vm_compute; reflexivity. Qed.

Lemma PWM_SetParams_failure_atomic_witness :
  snd (PWM_SetParams unspecified_zero pwm_started 50 101) = pwm_started.
Proof.
  apply (PWM_SetParams_failure_atomic unspecified_zero pwm_started 50 101).
  vm_compute. discriminate.
Defined.

Lemma PWM_SetParams_twice_witness :
  Running pwm_started /\
  Stopped (snd (PWM_SetParams unspecified_zero pwm_started 50 8)).
Proof.
  split; [repeat split; reflexivity |].
  assert (R : is_ready pwm_started = true) by reflexivity.
  assert (W : csr_wf (hw pwm_started)) by (split; reflexivity).
  apply (PWM_SetParams_twice unspecified_zero pwm_started 50 8 R W). reflexivity.
Defined.

(** C7 (as stated) fails: the started driver is running; a call with a duty
    of 101 is rejected, and after it the driver is still running, not
    stopped. *)
Lemma PWM_SetParams_rejected_not_stopped :
  Running pwm_started /\
  fst (PWM_SetParams unspecified_zero pwm_started 50 101) = XST_INVALID_PARAM /\
  ~ Stopped (snd (PWM_SetParams unspecified_zero pwm_started 50 101)).
Proof.
  split; [repeat split; reflexivity |]. split; [reflexivity |].
  intros (_ & H & _). vm_compute in H. discriminate H.
Qed.

Lemma PWM_not_initialized_witness :
  is_ready pwm_reset = false /\ PWM_Start pwm_reset = (XST_FAILURE, pwm_reset).
Proof.
  split; [reflexivity |].
  apply (PWM_not_initialized unspecified_zero unspecified_zero pwm_reset 50 7 eq_refl).
Defined.

Lemma PWM_roundtrip_within_one_witness :
  exists f d,
    set_then_get unspecified_zero unspecified_zero pwm_initialized 50 7 = Some (f, d) /\
    Z.abs (f - 50) <= 1 /\ Z.abs (d - 7) <= 1 /\ 50 <= f.
Proof.
  apply (PWM_roundtrip_within_one unspecified_zero unspecified_zero pwm_initialized
           100000000 50 7);
    [reflexivity | reflexivity | lia | lia | lia | lia | lia].
Defined.

Lemma PWM_GetParams_zero_period_witness :
  TLR0 (hw pwm_initialized) = 0 /\
  fst (fst (PWM_GetParams unspecified_zero pwm_initialized)) = XST_SUCCESS.
Proof.
  split; [reflexivity |].
  apply (PWM_GetParams_zero_period unspecified_zero pwm_initialized eq_refl eq_refl).
Defined.

(** The program's own setting survives the round trip exactly. *)
Lemma PWM_roundtrip_neutral :
  set_then_get unspecified_zero unspecified_zero pwm_initialized
    SERVO_NEUTRAL_FREQ SERVO_NEUTRAL_DUTY = Some (50, 7).
Proof. vm_compute. reflexivity. Qed.

(** At a quarter of the clock the period count is 2 and the duty count 0: a
    duty of 50 comes back as 0. *)
Lemma PWM_roundtrip_quarter_clock :
  set_then_get unspecified_zero unspecified_zero pwm_initialized
    (AXI_CLOCK_FREQ_HZ / 4) 50 = Some (25000000, 0).
Proof. vm_compute. reflexivity. Qed.

(** * Further properties *)

(** ** Register-level effects of the driver *)

Lemma testbit_u32_full z n : Z.testbit (u32 z) n = (n <? 32) && Z.testbit z n.
Proof. unfold u32. apply Z.testbit_mod_pow2. lia. Qed.

Ltac mask_bits :=
  change XTC_CSR_ENABLE_ALL_MASK with (2 ^ 10);
  change XTC_CSR_ENABLE_TMR_MASK with (2 ^ 7);
  change XTC_CSR_LOAD_MASK with (2 ^ 5);
  change 0xFFFFFFDF with (Z.ldiff (Z.ones 32) (2 ^ 5));
  repeat first
    [ rewrite Z.lor_spec | rewrite Z.land_spec | rewrite Z.ldiff_spec
    | rewrite testbit_u32_full | rewrite Z.pow2_bits_eqb by lia
    | rewrite Z.testbit_ones by lia ].

Ltac bits_eq :=
  apply Z.bits_inj'; intros n Hn; mask_bits;
  destruct (Z.eqb_spec 10 n); destruct (Z.eqb_spec 7 n); destruct (Z.eqb_spec 5 n);
  destruct (Z.ltb_spec n 32); destruct (Z.leb_spec 0 n);
  try lia; subst;
  repeat match goal with |- context [Z.testbit ?c ?n] => destruct (Z.testbit c n) end;
  reflexivity.

Lemma WriteReg_TCSR_plain h n v :
  Z.testbit v 10 = false ->
  XTmrCtr_WriteReg h n XTC_TCSR_OFFSET v =
    match n with
    | PWM_PERIOD_TIMER =>
        mkHw (Z.ldiff (u32 v) XTC_CSR_ENABLE_ALL_MASK) (TCSR1 h) (TLR0 h) (TLR1 h)
             (bus h ++ [BusWrite n XTC_TCSR_OFFSET (u32 v)])
    | PWM_DUTY_TIMER =>
        mkHw (TCSR0 h) (Z.ldiff (u32 v) XTC_CSR_ENABLE_ALL_MASK) (TLR0 h) (TLR1 h)
             (bus h ++ [BusWrite n XTC_TCSR_OFFSET (u32 v)])
    end.
Proof. intros H. unfold XTmrCtr_WriteReg. rewrite H. destruct n; reflexivity. Qed.

Lemma WriteReg_TCSR_all h v :
  Z.testbit v 10 = true ->
  XTmrCtr_WriteReg h PWM_PERIOD_TIMER XTC_TCSR_OFFSET v =
    mkHw (Z.lor (Z.ldiff (u32 v) XTC_CSR_ENABLE_ALL_MASK) XTC_CSR_ENABLE_TMR_MASK)
         (Z.lor (TCSR1 h) XTC_CSR_ENABLE_TMR_MASK) (TLR0 h) (TLR1 h)
         (bus h ++ [BusWrite PWM_PERIOD_TIMER XTC_TCSR_OFFSET (u32 v)]).
Proof. intros H. unfold XTmrCtr_WriteReg. rewrite H. reflexivity. Qed.

Lemma XTmrCtr_Disable_eq h n :
  csr_wf h ->
  XTmrCtr_Disable h n =
    match n with
    | PWM_PERIOD_TIMER =>
        mkHw (stop_csr (TCSR0 h)) (TCSR1 h) (TLR0 h) (TLR1 h)
          ((bus h ++ [BusRead n XTC_TCSR_OFFSET]) ++
           [BusWrite n XTC_TCSR_OFFSET (u32 (Z.ldiff (TCSR0 h) XTC_CSR_ENABLE_TMR_MASK))])
    | PWM_DUTY_TIMER =>
        mkHw (TCSR0 h) (stop_csr (TCSR1 h)) (TLR0 h) (TLR1 h)
          ((bus h ++ [BusRead n XTC_TCSR_OFFSET]) ++
           [BusWrite n XTC_TCSR_OFFSET (u32 (Z.ldiff (TCSR1 h) XTC_CSR_ENABLE_TMR_MASK))])
    end.
Proof.
  intros [H0 H1]. unfold XTmrCtr_Disable, XTmrCtr_ReadReg.
  destruct n; rewrite WriteReg_TCSR_plain by (mask_bits; rewrite ?H0, ?H1; reflexivity);
    reflexivity.
Qed.

Lemma stop_csr_bits c :
  Z.testbit (stop_csr c) 7 = false /\ Z.testbit (stop_csr c) 10 = false.
Proof. unfold stop_csr. split; mask_bits; cbn; rewrite ?andb_false_r; reflexivity. Qed.

Lemma stop_csr_idem c : stop_csr (stop_csr c) = stop_csr c.
Proof. unfold stop_csr. bits_eq. Qed.

Lemma stopped_hw_eq h :
  csr_wf h ->
  stopped_hw h =
    mkHw (stop_csr (TCSR0 h)) (stop_csr (TCSR1 h)) (TLR0 h) (TLR1 h)
      ((((bus h ++ [BusRead PWM_PERIOD_TIMER XTC_TCSR_OFFSET]) ++
         [BusWrite PWM_PERIOD_TIMER XTC_TCSR_OFFSET
            (u32 (Z.ldiff (TCSR0 h) XTC_CSR_ENABLE_TMR_MASK))]) ++
        [BusRead PWM_DUTY_TIMER XTC_TCSR_OFFSET]) ++
       [BusWrite PWM_DUTY_TIMER XTC_TCSR_OFFSET
          (u32 (Z.ldiff (TCSR1 h) XTC_CSR_ENABLE_TMR_MASK))]).
Proof.
  intros W. unfold stopped_hw.
  rewrite (XTmrCtr_Disable_eq h PWM_PERIOD_TIMER W).
  rewrite XTmrCtr_Disable_eq.
  - reflexivity.
  - destruct W as [_ H1]. split; [apply stop_csr_bits | exact H1].
Qed.

Ltac bit10 H0 H1 :=
  mask_bits; rewrite ?H0, ?H1; cbn; rewrite ?andb_false_r, ?orb_true_r; reflexivity.

Ltac resolve_enable_all H0 H1 :=
  repeat match goal with
         | |- context [if Z.testbit ?v 10 then _ else _] =>
             first
               [ let K := fresh "K" in
                 assert (K : Z.testbit v 10 = false) by bit10 H0 H1;
                 rewrite !K; clear K
               | let K := fresh "K" in
                 assert (K : Z.testbit v 10 = true) by bit10 H0 H1;
                 rewrite !K; clear K ]
         end.

Lemma PWM_Start_registers s :
  is_ready s = true -> csr_wf (hw s) ->
  let s' := snd (PWM_Start s) in
  fst (PWM_Start s) = XST_SUCCESS /\
  TCSR0 (hw s') = start_csr (TCSR0 (hw s)) /\
  TCSR1 (hw s') = start_csr (TCSR0 (hw s)) /\
  TLR0 (hw s') = TLR0 (hw s) /\ TLR1 (hw s') = TLR1 (hw s) /\
  Instance s' = Instance s /\ clock_frequency s' = clock_frequency s.
Proof.
  intros R W. unfold PWM_Start. rewrite R. cbn [negb].
  destruct s as [inst [c0 c1 l0 l1 b] clk]. destruct W as [H0 H1].
  cbn [hw TCSR0 TCSR1] in H0, H1.
  cbn [XTmrCtr_LoadTimerCounterReg XTmrCtr_GetControlStatusReg
       XTmrCtr_SetControlStatusReg XTmrCtr_ReadReg XTmrCtr_WriteReg
       hw TCSR0 TCSR1 TLR0 TLR1 bus fst snd with_hw Instance clock_frequency].
  resolve_enable_all H0 H1.
  cbn [hw TCSR0 TCSR1 TLR0 TLR1 bus fst snd with_hw Instance clock_frequency].
  split; [reflexivity |].
  split; [unfold start_csr; bits_eq |].
  split; [unfold start_csr; bits_eq |].
  auto.
Qed.

Lemma start_csr_bits c :
  Z.testbit (start_csr c) 7 = true /\ Z.testbit (start_csr c) 10 = false /\
  Z.testbit (start_csr c) 5 = false.
Proof.
  unfold start_csr. repeat split; mask_bits; cbn;
    rewrite ?andb_false_r, ?orb_true_r, ?orb_false_r; reflexivity.
Qed.

Lemma PWM_Stop_registers s :
  is_ready s = true -> csr_wf (hw s) ->
  let s' := snd (PWM_Stop s) in
  fst (PWM_Stop s) = XST_SUCCESS /\
  TCSR0 (hw s') = stop_csr (TCSR0 (hw s)) /\
  TCSR1 (hw s') = stop_csr (TCSR1 (hw s)) /\
  TLR0 (hw s') = TLR0 (hw s) /\ TLR1 (hw s') = TLR1 (hw s) /\
  Instance s' = Instance s /\ clock_frequency s' = clock_frequency s.
Proof.
  intros R W. rewrite (PWM_Stop_ready s R). cbn [fst snd with_hw hw Instance clock_frequency].
  rewrite (stopped_hw_eq (hw s) W). cbn [TCSR0 TCSR1 TLR0 TLR1]. repeat split; reflexivity.
Qed.

Lemma PWM_Start_ok s :
  usable s ->
  usable (snd (PWM_Start s)) /\ Running (snd (PWM_Start s)).
Proof.
  intros [R W].
  destruct (PWM_Start_registers s R W) as (_ & E0 & E1 & _ & _ & Ei & _).
  destruct (start_csr_bits (TCSR0 (hw s))) as (B7 & B10 & _).
  assert (R1 : is_ready (snd (PWM_Start s)) = true) by (unfold is_ready; rewrite Ei; exact R).
  unfold usable, Running, csr_wf, timer_enabled. rewrite E0, E1. auto 10.
Qed.

Lemma PWM_Stop_ok s :
  usable s ->
  usable (snd (PWM_Stop s)) /\ Stopped (snd (PWM_Stop s)).
Proof.
  intros [R W].
  destruct (PWM_Stop_registers s R W) as (_ & E0 & E1 & _ & _ & Ei & _).
  destruct (stop_csr_bits (TCSR0 (hw s))) as (A7 & A10).
  destruct (stop_csr_bits (TCSR1 (hw s))) as (B7 & B10).
  assert (R1 : is_ready (snd (PWM_Stop s)) = true) by (unfold is_ready; rewrite Ei; exact R).
  unfold usable, Stopped, csr_wf, timer_enabled. rewrite E0, E1. auto 10.
Qed.

(** X2: [PWM_Start] on an initialised driver succeeds and leaves both timers
    enabled with the load bit cleared and the load registers untouched; the
    duty timer's control register ends up a copy of the period timer's,
    whatever it held before (the function reads the period timer's register
    both times). *)
Theorem PWM_Start_running (s : PwmState) :
  is_ready s = true -> csr_wf (hw s) ->
  let s' := snd (PWM_Start s) in
  fst (PWM_Start s) = XST_SUCCESS /\
  Running s' /\
  TCSR1 (hw s') = TCSR0 (hw s') /\
  Z.testbit (TCSR0 (hw s')) 5 = false /\
  TLR0 (hw s') = TLR0 (hw s) /\ TLR1 (hw s') = TLR1 (hw s).
Proof.
  intros R W s'.
  destruct (PWM_Start_registers s R W) as (Es & E0 & E1 & L0 & L1 & _).
  fold s' in E0, E1, L0, L1.
  destruct (PWM_Start_ok s (conj R W)) as (_ & Run). fold s' in Run.
  destruct (start_csr_bits (TCSR0 (hw s))) as (_ & _ & B5).
  rewrite E0, E1. auto 10.
Qed.

Lemma PWM_Start_running_witness :
  is_ready pwm_initialized = true /\ csr_wf (hw pwm_initialized) /\
  Running (snd (PWM_Start pwm_initialized)).
Proof.
  assert (R : is_ready pwm_initialized = true) by reflexivity.
  assert (W : csr_wf (hw pwm_initialized)) by (split; reflexivity).
  split; [exact R |]. split; [exact W |].
  apply (PWM_Start_running pwm_initialized R W).
Defined.

(** X3: [PWM_Stop] on an initialised driver succeeds, leaves the driver stopped
    and the load registers untouched, and a second [PWM_Stop] changes no
    register. *)
Theorem PWM_Stop_idempotent (s : PwmState) :
  is_ready s = true -> csr_wf (hw s) ->
  let s1 := snd (PWM_Stop s) in
  let s2 := snd (PWM_Stop s1) in
  fst (PWM_Stop s) = XST_SUCCESS /\ fst (PWM_Stop s1) = XST_SUCCESS /\
  Stopped s1 /\
  TCSR0 (hw s2) = TCSR0 (hw s1) /\ TCSR1 (hw s2) = TCSR1 (hw s1) /\
  TLR0 (hw s1) = TLR0 (hw s) /\ TLR1 (hw s1) = TLR1 (hw s) /\
  TLR0 (hw s2) = TLR0 (hw s) /\ TLR1 (hw s2) = TLR1 (hw s).
Proof.
  intros R W s1 s2.
  destruct (PWM_Stop_registers s R W) as (Es & E0 & E1 & L0 & L1 & _).
  destruct (PWM_Stop_ok s (conj R W)) as ([R1 W1] & St).
  fold s1 in E0, E1, L0, L1, R1, W1, St.
  destruct (PWM_Stop_registers s1 R1 W1) as (Es' & F0 & F1 & M0 & M1 & _).
  fold s2 in F0, F1, M0, M1.
  rewrite F0, F1, E0, E1, !stop_csr_idem, M0, M1, L0, L1. auto 12.
Qed.

Lemma PWM_Stop_idempotent_witness :
  Running pwm_started /\ Stopped (snd (PWM_Stop pwm_started)).
Proof.
  assert (R : is_ready pwm_started = true) by reflexivity.
  assert (W : csr_wf (hw pwm_started)) by (split; reflexivity).
  split; [repeat split; reflexivity |].
  apply (PWM_Stop_idempotent pwm_started R W).
Defined.

(** X4: [PWM_Stop] after [PWM_Start] leaves the driver stopped, [PWM_Start]
    after [PWM_Stop] leaves it running, and the load registers survive a
    start followed by a stop. *)
Theorem PWM_Start_Stop_compose (s : PwmState) :
  is_ready s = true -> csr_wf (hw s) ->
  Stopped (snd (PWM_Stop (snd (PWM_Start s)))) /\
  Running (snd (PWM_Start (snd (PWM_Stop s)))) /\
  TLR0 (hw (snd (PWM_Stop (snd (PWM_Start s))))) = TLR0 (hw s) /\
  TLR1 (hw (snd (PWM_Stop (snd (PWM_Start s))))) = TLR1 (hw s).
Proof.
  intros R W.
  destruct (PWM_Start_ok s (conj R W)) as ([R1 W1] & _).
  destruct (PWM_Stop_ok _ (conj R1 W1)) as (_ & St).
  destruct (PWM_Stop_ok s (conj R W)) as (U2 & _).
  destruct (PWM_Start_ok _ U2) as (_ & Run).
  destruct (PWM_Start_registers s R W) as (_ & _ & _ & L0 & L1 & _).
  destruct (PWM_Stop_registers _ R1 W1) as (_ & _ & _ & M0 & M1 & _).
  rewrite M0, M1, L0, L1. auto.
Qed.

Lemma PWM_Start_Stop_compose_witness :
  Stopped (snd (PWM_Stop (snd (PWM_Start pwm_initialized)))).
Proof.
  assert (R : is_ready pwm_initialized = true) by reflexivity.
  assert (W : csr_wf (hw pwm_initialized)) by (split; reflexivity).
  apply (PWM_Start_Stop_compose pwm_initialized R W).
Defined.

(** X5: reading the parameters is not free of effects: [PWM_GetParams] on an
    initialised driver leaves it stopped, even if it was running; it leaves
    the load registers untouched, so a second call stores the same two
    values. *)
Theorem PWM_GetParams_stops (lu : float -> Z) (s : PwmState) :
  is_ready s = true -> csr_wf (hw s) ->
  let r := PWM_GetParams lu s in
  let s' := snd (fst r) in
  fst (fst r) = XST_SUCCESS /\
  Stopped s' /\
  TLR0 (hw s') = TLR0 (hw s) /\ TLR1 (hw s') = TLR1 (hw s) /\
  snd (PWM_GetParams lu s') = snd r.
Proof.
  intros R W r s'.
  destruct (PWM_GetParams_ready lu s R) as (Es & Eo & L0 & L1).
  fold r in Es, Eo. fold r s' in L0, L1.
  assert (Hs' : s' = with_hw (snd (PWM_Stop s))
                  (snd (XTmrCtr_GetLoadReg
                          (snd (XTmrCtr_GetLoadReg (hw (snd (PWM_Stop s))) PWM_PERIOD_TIMER))
                          PWM_DUTY_TIMER))).
  { unfold s', r, PWM_GetParams. rewrite R. cbn [negb].
    destruct (PWM_Stop s) as [st s1]. reflexivity. }
  destruct (PWM_Stop_ok s (conj R W)) as ([R1 W1] & St).
  assert (Ec : clock_frequency s' = clock_frequency s).
  { rewrite Hs'. cbn [with_hw clock_frequency].
    destruct (PWM_Stop_registers s R W) as (_ & _ & _ & _ & _ & _ & Ec). exact Ec. }
  assert (St' : Stopped s').
  { rewrite Hs'. exact St. }
  split; [exact Es |]. split; [exact St' |]. split; [exact L0 |]. split; [exact L1 |].
  destruct St' as (R' & _).
  destruct (PWM_GetParams_ready lu s' R') as (_ & Eo' & _).
  rewrite Eo', Eo, L0, L1, Ec. reflexivity.
Qed.

Lemma PWM_GetParams_stops_witness :
  Running pwm_started /\
  Stopped (snd (fst (PWM_GetParams unspecified_zero pwm_started))).
Proof.
  assert (R : is_ready pwm_started = true) by reflexivity.
  assert (W : csr_wf (hw pwm_started)) by (split; reflexivity).
  split; [repeat split; reflexivity |].
  apply (PWM_GetParams_stops unspecified_zero pwm_started R W).
Defined.

(** X6: an accepted [PWM_SetParams] makes exactly six register accesses, in
    this order: read and write of the period timer's control register and of
    the duty timer's, both writes with the enable bit cleared, then the write
    of the period load register and of the duty load register. *)
Theorem PWM_SetParams_access_order (fu : float -> Z) (s : PwmState) (freq dutyfactor : Z) :
  is_ready s = true -> csr_wf (hw s) ->
  fst (PWM_SetParams fu s freq dutyfactor) = XST_SUCCESS ->
  bus (hw (snd (PWM_SetParams fu s freq dutyfactor))) =
    bus (hw s) ++
    [ BusRead PWM_PERIOD_TIMER XTC_TCSR_OFFSET;
      BusWrite PWM_PERIOD_TIMER XTC_TCSR_OFFSET
        (u32 (Z.ldiff (TCSR0 (hw s)) XTC_CSR_ENABLE_TMR_MASK));
      BusRead PWM_DUTY_TIMER XTC_TCSR_OFFSET;
      BusWrite PWM_DUTY_TIMER XTC_TCSR_OFFSET
        (u32 (Z.ldiff (TCSR1 (hw s)) XTC_CSR_ENABLE_TMR_MASK));
      BusWrite PWM_PERIOD_TIMER XTC_TLR_OFFSET
        (float_to_u32 fu (SetParams_tlr0 (clock_frequency s) freq));
      BusWrite PWM_DUTY_TIMER XTC_TLR_OFFSET
        (float_to_u32 fu (SetParams_tlr1 (clock_frequency s) freq dutyfactor)) ].
Proof.
  intros R W. rewrite (PWM_SetParams_ready fu s freq dutyfactor R).
  destruct (SetParams_rejects _ _ _); [intros H; discriminate H | intros _].
  cbn [snd with_hw hw]. rewrite (stopped_hw_eq (hw s) W).
  unfold XTmrCtr_SetLoadReg, XTmrCtr_WriteReg. cbn [bus TCSR0 TCSR1 TLR0 TLR1].
  rewrite !u32_float_to_u32, <- !app_assoc. reflexivity.
Qed.

Lemma PWM_SetParams_access_order_witness :
  exists l,
    bus (hw (snd (PWM_SetParams unspecified_zero pwm_started 50 8)))
      = bus (hw pwm_started) ++ l /\
    length l = 6%nat.
Proof.
  assert (R : is_ready pwm_started = true) by reflexivity.
  assert (W : csr_wf (hw pwm_started)) by (split; reflexivity).
  eexists. split.
  - apply (PWM_SetParams_access_order unspecified_zero pwm_started 50 8 R W).
    reflexivity.
  - reflexivity.
Defined.

Lemma PWM_SetParams_accepted fu s freq dutyfactor :
  usable s -> fst (PWM_SetParams fu s freq dutyfactor) = XST_SUCCESS ->
  let s' := snd (PWM_SetParams fu s freq dutyfactor) in
  usable s' /\ Stopped s' /\
  TLR0 (hw s') = float_to_u32 fu (SetParams_tlr0 (clock_frequency s) freq) /\
  TLR1 (hw s') = float_to_u32 fu (SetParams_tlr1 (clock_frequency s) freq dutyfactor) /\
  clock_frequency s' = clock_frequency s.
Proof.
  intros [R W] Hs s'.
  destruct (PWM_SetParams_keeps fu s freq dutyfactor R W) as (R1 & W1 & C1).
  fold s' in R1, W1, C1.
  assert (E : PWM_SetParams fu s freq dutyfactor = (XST_SUCCESS, s')).
  { unfold s'. rewrite <- Hs. destruct (PWM_SetParams fu s freq dutyfactor); reflexivity. }
  rewrite (PWM_SetParams_ready fu s freq dutyfactor R) in E.
  destruct (SetParams_rejects _ _ _); [discriminate E |].
  injection E as E. 
  destruct (stopped_hw_disabled (hw s) W) as (D0 & D1 & _).
  rewrite <- E. cbn [with_hw hw clock_frequency].
  destruct (SetLoadReg_both (stopped_hw (hw s))
              (float_to_u32 fu (SetParams_tlr0 (clock_frequency s) freq))
              (float_to_u32 fu (SetParams_tlr1 (clock_frequency s) freq dutyfactor)))
    as (A0 & A1 & A2 & A3).
  cbv zeta in A0, A1, A2, A3.
  rewrite A0, A1, !u32_float_to_u32.
  assert (Rs : is_ready s' = true) by exact R1.
  split; [split; [exact R | rewrite E; exact W1] |].
  split; [| auto].
  unfold Stopped, timer_enabled. cbn [with_hw hw]. rewrite A2, A3. auto.
Qed.

(** X7: the sequence the program uses: after an accepted [PWM_SetParams] the
    driver is stopped, the following [PWM_Start] succeeds, and the driver then
    runs with exactly the two counts [PWM_SetParams] computed. *)
Theorem PWM_SetParams_then_Start (fu : float -> Z) (s : PwmState) (freq dutyfactor : Z) :
  is_ready s = true -> csr_wf (hw s) ->
  fst (PWM_SetParams fu s freq dutyfactor) = XST_SUCCESS ->
  let s1 := snd (PWM_SetParams fu s freq dutyfactor) in
  let s2 := snd (PWM_Start s1) in
  Stopped s1 /\
  fst (PWM_Start s1) = XST_SUCCESS /\
  Running s2 /\
  TLR0 (hw s2) = float_to_u32 fu (SetParams_tlr0 (clock_frequency s) freq) /\
  TLR1 (hw s2) = float_to_u32 fu (SetParams_tlr1 (clock_frequency s) freq dutyfactor).
Proof.
  intros R W Hs s1 s2.
  destruct (PWM_SetParams_accepted fu s freq dutyfactor (conj R W) Hs)
    as ([R1 W1] & St & L0 & L1 & _).
  fold s1 in R1, W1, St, L0, L1.
  destruct (PWM_Start_registers s1 R1 W1) as (Es & _ & _ & M0 & M1 & _).
  destruct (PWM_Start_ok s1 (conj R1 W1)) as (_ & Run).
  fold s2 in M0, M1, Run. rewrite M0, M1, L0, L1. auto.
Qed.

Lemma PWM_SetParams_then_Start_witness :
  Running (snd (PWM_Start (snd (PWM_SetParams unspecified_zero pwm_initialized 50 7)))).
Proof.
  assert (R : is_ready pwm_initialized = true) by reflexivity.
  assert (W : csr_wf (hw pwm_initialized)) by (split; reflexivity).
  apply (PWM_SetParams_then_Start unspecified_zero pwm_initialized 50 7 R W).
  reflexivity.
Defined.

(** X8: only [PWM_Initialize] changes the driver instance and the recorded
    clock frequency: [PWM_Start], [PWM_Stop], [PWM_SetParams] and
    [PWM_GetParams] leave both as they were, in every state and for all
    arguments. *)
Theorem PWM_clock_and_instance_kept (fu lu : float -> Z) (s : PwmState) (freq dutyfactor : Z) :
  (clock_frequency (snd (PWM_Start s)) = clock_frequency s /\
   Instance (snd (PWM_Start s)) = Instance s) /\
  (clock_frequency (snd (PWM_Stop s)) = clock_frequency s /\
   Instance (snd (PWM_Stop s)) = Instance s) /\
  (clock_frequency (snd (PWM_SetParams fu s freq dutyfactor)) = clock_frequency s /\
   Instance (snd (PWM_SetParams fu s freq dutyfactor)) = Instance s) /\
  (clock_frequency (snd (fst (PWM_GetParams lu s))) = clock_frequency s /\
   Instance (snd (fst (PWM_GetParams lu s))) = Instance s).
Proof.
  assert (St : clock_frequency (snd (PWM_Stop s)) = clock_frequency s /\
               Instance (snd (PWM_Stop s)) = Instance s).
  { unfold PWM_Stop. destruct (negb (is_ready s)); split; reflexivity. }
  split; [| split; [exact St | split]].
  - unfold PWM_Start. destruct (negb (is_ready s)); split; reflexivity.
  - unfold PWM_SetParams. destruct (negb (is_ready s)); [split; reflexivity |].
    destruct (dutyfactor >? 100); [split; reflexivity |].
    destruct (_ || _); [split; reflexivity |].
    destruct (PWM_Stop s) as [st s1]. exact St.
  - unfold PWM_GetParams. destruct (negb (is_ready s)); [split; reflexivity |].
    destruct (PWM_Stop s) as [st s1]. exact St.
Qed.

(** X1: when [PWM_Initialize] succeeds the instance is ready, both timers hold
    the same PWM control bits (interrupt enable only if asked for), neither is
    enabled, both load registers are 0 and the clock frequency is recorded;
    when it fails it returns the status of [XTmrCtr_Initialize] and leaves
    the state, the recorded clock included, as it was. *)
Theorem PWM_Initialize_outcome (s : PwmState) (DeviceId : Z) (EnableInterrupts : bool)
  (clkfreq : Z) :
  let r := PWM_Initialize s DeviceId EnableInterrupts clkfreq in
  (fst r = XST_SUCCESS ->
     is_ready (snd r) = true /\ Stopped (snd r) /\ csr_wf (hw (snd r)) /\
     TCSR0 (hw (snd r)) = PWM_ctlbits EnableInterrupts /\
     TCSR1 (hw (snd r)) = PWM_ctlbits EnableInterrupts /\
     Z.testbit (PWM_ctlbits EnableInterrupts) 6 = EnableInterrupts /\
     TLR0 (hw (snd r)) = 0 /\ TLR1 (hw (snd r)) = 0 /\
     clock_frequency (snd r) = F32.of_Z clkfreq) /\
  (fst r <> XST_SUCCESS ->
     snd r = s /\ (fst r = XST_DEVICE_NOT_FOUND \/ fst r = XST_DEVICE_IS_STARTED)).
Proof.
  cbv zeta. unfold PWM_Initialize, XTmrCtr_Initialize.
  destruct (negb (DeviceId =? XPAR_TMRCTR_0_DEVICE_ID)).
  { cbn [fst snd]. split; [intros H; discriminate H | auto]. }
  destruct (_ || _).
  { cbn [fst snd]. split; [intros H; discriminate H | auto]. }
  cbn [fst snd hw clock_frequency Instance].
  split; [intros _ | intros H; exfalso; apply H; reflexivity].
  destruct s as [inst [c0 c1 l0 l1 b] clk0].
  destruct EnableInterrupts; repeat split; reflexivity.
Qed.

Lemma PWM_Initialize_outcome_witness :
  fst (PWM_Initialize pwm_reset XPAR_TMRCTR_0_DEVICE_ID false AXI_CLOCK_FREQ_HZ)
    = XST_SUCCESS /\
  Stopped pwm_initialized.
Proof.
  split; [reflexivity |].
  destruct (PWM_Initialize_outcome pwm_reset XPAR_TMRCTR_0_DEVICE_ID false
              AXI_CLOCK_FREQ_HZ) as [H _].
  apply H. reflexivity.
Defined.

(** ** The main loop and the servo *)







(** When an interrupt changes [phase_diff] between the second and the third
    read, the duty applied and the phase difference remembered belong to
    different estimates: after the reads 25000, 25000, 1 the duty is 11 and
    [old_phase_diff] is 1, for which the policy gives 7; the servo keeps the
    duty 11 as long as the estimate stays 1. *)
Lemma main_loop_torn_read fu :
  let m := main_loop_body fu main_init (mkReads 25000 25000 1) in
  pwm_duty m = 11 /\ old_phase_diff m = 1 /\ steer_duty (old_phase_diff m) = 7 /\
  pwm_duty (main_loop_body fu m (single_read 1)) = 11.
Proof.
  cbv zeta.
  destruct (main_loop_body_duty fu main_init (mkReads 25000 25000 1)) as [E1 E2];
    [cbn; discriminate |].
  cbn [pd_duty pd_old] in E1, E2.
  split; [rewrite E1; reflexivity |]. split; [exact E2 |].
  split; [rewrite E2; reflexivity |].
  destruct (main_loop_body_same fu (main_loop_body fu main_init (mkReads 25000 25000 1))
              (single_read 1)) as [E3 _]; [rewrite E2; reflexivity |].
  rewrite E3, E1. reflexivity.
Qed.



(** ** Start-up *)

Ltac init_case :=
  cbn [negb andb fst snd succeeded];
  repeat split; intros; try reflexivity; try discriminate; auto;
  try match goal with H : _ /\ _ |- _ => destruct H; discriminate end.

(** X10: [do_init] returns only [XST_SUCCESS] or [XST_FAILURE]; it succeeds
    exactly when the seven outside initialisers and [PWM_Initialize] all
    succeed; the timer is not touched when one of the four steps before
    [PWM_Initialize] fails, and is left as [PWM_Initialize] left it when a
    later step fails. *)
Theorem do_init_outcome (p : Platform) (s : PwmState) :
  let r := do_init p s in
  let t := PWM_Initialize s XPAR_TMRCTR_0_DEVICE_ID false AXI_CLOCK_FREQ_HZ in
  (fst r = XST_SUCCESS \/ fst r = XST_FAILURE) /\
  (fst r = XST_SUCCESS <-> platform_ok p = true /\ fst t = XST_SUCCESS) /\
  (before_timer_ok p = false -> snd r = s) /\
  (before_timer_ok p = true -> snd r = snd t).
Proof.
  cbv zeta. unfold do_init, platform_ok, before_timer_ok.
  destruct (PWM_Initialize s XPAR_TMRCTR_0_DEVICE_ID false AXI_CLOCK_FREQ_HZ) as [st s1].
  destruct (succeeded (NX4IO_initialize p)); [| init_case].
  destruct (succeeded (PMDIO_initialize p)); [| init_case].
  destruct (succeeded (XGpio_Initialize_0 p)); [| init_case].
  destruct (succeeded (XGpio_Initialize_1 p)); [| init_case].
  destruct st; try solve [init_case].
  destruct (succeeded (XIntc_Initialize p)); [| init_case].
  destruct (succeeded (XIntc_Connect p)); [| init_case].
  destruct (succeeded (XIntc_Start p)); init_case.
Qed.

Lemma do_init_outcome_witness :
  before_timer_ok platform_no_pmod = false /\
  snd (do_init platform_no_pmod pwm_reset) = pwm_reset.
Proof.
  split; [reflexivity |].
  apply (do_init_outcome platform_no_pmod pwm_reset). reflexivity.
Defined.



(** ** Timekeeping and sampling in the interrupt handler *)

Lemma FIT_Handler_timebase s a b :
  timebase (FIT_Handler s a b) = timebase (FIT_tick s) /\
  gpio_out (FIT_Handler s a b) = clkfit (FIT_Handler s a b) /\
  clkfit (FIT_Handler s a b) = Z.lxor (clkfit s) 1.
Proof.
  unfold FIT_Handler.
  assert (T : gpio_out (FIT_tick s) = clkfit (FIT_tick s) /\
              clkfit (FIT_tick s) = Z.lxor (clkfit s) 1).
  { unfold FIT_tick. destruct (_ >? _); split; reflexivity. }
  destruct (a >? b); [destruct (_ >? 25000) |
    destruct (b >? a); [destruct (_ >? 25000) |]]; split; try reflexivity; exact T.
Qed.

Lemma FIT_tick_divider s :
  1 <= ts_interval s <= 40 ->
  (ts_interval s = 40 ->
     ts_interval (FIT_tick s) = 1 /\ timestamp (FIT_tick s) = u32 (timestamp s + 1)) /\
  (ts_interval s < 40 ->
     ts_interval (FIT_tick s) = ts_interval s + 1 /\ timestamp (FIT_tick s) = timestamp s).
Proof.
  intros H. unfold FIT_tick, FIT_COUNT_1MSEC. rewrite s32_small by lia.
  destruct (Z.gtb_spec (ts_interval s + 1) 40); split; intros; try lia; split; reflexivity.
Qed.

Lemma u32_add_l x y : u32 (u32 x + y) = u32 (x + y).
Proof. unfold u32. apply Z.add_mod_idemp_l. lia. Qed.

Lemma FIT_divider_from (l : list (Z * Z)) : forall s,
  1 <= ts_interval s <= 40 -> is_u32 (timestamp s) ->
  let n := Z.of_nat (length l) in
  ts_interval (FIT_run s l) = (ts_interval s - 1 + n) mod 40 + 1 /\
  timestamp (FIT_run s l) = u32 (timestamp s + (ts_interval s - 1 + n) / 40).
Proof.
  induction l as [| r l IH]; intros s H U.
  - cbn [length FIT_run fold_left Z.of_nat]. cbv zeta. rewrite Z.add_0_r.
    rewrite Z.mod_small, Z.div_small by lia. rewrite Z.add_0_r.
    split; [lia |]. symmetry. apply u32_small. exact U.
  - cbn [FIT_run fold_left]. fold (FIT_run (FIT_Handler s (fst r) (snd r)) l).
    destruct (FIT_Handler_timebase s (fst r) (snd r)) as (T & _).
    unfold timebase in T. injection T as _ Tt Ti.
    destruct (FIT_tick_divider s H) as (Hw & Hs).
    set (s1 := FIT_Handler s (fst r) (snd r)) in *.
    replace (Z.of_nat (length (r :: l))) with (Z.of_nat (length l) + 1)
      by (cbn [length]; lia).
    cbv zeta.
    destruct (Z.eq_dec (ts_interval s) 40) as [E | E].
    + destruct (Hw E) as (Ei & Et). rewrite <- Ti in Ei. rewrite <- Tt in Et.
      destruct (IH s1) as (I1 & I2); [lia | rewrite Et; unfold is_u32, u32; apply Z.mod_pos_bound; lia |].
      cbv zeta in I1, I2. rewrite I1, I2, Ei, Et, E, u32_add_l. split.
      * euclid.
      * f_equal. euclid.
    + destruct (Hs ltac:(lia)) as (Ei & Et). rewrite <- Ti in Ei. rewrite <- Tt in Et.
      destruct (IH s1) as (I1 & I2); [lia | rewrite Et; exact U |].
      cbv zeta in I1, I2. rewrite I1, I2, Ei, Et. split.
      * f_equal. f_equal. lia.
      * f_equal. f_equal. f_equal. lia.
Qed.

(** X12: once the divider is in 1..40, every [40 * k] firings advance the
    timestamp by exactly [k] (modulo 2^32) and bring the divider back to the
    value it had. *)
Theorem FIT_timestamp_steady (s : FitState) (k : Z) (readings : list (Z * Z)) :
  1 <= ts_interval s <= 40 -> is_u32 (timestamp s) -> 0 <= k ->
  Z.of_nat (length readings) = 40 * k ->
  timestamp (FIT_run s readings) = u32 (timestamp s + k) /\
  ts_interval (FIT_run s readings) = ts_interval s.
Proof.
  intros H U Hk Hn. destruct (FIT_divider_from readings s H U) as (I1 & I2).
  cbv zeta in I1, I2. rewrite I1, I2, Hn. split.
  - f_equal. euclid.
  - euclid.
Qed.

Lemma FIT_timestamp_steady_witness :
  timestamp (FIT_run (mkFit 0 5 17 0 0) (repeat (0, 0) 80)) = u32 (5 + 2).
Proof.
  apply (FIT_timestamp_steady (mkFit 0 5 17 0 0) 2 (repeat (0, 0) 80));
    [cbn; lia | unfold is_u32; cbn; lia | lia | reflexivity].
Defined.

Lemma lxor_parity c n :
  0 <= n -> Z.lxor (Z.lxor c 1) (n mod 2) = Z.lxor c ((n + 1) mod 2).
Proof.
  intros Hn. rewrite Z.lxor_assoc.
  assert (C : n mod 2 = 0 \/ n mod 2 = 1) by euclid.
  destruct C as [E | E]; rewrite E.
  - replace ((n + 1) mod 2) with 1 by euclid. reflexivity.
  - replace ((n + 1) mod 2) with 0 by euclid. reflexivity.
Qed.

(** X13: [clkfit] is toggled by every firing: after [n] firings it is the
    starting value with bit 0 flipped [n mod 2] times, and the GPIO output
    carries the current [clkfit]. *)
Theorem FIT_clkfit_toggles (s : FitState) (readings : list (Z * Z)) :
  clkfit (FIT_run s readings) =
    Z.lxor (clkfit s) (Z.of_nat (length readings) mod 2) /\
  (readings <> [] -> gpio_out (FIT_run s readings) = clkfit (FIT_run s readings)).
Proof.
  revert s. induction readings as [| r l IH]; intros s.
  - cbn [length FIT_run fold_left Z.of_nat]. rewrite Z.mod_0_l by lia.
    rewrite Z.lxor_0_r. split; [reflexivity | congruence].
  - cbn [FIT_run fold_left]. fold (FIT_run (FIT_Handler s (fst r) (snd r)) l).
    destruct (FIT_Handler_timebase s (fst r) (snd r)) as (_ & G & C).
    destruct (IH (FIT_Handler s (fst r) (snd r))) as (I1 & I2).
    split.
    + rewrite I1, C. replace (Z.of_nat (length (r :: l))) with (Z.of_nat (length l) + 1)
        by (cbn [length]; lia).
      apply lxor_parity. lia.
    + intros _. destruct l as [| r' l']; [exact G | apply I2; discriminate].
Qed.

Lemma FIT_clkfit_toggles_witness :
  gpio_out (FIT_run fit_reset [(1, 2)]) = clkfit (FIT_run fit_reset [(1, 2)]).
Proof.
  apply (FIT_clkfit_toggles fit_reset [(1, 2)]). discriminate.
Defined.

Lemma FIT_tick_timebase s s' :
  timebase s = timebase s' -> timebase (FIT_tick s) = timebase (FIT_tick s').
Proof.
  unfold timebase. intros E. injection E as Ec Et Ei.
  unfold FIT_tick. rewrite Ec, Et, Ei. destruct (_ >? _); reflexivity.
Qed.

(** X14: the clock toggle, the timestamp and its divider do not depend on the
    counter readings: two runs of the same length from states that agree on
    them agree on them afterwards, also over samples that are discarded. *)
Theorem FIT_timekeeping_independent (s s' : FitState) (l l' : list (Z * Z)) :
  clkfit s = clkfit s' -> timestamp s = timestamp s' -> ts_interval s = ts_interval s' ->
  length l = length l' ->
  clkfit (FIT_run s l) = clkfit (FIT_run s' l') /\
  timestamp (FIT_run s l) = timestamp (FIT_run s' l') /\
  ts_interval (FIT_run s l) = ts_interval (FIT_run s' l').
Proof.
  intros Ec Et Ei Hl.
  assert (T : timebase (FIT_run s l) = timebase (FIT_run s' l')).
  { assert (T0 : timebase s = timebase s') by (unfold timebase; congruence).
    clear Ec Et Ei. revert s s' l' T0 Hl.
    induction l as [| r l IH]; intros s s' l' T0 Hl; destruct l' as [| r' l'];
      try discriminate Hl; [exact T0 |].
    cbn [FIT_run fold_left]. apply IH; [| injection Hl; auto].
    destruct (FIT_Handler_timebase s (fst r) (snd r)) as (-> & _).
    destruct (FIT_Handler_timebase s' (fst r') (snd r')) as (-> & _).
    apply FIT_tick_timebase, T0. }
  unfold timebase in T. injection T as -> -> ->. auto.
Qed.

Lemma FIT_timekeeping_independent_witness :
  timestamp (FIT_run fit_reset (repeat (40000, 1000) 41))
    = timestamp (FIT_run fit_reset (repeat (7, 7) 41)).
Proof.
  apply (FIT_timekeeping_independent fit_reset fit_reset
           (repeat (40000, 1000) 41) (repeat (7, 7) 41));
    reflexivity.
Defined.

(** X15: for a valid pair of readings the estimate is their difference, and
    exchanging the two channels negates it. *)
Theorem FIT_Handler_antisymmetric (s s' : FitState) (a b : Z) :
  is_u32 a -> is_u32 b -> sample_valid a b = true ->
  phase_diff (FIT_Handler s b a) = - phase_diff (FIT_Handler s' a b) /\
  phase_diff (FIT_Handler s a b) = a - b.
Proof.
  intros Ha Hb V. unfold sample_valid in V. apply andb_true_iff in V.
  destruct V as [Vn Vw]. apply negb_true_iff, Z.eqb_neq in Vn. apply Z.leb_le in Vw.
  rewrite !FIT_Handler_cases by assumption.
  destruct (Z.ltb_spec b a); destruct (Z.leb_spec (a - b) 25000);
    destruct (Z.ltb_spec a b); destruct (Z.leb_spec (b - a) 25000);
    cbn [andb]; lia.
Qed.

Lemma FIT_Handler_antisymmetric_witness :
  phase_diff (FIT_Handler fit_reset 9000 10000)
    = - phase_diff (FIT_Handler fit_reset 10000 9000).
Proof.
  apply (FIT_Handler_antisymmetric fit_reset fit_reset 10000 9000);
    [unfold is_u32; lia | unfold is_u32; lia | reflexivity].
Defined.

Lemma FIT_run_invalid s l :
  u32_readings l ->
  Forall (fun r => sample_valid (fst r) (snd r) = false) l ->
  phase_diff (FIT_run s l) = phase_diff s.
Proof.
  intros Hu Hv. revert s. induction Hu as [| r l [Ha Hb] _ IH]; intros s; [reflexivity |].
  cbn [FIT_run fold_left]. fold (FIT_run (FIT_Handler s (fst r) (snd r)) l).
  inversion Hv as [| r0 l0 V Vl]; subst. rewrite (IH Vl).
  rewrite FIT_Handler_cases by assumption.
  unfold sample_valid in V. apply andb_false_iff in V.
  destruct (Z.ltb_spec (snd r) (fst r)); destruct (Z.leb_spec (fst r - snd r) 25000);
    destruct (Z.ltb_spec (fst r) (snd r)); destruct (Z.leb_spec (snd r - fst r) 25000);
    cbn [andb]; try reflexivity; exfalso;
    (destruct V as [V | V];
     [apply negb_false_iff, Z.eqb_eq in V; lia | apply Z.leb_gt in V; lia]).
Qed.

(** X16: latest valid sample wins: after a valid pair of readings followed by
    any number of invalid ones, the estimate is the difference of that pair,
    whatever came before. *)
Theorem FIT_latest_valid_sample (s : FitState) (before after : list (Z * Z)) (a b : Z) :
  is_u32 a -> is_u32 b -> sample_valid a b = true ->
  u32_readings after ->
  Forall (fun r => sample_valid (fst r) (snd r) = false) after ->
  phase_diff (FIT_run s (before ++ (a, b) :: after)) = a - b.
Proof.
  intros Ha Hb V Hu Hv. unfold FIT_run. rewrite fold_left_app. cbn [fold_left fst snd].
  fold (FIT_run (FIT_Handler (fold_left (fun st r => FIT_Handler st (fst r) (snd r)) before s) a b) after).
  rewrite (FIT_run_invalid _ after Hu Hv).
  unfold sample_valid in V. apply andb_true_iff in V.
  destruct V as [Vn Vw]. apply negb_true_iff, Z.eqb_neq in Vn. apply Z.leb_le in Vw.
  rewrite FIT_Handler_cases by assumption.
  destruct (Z.ltb_spec b a); destruct (Z.leb_spec (a - b) 25000);
    destruct (Z.ltb_spec a b); destruct (Z.leb_spec (b - a) 25000);
    cbn [andb]; lia.
Qed.

Lemma FIT_latest_valid_sample_witness :
  phase_diff (FIT_run fit_reset
                ([(5000, 9000)] ++ (10000, 9000) :: [(40000, 1000); (7, 7)])) = 1000.
Proof.
  apply (FIT_latest_valid_sample fit_reset [(5000, 9000)] [(40000, 1000); (7, 7)]
           10000 9000);
    [unfold is_u32; lia | unfold is_u32; lia | reflexivity
    | repeat constructor; cbn; lia
    | repeat constructor ].
Defined.

(** ** The steering policy, level by level *)

(** X18: on phase estimates of magnitude at most 25000 the policy is monotone
    and symmetric about the neutral duty; the duty is neutral exactly for
    magnitudes below 6250, and the extremes 11 and 3 are reached only at
    +25000 and -25000. *)
Theorem steer_duty_levels (pd pd' : Z) :
  Z.abs pd <= 25000 -> Z.abs pd' <= 25000 ->
  (steer_duty pd = SERVO_NEUTRAL_DUTY <-> Z.abs pd < 6250) /\
  (pd <= pd' -> steer_duty pd <= steer_duty pd') /\
  steer_duty (- pd) - SERVO_NEUTRAL_DUTY = - (steer_duty pd - SERVO_NEUTRAL_DUTY) /\
  (steer_duty pd = 11 <-> pd = 25000) /\
  (steer_duty pd = 3 <-> pd = -25000).
Proof.
  intros H H'. rewrite (steer_duty_exact pd H), (steer_duty_exact pd' H').
  rewrite (steer_duty_exact (- pd)) by lia. unfold SERVO_NEUTRAL_DUTY.
  repeat split; euclid.
Qed.

Lemma steer_duty_levels_witness :
  steer_duty 2500 <= steer_duty 7000.
Proof.
  apply (steer_duty_levels 2500 7000); [cbn; lia | cbn; lia | lia].
Defined.

(** ** The busy-wait delay *)

Lemma delay_spin_hit target s firings :
  timestamp s = target -> delay_spin target s firings = Some (s, firings).
Proof.
  intros E. destruct firings; cbn [delay_spin]; rewrite E, Z.eqb_refl; reflexivity.
Qed.

Lemma u32_apart t j m :
  is_u32 t -> 0 <= j < m -> m < 2 ^ 32 -> u32 (t + j) <> u32 (t + m).
Proof.
  unfold is_u32, u32. intros Ht Hj Hm E.
  assert (D : (t + m - (t + j)) mod 2 ^ 32 = 0).
  { rewrite Zminus_mod, E, Z.sub_diag. reflexivity. }
  replace (t + m - (t + j)) with (m - j) in D by lia.
  rewrite Z.mod_small in D by lia. lia.
Qed.

Lemma delay_spin_exact (n : nat) : forall s rem firings,
  is_u32 (timestamp s) -> 0 <= ts_interval s <= 40 -> 1 <= rem < 2 ^ 32 ->
  Z.of_nat n = 40 * rem - ts_interval s + 1 ->
  (n <= length firings ->
     delay_spin (u32 (timestamp s + rem)) s firings
       = Some (FIT_run s (firstn n firings), skipn n firings))%nat /\
  (length firings < n ->
     delay_spin (u32 (timestamp s + rem)) s firings = None)%nat.
Proof.
  induction n as [| n IH]; intros s rem firings U Hi Hr Hn; [lia |].
  assert (Miss : (timestamp s =? u32 (timestamp s + rem)) = false).
  { apply Z.eqb_neq. intros E.
    apply (u32_apart (timestamp s) 0 rem U); [lia | lia |].
    rewrite Z.add_0_r, (u32_small _ U). exact E. }
  destruct firings as [| r rest].
  { split; intros H; [cbn [length] in H; lia |]. cbn [delay_spin]. rewrite Miss. reflexivity. }
  cbn [delay_spin length firstn skipn FIT_run fold_left]. rewrite Miss.
  fold (FIT_run (FIT_Handler s (fst r) (snd r)) (firstn n rest)).
  destruct (FIT_Handler_timebase s (fst r) (snd r)) as (T & _).
  unfold timebase in T. injection T as _ Tt Ti.
  set (s1 := FIT_Handler s (fst r) (snd r)) in *.
  assert (Tick : (ts_interval s = 40 /\ ts_interval s1 = 1 /\ timestamp s1 = u32 (timestamp s + 1))
              \/ (ts_interval s < 40 /\ ts_interval s1 = ts_interval s + 1 /\
                  timestamp s1 = timestamp s)).
  { rewrite Ti, Tt. unfold FIT_tick, FIT_COUNT_1MSEC. rewrite s32_small by lia.
    destruct (Z.gtb_spec (ts_interval s + 1) 40); cbn [ts_interval timestamp]; [left | right]; lia. }
  destruct Tick as [(E & Ei & Et) | (E & Ei & Et)].
  - destruct (Z.eq_dec rem 1) as [-> | Hrem].
    + assert (n = 0%nat) by lia. subst n.
      cbn [firstn skipn FIT_run fold_left].
      rewrite (delay_spin_hit _ s1 rest) by exact Et.
      split; [reflexivity | intros H; lia].
    + assert (U1 : is_u32 (timestamp s1)).
      { rewrite Et. unfold is_u32, u32. apply Z.mod_pos_bound. lia. }
      destruct (IH s1 (rem - 1) rest U1) as (A & B); [lia | lia | lia |].
      replace (u32 (timestamp s1 + (rem - 1))) with (u32 (timestamp s + rem)) in A, B
        by (rewrite Et, u32_add_l; f_equal; lia).
      split; intros H; [apply A | apply B]; lia.
  - assert (U1 : is_u32 (timestamp s1)) by (rewrite Et; exact U).
    destruct (IH s1 rem rest U1) as (A & B); [lia | lia | lia |].
    rewrite Et in A, B.
    split; intros H; [apply A | apply B]; lia.
Qed.

Lemma delay_spin_returns target firings : forall s s' rest,
  delay_spin target s firings = Some (s', rest) -> timestamp s' = target.
Proof.
  induction firings as [| r l IH]; intros s s' rest; cbn [delay_spin];
    destruct (Z.eqb_spec (timestamp s) target) as [E | E].
  - intros H. injection H as <- _. exact E.
  - discriminate.
  - intros H. injection H as <- _. exact E.
  - apply IH.
Qed.

(** X17: [delay_msecs] with [1 <= msecs < 2^32] returns after exactly
    [40 * msecs - ts_interval + 1] firings, with the timestamp advanced by
    [msecs], and is still spinning while fewer have come; in steady state
    that is more than [msecs - 1] and at most [msecs] milliseconds of
    firings.  [delay_msecs 0] returns at once. *)
Theorem delay_msecs_duration (s : FitState) (msecs : Z) (firings : list (Z * Z)) :
  is_u32 (timestamp s) -> 0 <= ts_interval s <= 40 -> 1 <= msecs < 2 ^ 32 ->
  let n := Z.to_nat (40 * msecs - ts_interval s + 1) in
  ((n <= length firings)%nat ->
     delay_msecs s msecs firings
       = Some (FIT_run s (firstn n firings), skipn n firings) /\
     timestamp (FIT_run s (firstn n firings)) = u32 (timestamp s + msecs)) /\
  ((length firings < n)%nat -> delay_msecs s msecs firings = None) /\
  (1 <= ts_interval s -> 40 * (msecs - 1) < Z.of_nat n <= 40 * msecs) /\
  delay_msecs s 0 firings = Some (s, firings).
Proof.
  intros U Hi Hm n.
  assert (Hn : Z.of_nat n = 40 * msecs - ts_interval s + 1) by (unfold n; lia).
  destruct (delay_spin_exact n s msecs firings U Hi Hm Hn) as (A & B).
  unfold delay_msecs. replace (msecs =? 0) with false by (symmetry; apply Z.eqb_neq; lia).
  split; [| split; [exact B | split; [lia | reflexivity]]].
  intros H. split; [apply A, H |].
  apply (delay_spin_returns _ firings s _ _ (A H)).
Qed.

Lemma delay_msecs_duration_witness :
  delay_msecs fit_reset 1 (repeat (0, 0) 45)
    = Some (FIT_run fit_reset (firstn 41 (repeat (0, 0) 45)),
            skipn 41 (repeat (0, 0) 45)).
Proof.
  apply (delay_msecs_duration fit_reset 1 (repeat (0, 0) 45));
    [unfold is_u32; cbn; lia | cbn; lia | lia | cbn; lia].
Defined.
